(** * Portfolio sorts on lagged signals: the notebook
      [examples/merge_signals_with_crsp.ipynb] as Rocq definitions.

    The notebook is a sequence of dataframe operations.  Every operation the
    cells call is written out here on lists of rows:

    - missing values (NaN, NaT) are [None];
    - real-valued columns hold exact rationals ([Q]); the quantile edges are
      therefore the exact values of the linear interpolation, and two
      numbers are "the same float" when they are [Qeq];
    - a raised Python exception is the [Raise] constructor of [result];
    - the interpreter's global variables and the objects they refer to are a
      finite map of names to locations and a finite map of locations to
      objects, so that [.copy()] and column assignment can be told apart
      from rebinding a name. *)

From stdpp Require Import base option list gmap strings.
From Stdlib Require Import ZArith QArith Qround Lia Lqa Bool Sorted Permutation FinFun.
From Stdlib Require Import Ascii.

Local Open Scope Z_scope.

(** ** Exceptions *)

Inductive error : Type :=
| ValueError_samples       (* np.linspace: number of samples must be non-negative *)
| IndexError_bins          (* bins[0] on an empty index *)
| ValueError_bin_edges     (* "Bin edges must be unique" *)
| ValueError_bin_labels    (* "Bin labels must be one fewer than the number of bin edges" *)
| ValueError_time_data     (* to_datetime: the text does not match the format *)
| OutOfBoundsDatetime      (* the date does not fit a nanosecond Timestamp *)
| KeyError (name : string) (* a column or a global name that does not exist *)
| TypeError.               (* an object of the wrong kind *)

Inductive result (A : Type) : Type :=
| Ok (a : A)
| Raise (e : error).
Arguments Ok {A} a.
Arguments Raise {A} e.

Definition bind {A B} (r : result A) (k : A -> result B) : result B :=
  match r with
  | Ok a => k a
  | Raise e => Raise e
  end.

Notation "x <- r ;;; k" := (bind r (fun x => k))
  (at level 100, r at next level, right associativity).

Fixpoint mapM {A B} (f : A -> result B) (l : list A) : result (list B) :=
  match l with
  | [] => Ok []
  | a :: l' => b <- f a ;;; bs <- mapM f l' ;;; Ok (b :: bs)
  end.

(** ** Scalars *)

(** A float cell: [None] is NaN. *)
Abbreviation float := (option Q).

Definition isna {A} (x : option A) : bool :=
  match x with None => true | Some _ => false end.

Definition dropna {A} (l : list (option A)) : list A := omap id l.

(** [a == b] on floats: NaN equals nothing. *)
Definition float_eqb (a b : float) : bool :=
  match a, b with
  | Some a, Some b => Qeq_bool a b
  | _, _ => false
  end.

(** The order numpy sorts and searches with: NaN comes after every number. *)
Definition float_ltb (a b : float) : bool :=
  match a, b with
  | Some a, Some b => negb (Qle_bool b a)
  | Some _, None => true
  | None, _ => false
  end.

(** Equality of hash keys in [algos.unique]: all NaN are one key. *)
Definition float_same (a b : float) : bool :=
  match a, b with
  | Some a, Some b => Qeq_bool a b
  | None, None => true
  | _, _ => false
  end.

(** ** Timestamps *)

Record Timestamp : Type := mkTimestamp { year : Z; month : Z; day : Z }.

Definition ts_eqb (a b : Timestamp) : bool :=
  (year a =? year b) && (month a =? month b) && (day a =? day b).

Definition ts_leb (a b : Timestamp) : bool :=
  (year a <? year b)
  || ((year a =? year b)
      && ((month a <? month b) || ((month a =? month b) && (day a <=? day b)))).

(** ** Sorting and grouping helpers *)

Section Sorting.
Context {A : Type} (leb : A -> A -> bool) (eqb : A -> A -> bool).

Fixpoint insert_sorted (x : A) (l : list A) : list A :=
  match l with
  | [] => [x]
  | y :: l' => if leb x y then x :: l else y :: insert_sorted x l'
  end.

Definition sort (l : list A) : list A := foldr insert_sorted [] l.

(** First occurrences, in order of appearance ([algos.unique]). *)
Fixpoint unique (l : list A) : list A :=
  match l with
  | [] => []
  | x :: l' => x :: List.filter (fun y => negb (eqb x y)) (unique l')
  end.
End Sorting.

(** ** numpy: linspace and percentile *)

Definition Zseq (start len : Z) : list Z :=
  map (fun i => start + Z.of_nat i) (seq 0 (Z.to_nat len)).

(** [np.linspace(0, 1, num)]. *)
Definition linspace01 (num : Z) : result (list Q) :=
  if num <? 0 then Raise ValueError_samples
  else if num =? 1 then Ok [0%Q]
  else Ok (map (fun k => Qmake k (Z.to_pos (num - 1))) (Zseq 0 num)).

Definition lerp (a b t : Q) : Q := (a + (b - a) * t)%Q.

(** [np.percentile(arr, 100*q, method='linear')] on the sorted non-missing
    values; NaN when there are none.  The interpolation is exact here;
    numpy rounds every operation to a double, so that an inner edge can
    differ from the one computed here in its last bit (the first edge and
    the last are the minimum and the maximum in both).  The statements
    below are about what does not hang on that bit: the order of the edges
    and of the labels, the first and the last edge, colliding edges of a
    constant series, and inputs whose values lie away from the edges. *)
Definition quantile_sorted (arr : list Q) (q : Q) : float :=
  match arr with
  | [] => None
  | a0 :: _ =>
      let last := Z.of_nat (length arr) - 1 in
      let virtual := (inject_Z last * q)%Q in
      let previous := Qfloor virtual in
      let next := Z.min (previous + 1) last in
      let gamma := (virtual - inject_Z previous)%Q in
      Some (lerp (nth (Z.to_nat previous) arr a0) (nth (Z.to_nat next) arr a0) gamma)
  end.

(** [Series.dropna().quantile(quantiles)]. *)
Definition quantile (x : list float) (quantiles : list Q) : list float :=
  let arr := sort Qle_bool (dropna x) in
  map (quantile_sorted arr) quantiles.

(** ** pandas: qcut *)

(** [bins.searchsorted(x, side='left')]: the leftmost insertion point, that
    is the number of leading edges strictly below [x].  The edges are in
    increasing order ([qcut_edges_sorted] below), so this is the index a
    binary search of them returns. *)
Fixpoint searchsorted_left (bins : list float) (x : float) : Z :=
  match bins with
  | [] => 0
  | b :: bins' => if float_ltb b x then 1 + searchsorted_left bins' x else 0
  end.

(** The code of one value in [_bins_to_cuts] with [include_lowest=True]. *)
Definition cut_id (bins : list float) (b0 : float) (x : float) : Z :=
  if float_eqb x b0 then 1 else searchsorted_left bins x.

Definition cut_label (bins : list float) (b0 : float) (labels : list Z)
    (x : float) : option Z :=
  let id := cut_id bins b0 x in
  if isna x || (id =? Z.of_nat (length bins)) || (id =? 0) then None
  else nth_error labels (Z.to_nat (id - 1)).

(** [_bins_to_cuts(x, bins, labels=labels, include_lowest=True,
    duplicates='raise')]. *)
Definition bins_to_cuts (x : list float) (bins : list float) (labels : list Z)
    : result (list (option Z)) :=
  if (length (unique float_same bins) <? length bins)%nat
     && negb (length bins =? 2)%nat
  then Raise ValueError_bin_edges
  else
    match bins with
    | [] => Raise IndexError_bins
    | b0 :: _ =>
        if negb (length labels =? length bins - 1)%nat
        then Raise ValueError_bin_labels
        else Ok (map (cut_label bins b0 labels) x)
    end.

(** [pd.qcut(x, q, labels=labels)] for an integer [q]. *)
Definition qcut (x : list float) (q : Z) (labels : list Z)
    : result (list (option Z)) :=
  quantiles <- linspace01 (q + 1) ;;;
  bins_to_cuts x (quantile x quantiles) labels.

(** [list(range(1, n+1))]. *)
Definition range1 (n : Z) : list Z := Zseq 1 n.

Definition Q_of (z : Z) : float := Some (inject_Z z).

(** ** The tables of the notebook *)

(** The signals asked for in [signal_list]. *)
Inductive signal_name : Type := BM_name | AssetGrowth_name.

(** A row of [crsp_signals], the monthly returns with the lagged signals
    joined on. *)
Record crsp_signals_row : Type := mkCrspSignals {
  cs_permno : Z;
  cs_date : Timestamp;
  cs_ret : float;
  cs_yyyymm_signals : option Z;
  cs_BM : float;
  cs_AssetGrowth : float
}.

(** A row of [temp] before the [port] column is set: the columns
    [['permno', 'date', 'ret', signalname]]. *)
Record obs : Type := mkObs {
  permno : Z;
  date : Timestamp;
  ret : float;
  signal : float
}.

(** A categorical column: its categories and one value per row. *)
Record categorical : Type := mkCategorical {
  categories : list Z;
  values : list (option Z)
}.

(** A row of [temp] once [temp['port']] is set. *)
Record temp_row : Type := mkTemp {
  t_obs : obs;
  port : option Z
}.

(** A row of [port]: one per date and category. *)
Record port_row : Type := mkPort {
  p_date : Timestamp;
  p_port : Z;
  nstock : Z;
  p_ret : float
}.

(** A row of [port_summary].  The notebook's [('ret', 'std')] is the square
    root of [ret_var], the sample variance, which is kept instead so that
    the cell stays rational. *)
Record summary_row : Type := mkSummary {
  s_port : Z;
  ret_mean : float;
  ret_var : float;
  nstock_mean : float;
  date_min : option Timestamp;
  date_max : option Timestamp
}.

(** ** Aggregations *)

Definition Qsum (l : list Q) : Q := foldr Qplus 0%Q l.

Definition Qlen {A} (l : list A) : Q := inject_Z (Z.of_nat (length l)).

(** ['mean']: missing values are skipped; NaN when nothing is left. *)
Definition mean (l : list float) : float :=
  match dropna l with
  | [] => None
  | v => Some (Qsum v / Qlen v)%Q
  end.

(** The square of ['std'] (one degree of freedom removed). *)
Definition var (l : list float) : float :=
  match dropna l with
  | [] | [_] => None
  | v =>
      let m := (Qsum v / Qlen v)%Q in
      Some (Qsum (map (fun x => (x - m) * (x - m))%Q v) / (Qlen v - 1))%Q
  end.

Definition ts_min (l : list Timestamp) : option Timestamp := head (sort ts_leb l).
Definition ts_max (l : list Timestamp) : option Timestamp := last (sort ts_leb l).

(** ** The portfolio-sort cell *)

Definition signal_column (s : signal_name) (r : crsp_signals_row) : float :=
  match s with
  | BM_name => cs_BM r
  | AssetGrowth_name => cs_AssetGrowth r
  end.

(** [crsp_signals[['permno', 'date', 'ret', signalname]]] *)
Definition select_columns (s : signal_name) (cs : list crsp_signals_row) : list obs :=
  map (fun r => mkObs (cs_permno r) (cs_date r) (cs_ret r) (signal_column s r)) cs.

(** The keys of [groupby('date')], sorted. *)
Definition group_keys (dates : list Timestamp) : list Timestamp :=
  sort ts_leb (unique ts_eqb dates).

Definition indexed {A} (l : list A) : list (nat * A) :=
  combine (seq 0 (length l)) l.

Definition get_group (d : Timestamp) (rows : list (nat * obs)) : list (nat * obs) :=
  List.filter (fun ir => ts_eqb (date (snd ir)) d) rows.

Fixpoint assoc {B} (i : nat) (l : list (nat * B)) : option B :=
  match l with
  | [] => None
  | (j, b) :: l' => if Nat.eqb i j then Some b else assoc i l'
  end.

(** The lambda of the cell, called on the rows of one date; the result keeps
    the index of its rows. *)
Definition qcut_piece (rows : list (nat * obs)) (n : Z) (d : Timestamp)
    : result (list (nat * option Z)) :=
  let g := get_group d rows in
  res <- qcut (map (fun ir => signal (snd ir)) g) n (range1 n) ;;;
  Ok (combine (map fst g) res).

(** [temp.groupby('date')[signalname].transform(lambda x: pd.qcut(x, n,
    labels=list(range(1, n+1))))]: the function is called on each date's
    rows, in the order of the dates; the pieces are concatenated and put back
    in the order of [temp]'s index.  With no group there is nothing to
    concatenate and the column is an empty float column. *)
Definition transform_qcut (temp : list obs) (n : Z) : result categorical :=
  results <- mapM (qcut_piece (indexed temp) n) (group_keys (map date temp)) ;;;
  let concatenated := concat results in
  Ok (mkCategorical
        (match results with [] => [] | _ => range1 n end)
        (map (fun i => default None (assoc i concatenated)) (seq 0 (length temp)))).

(** [temp['port'] = ...] *)
Definition set_port (temp : list obs) (c : categorical) : list temp_row :=
  zip_with mkTemp temp (values c).

Definition in_group (d : Timestamp) (g : Z) (r : temp_row) : bool :=
  ts_eqb (date (t_obs r)) d
  && match port r with Some p => p =? g | None => false end.

(** [temp.groupby(['date', 'port'], observed=False).agg(nstock=('permno',
    'count'), ret=('ret', 'mean')).reset_index()]: one row per date of
    [temp] and category of [port], sorted; rows of [temp] whose [port] is
    missing belong to no group.  [permno] is an integer column, so its count
    is the size of the group. *)
Definition port_table (cats : list Z) (temp : list temp_row) : list port_row :=
  flat_map (fun d =>
    map (fun g =>
      let grp := List.filter (in_group d g) temp in
      mkPort d g (Z.of_nat (length grp)) (mean (map (fun r => ret (t_obs r)) grp)))
      cats)
    (group_keys (map (fun r => date (t_obs r)) temp)).

(** [port.groupby('port', observed=False).agg({'ret': ['mean', 'std'],
    'nstock': 'mean', 'date': ['min', 'max']})] *)
Definition port_summary (cats : list Z) (port : list port_row) : list summary_row :=
  map (fun g =>
    let grp := List.filter (fun r => p_port r =? g) port in
    mkSummary g
      (mean (map p_ret grp))
      (var (map p_ret grp))
      (mean (map (fun r => Some (inject_Z (nstock r))) grp))
      (ts_min (map p_date grp))
      (ts_max (map p_date grp)))
    cats.

(** Everything the cell computes from [crsp_signals], [signalname] and [n]. *)
Record cell_output : Type := mkOutput {
  out_temp : list temp_row;
  out_port : list port_row;
  out_summary : list summary_row
}.

Definition portfolio_sort (crsp_signals : list crsp_signals_row)
    (signalname : signal_name) (n : Z) : result cell_output :=
  let temp := select_columns signalname crsp_signals in
  c <- transform_qcut temp n ;;;
  let temp := set_port temp c in
  let port := port_table (categories c) temp in
  Ok (mkOutput temp port (port_summary (categories c) port)).

(** The summarizer: the table the cell displays. *)
Definition summarize (crsp_signals : list crsp_signals_row)
    (signalname : signal_name) (n : Z) : result (list summary_row) :=
  o <- portfolio_sort crsp_signals signalname n ;;; Ok (out_summary o).

(** ** Lagging the signals and joining the returns *)

(** A row of [signals], as downloaded. *)
Record signals_row : Type := mkSignals {
  sg_permno : Z;
  yyyymm : Z;
  sg_BM : float;
  sg_AssetGrowth : float
}.

(** A row of [signals_lag]: [yyyymm] renamed, and the [date] column. *)
Record signals_lag_row : Type := mkSignalsLag {
  sl_permno : Z;
  yyyymm_signals : Z;
  sl_BM : float;
  sl_AssetGrowth : float;
  sl_date : Timestamp
}.

(** A row of [crsp]. *)
Record crsp_row : Type := mkCrsp {
  c_permno : Z;
  c_date : Timestamp;
  c_ret : float
}.

Definition is_leap (y : Z) : bool :=
  ((y mod 4 =? 0) && negb (y mod 100 =? 0)) || (y mod 400 =? 0).

Definition days_in_month (y m : Z) : Z :=
  if m =? 2 then (if is_leap y then 29 else 28)
  else if (m =? 4) || (m =? 6) || (m =? 9) || (m =? 11) then 30
  else 31.

(** The days a nanosecond [Timestamp] can hold: 1677-09-21 to 2262-04-11
    (the first and the last day only in part, which no date at midnight of
    another day touches). *)
Definition in_bounds (d : Timestamp) : bool :=
  ts_leb (mkTimestamp 1677 9 22) d && ts_leb d (mkTimestamp 2262 4 11).

(** The character of a decimal digit, and the digit of a character. *)
Definition digit_char (d : Z) : ascii := ascii_of_nat (48 + Z.to_nat d).

Definition digit_value (c : ascii) : option Z :=
  let k := Z.of_nat (nat_of_ascii c) in
  if (48 <=? k) && (k <=? 57) then Some (k - 48) else None.

(** [astype(str)] on an integer: its decimal digits, after a minus sign
    when it is negative.  Twenty digits are enough for an [int64]. *)
Fixpoint digits_to (fuel : nat) (n : Z) (acc : string) : string :=
  match fuel with
  | O => acc
  | S fuel' =>
      let acc' := String (digit_char (n mod 10)) acc in
      if n <? 10 then acc' else digits_to fuel' (n / 10) acc'
  end.

Definition astype_str (n : Z) : string :=
  if n <? 0 then String "-" (digits_to 20 (- n) "") else digits_to 20 n "".

Definition two_digits (n : Z) : string :=
  String (digit_char (n / 10 mod 10)) (String (digit_char (n mod 10)) "").

(** [dt.strftime('%Y%m')]: four digits of year, two of month. *)
Definition strftime_Ym (d : Timestamp) : string :=
  String.append (two_digits (year d / 100))
    (String.append (two_digits (year d)) (two_digits (month d))).

Definition number2 (a b : ascii) : option Z :=
  match digit_value a, digit_value b with
  | Some x, Some y => Some (10 * x + y)
  | _, _ => None
  end.

(** A date that exists and that a timestamp can hold. *)
Definition check_date (y m d : Z) : result Timestamp :=
  if (m <? 1) || (12 <? m) || (d <? 1) || (days_in_month y m <? d)
  then Raise ValueError_time_data
  else if in_bounds (mkTimestamp y m d) then Ok (mkTimestamp y m d)
  else Raise OutOfBoundsDatetime.

(** A digit between [lo] and [hi], as the classes [[1-9]], [[0-2]], ... of
    the pattern below. *)
Definition digit_in (lo hi : Z) (c : ascii) : option Z :=
  match digit_value c with
  | Some k => if (lo <=? k) && (k <=? hi) then Some k else None
  | None => None
  end.

(** A text without its minus sign, and the sign. *)
Definition strip_minus (text : string) : Z * string :=
  match text with
  | String c rest => if Ascii.eqb c "-" then (-1, rest) else (1, text)
  | EmptyString => (1, text)
  end.

(** The first reader of [to_datetime] for the format ['%Y%m%d'], the one
    of ISO 8601 texts: a minus sign or none, then exactly eight digits,
    four of year, two of month and two of day, with a month and a day that
    exist.  It takes no other text: those go to the second reader. *)
Definition parse_iso_Ymd (text : string) : option (Z * Z * Z) :=
  match snd (strip_minus text) with
  | String y1 (String y2 (String y3 (String y4 (String m1 (String m2
      (String d1 (String d2 EmptyString))))))) =>
      match number2 y1 y2, number2 y3 y4, number2 m1 m2, number2 d1 d2 with
      | Some yh, Some yl, Some m, Some d =>
          let y := fst (strip_minus text) * (100 * yh + yl) in
          if (1 <=? m) && (m <=? 12) && (1 <=? d) && (d <=? days_in_month y m)
          then Some (y, m, d) else None
      | _, _, _, _ => None
      end
  | _ => None
  end.

(** The alternatives of ['%m'], [1[0-2]|0[1-9]|[1-9]], in their order: the
    month read at the start of [s] and what is left of [s]. *)
Definition month_alternatives (s : string) : list (Z * string) :=
  match s with
  | String a rest =>
      match rest with
      | String b rest' =>
          match digit_in 1 1 a, digit_in 0 2 b with
          | Some _, Some k => [(10 + k, rest')]
          | _, _ => []
          end
          ++ match digit_in 0 0 a, digit_in 1 9 b with
             | Some _, Some k => [(k, rest')]
             | _, _ => []
             end
      | EmptyString => []
      end
      ++ match digit_in 1 9 a with
         | Some k => [(k, rest)]
         | None => []
         end
  | EmptyString => []
  end.

(** The alternatives of ['%d'], [3[0-1]|[1-2]\d|0[1-9]|[1-9]| [1-9]]. *)
Definition day_alternatives (s : string) : list (Z * string) :=
  match s with
  | String a rest =>
      match rest with
      | String b rest' =>
          match digit_in 3 3 a, digit_in 0 1 b with
          | Some _, Some k => [(30 + k, rest')]
          | _, _ => []
          end
          ++ match digit_in 1 2 a, digit_in 0 9 b with
             | Some j, Some k => [(10 * j + k, rest')]
             | _, _ => []
             end
          ++ match digit_in 0 0 a, digit_in 1 9 b with
             | Some _, Some k => [(k, rest')]
             | _, _ => []
             end
      | EmptyString => []
      end
      ++ match digit_in 1 9 a with
         | Some k => [(k, rest)]
         | None => []
         end
      ++ match rest with
         | String b rest' =>
             match Ascii.eqb a " ", digit_in 1 9 b with
             | true, Some k => [(k, rest')]
             | _, _ => []
             end
         | EmptyString => []
         end
  | EmptyString => []
  end.

(** The ways to read a month and then a day at the start of [s], the first
    the one a backtracking match finds. *)
Definition month_day_matches (s : string) : list (Z * Z * string) :=
  flat_map (fun ms => map (fun ds => (fst ms, fst ds, snd ds)) (day_alternatives (snd ms)))
    (month_alternatives s).

(** The second reader: the pattern of ['%Y%m%d'], four digits, a month and
    a day, matched at the start of the text.  The result is the year, the
    month, the day and the text the match leaves. *)
Definition match_Ymd (text : string) : option (Z * Z * Z * string) :=
  match text with
  | String y1 (String y2 (String y3 (String y4 rest))) =>
      match number2 y1 y2, number2 y3 y4 with
      | Some yh, Some yl =>
          match month_day_matches rest with
          | (m, d, remains) :: _ => Some (100 * yh + yl, m, d, remains)
          | [] => None
          end
      | _, _ => None
      end
  | _ => None
  end.

(** [pd.to_datetime(text, format='%Y%m%d')] on one text.  A text the first
    reader takes is a date, out of bounds or not (a minus sign gives a
    negative year, which is out of bounds).  Any other text must match the
    pattern and leave nothing ("unconverted data remains" otherwise), with
    a year that is not 0 and a day that exists: so a month or a day of one
    digit is read where the text has seven or six digits.  The texts of the
    two cells are a sign and digits; a text with a letter does not occur
    and is rejected here as by the pattern. *)
Definition to_datetime_Ymd (text : string) : result Timestamp :=
  match parse_iso_Ymd text with
  | Some (y, m, d) =>
      if in_bounds (mkTimestamp y m d) then Ok (mkTimestamp y m d)
      else Raise OutOfBoundsDatetime
  | None =>
      match match_Ymd text with
      | Some (y, m, d, EmptyString) =>
          if y =? 0 then Raise ValueError_time_data else check_date y m d
      | _ => Raise ValueError_time_data
      end
  end.

(** [ts + pd.DateOffset(months=1)]: the same day of the next month, or that
    month's last day. *)
Definition add_month (d : Timestamp) : result Timestamp :=
  let y := if month d =? 12 then year d + 1 else year d in
  let m := if month d =? 12 then 1 else month d + 1 in
  let r := mkTimestamp y m (Z.min (day d) (days_in_month y m)) in
  if in_bounds r then Ok r else Raise OutOfBoundsDatetime.

(** The cell "lag signals": copy, rename [yyyymm], add [date]. *)
Definition lag_signals (signals : list signals_row) : result (list signals_lag_row) :=
  mapM (fun r =>
    t <- to_datetime_Ymd (String.append (astype_str (yyyymm r)) "28") ;;;
    d <- add_month t ;;;
    Ok (mkSignalsLag (sg_permno r) (yyyymm r) (sg_BM r) (sg_AssetGrowth r) d))
    signals.

(** [crsp['date'] = pd.to_datetime(crsp['date'].dt.strftime('%Y%m') + '28',
    format='%Y%m%d')] *)
Definition to_28th (crsp : list crsp_row) : result (list crsp_row) :=
  mapM (fun r =>
    d <- to_datetime_Ymd (String.append (strftime_Ym (c_date r)) "28") ;;;
    Ok (mkCrsp (c_permno r) d (c_ret r)))
    crsp.

Definition join_row (l : crsp_row) (r : option signals_lag_row) : crsp_signals_row :=
  mkCrspSignals (c_permno l) (c_date l) (c_ret l)
    (option_map yyyymm_signals r)
    (match r with Some r' => sl_BM r' | None => None end)
    (match r with Some r' => sl_AssetGrowth r' | None => None end).

(** [pd.merge(crsp, signals_lag, on=['permno', 'date'], how='left')]: every
    row of [crsp], in order, once per row of [signals_lag] with the same
    keys, or once with missing values when there is none. *)
Definition merge_left (crsp : list crsp_row) (signals_lag : list signals_lag_row)
    : list crsp_signals_row :=
  flat_map (fun l =>
    match List.filter (fun r => (sl_permno r =? c_permno l) && ts_eqb (sl_date r) (c_date l))
            signals_lag with
    | [] => [join_row l None]
    | matches => map (fun r => join_row l (Some r)) matches
    end)
    crsp.

(** The cells "lag signals" and "left join returns onto signals". *)
Definition merge_cells (signals : list signals_row) (crsp : list crsp_row)
    : result (list crsp_signals_row) :=
  signals_lag <- lag_signals signals ;;;
  crsp <- to_28th crsp ;;;
  Ok (merge_left crsp signals_lag).

(** The month after a [yyyymm] period, as a [yyyymm]. *)
Definition month_after (p : Z) : Z :=
  if p mod 100 =? 12 then (p / 100 + 1) * 100 + 1 else p + 1.

(** The periods the notebook can date: a month between September 1677 and
    February 2262 (so that the 28th of it and of the next month are
    timestamps). *)
Definition period_ok (p : Z) : Prop :=
  1 <= p mod 100 <= 12 /\ 167709 <= p <= 226202.

(** The year and month of a timestamp, as a [yyyymm]. *)
Definition yyyymm_of (d : Timestamp) : Z := year d * 100 + month d.

(** The values of the type: a day that exists, within the bounds. *)
Definition timestamp_ok (d : Timestamp) : Prop :=
  1 <= month d <= 12 /\ 1 <= day d <= days_in_month (year d) (month d)
  /\ in_bounds d = true.

(** The timestamps of [crsp] the notebook can move to the 28th: all but
    those of April 2262. *)
Definition crsp_date_ok (d : Timestamp) : Prop :=
  timestamp_ok d /\ yyyymm_of d <= 226203.

Definition the_28th (p : Z) : Timestamp := mkTimestamp (p / 100) (p mod 100) 28.

(** ** The interpreter state *)

(** Objects live at locations; a global name refers to a location.  Two
    names may refer to the same object; assigning to a name rebinds it,
    setting a column changes the object. *)
Definition loc := positive.

Inductive pyobj : Type :=
| PyInt (n : Z)
| PyStr (s : signal_name)
| DfCrspSignals (rows : list crsp_signals_row)
| DfTemp (rows : list obs) (port_column : option categorical)
| DfPort (cats : list Z) (rows : list port_row)
| DfSummary (rows : list summary_row).

Record notebook : Type := mkNotebook {
  heap : gmap loc pyobj;
  globals : gmap string loc
}.

(** A statement: it changes the state and returns a value or raises. *)
Definition stmt (A : Type) : Type := notebook -> notebook * result A.

Definition sret {A} (a : A) : stmt A := fun nb => (nb, Ok a).

Definition sbind {A B} (m : stmt A) (k : A -> stmt B) : stmt B :=
  fun nb =>
    match m nb with
    | (nb', Ok a) => k a nb'
    | (nb', Raise e) => (nb', Raise e)
    end.

Notation "x <~ m ;; k" := (sbind m (fun x => k))
  (at level 100, m at next level, right associativity).

Definition sraise {A} (e : error) : stmt A := fun nb => (nb, Raise e).

Definition lift {A} (r : result A) : stmt A := fun nb => (nb, r).

(** A new object. *)
Definition alloc (o : pyobj) : stmt loc :=
  fun nb =>
    let l := fresh (dom (heap nb)) in
    (mkNotebook (<[l := o]> (heap nb)) (globals nb), Ok l).

(** [name = ...] *)
Definition assign (name : string) (l : loc) : stmt unit :=
  fun nb => (mkNotebook (heap nb) (<[name := l]> (globals nb)), Ok tt).

(** Reading a name. *)
Definition lookup_name (name : string) : stmt loc :=
  fun nb =>
    match globals nb !! name with
    | Some l => (nb, Ok l)
    | None => (nb, Raise (KeyError name))
    end.

Definition deref (l : loc) : stmt pyobj :=
  fun nb =>
    match heap nb !! l with
    | Some o => (nb, Ok o)
    | None => (nb, Raise TypeError)
    end.

(** Changing an object in place. *)
Definition store (l : loc) (o : pyobj) : stmt unit :=
  fun nb => (mkNotebook (<[l := o]> (heap nb)) (globals nb), Ok tt).

Definition read (name : string) : stmt pyobj :=
  l <~ lookup_name name ;; deref l.

(** [temp = crsp_signals[['permno', 'date', 'ret', signalname]].copy()]:
    the selection is a new frame, and [.copy()] is another one. *)
Definition stmt_temp : stmt unit :=
  cs <~ read "crsp_signals" ;;
  sn <~ read "signalname" ;;
  match cs, sn with
  | DfCrspSignals rows, PyStr s =>
      selection <~ alloc (DfTemp (select_columns s rows) None) ;;
      o <~ deref selection ;;
      copy <~ alloc o ;;
      assign "temp" copy
  | _, _ => sraise TypeError
  end.

(** [temp['port'] = temp.groupby('date')[signalname].transform(...)]: the
    object [temp] refers to gets the column. *)
Definition stmt_set_port : stmt unit :=
  l <~ lookup_name "temp" ;;
  t <~ deref l ;;
  nv <~ read "n" ;;
  match t, nv with
  | DfTemp rows _, PyInt n =>
      c <~ lift (transform_qcut rows n) ;;
      store l (DfTemp rows (Some c))
  | _, _ => sraise TypeError
  end.

(** [port = temp.groupby(['date', 'port'], observed=False).agg(...)
    .reset_index()] *)
Definition stmt_port : stmt unit :=
  t <~ read "temp" ;;
  match t with
  | DfTemp rows (Some c) =>
      l <~ alloc (DfPort (categories c) (port_table (categories c) (set_port rows c))) ;;
      assign "port" l
  | DfTemp _ None => sraise (KeyError "port")
  | _ => sraise TypeError
  end.

(** [port_summary = port.groupby('port', observed=False).agg(...)] *)
Definition stmt_port_summary : stmt unit :=
  p <~ read "port" ;;
  match p with
  | DfPort cats rows =>
      l <~ alloc (DfSummary (port_summary cats rows)) ;;
      assign "port_summary" l
  | _ => sraise TypeError
  end.

(** The last line of the cell: the value of [port_summary] is displayed. *)
Definition stmt_display : stmt (list summary_row) :=
  o <~ read "port_summary" ;;
  match o with
  | DfSummary rows => sret rows
  | _ => sraise TypeError
  end.

(** The sanity-check cell, with the number of portfolios and the signal
    name it sets in its first two lines. *)
Definition run_cell (n : Z) (signalname : signal_name) : stmt (list summary_row) :=
  ln <~ alloc (PyInt n) ;;
  _ <~ assign "n" ln ;;
  ls <~ alloc (PyStr signalname) ;;
  _ <~ assign "signalname" ls ;;
  _ <~ stmt_temp ;;
  _ <~ stmt_set_port ;;
  _ <~ stmt_port ;;
  _ <~ stmt_port_summary ;;
  stmt_display.

(** What the name [crsp_signals] stands for. *)
Definition crsp_signals_of (nb : notebook) : option (list crsp_signals_row) :=
  match globals nb !! "crsp_signals" with
  | Some l =>
      match heap nb !! l with
      | Some (DfCrspSignals rows) => Some rows
      | _ => None
      end
  | None => None
  end.

(** Every name refers to an object. *)
Definition no_dangling (nb : notebook) : Prop :=
  forall name l, globals nb !! name = Some l -> is_Some (heap nb !! l).

(** A notebook in which only [crsp_signals] is defined. *)
Definition notebook_with (cs : list crsp_signals_row) : notebook :=
  mkNotebook {[ 1%positive := DfCrspSignals cs ]} {[ "crsp_signals" := 1%positive ]}.

(** ** Sample inputs *)

Definition d8001 : Timestamp := mkTimestamp 1980 1 28.
Definition d8002 : Timestamp := mkTimestamp 1980 2 28.

(** A row of [crsp_signals] with integer values: entity, date, return and
    [BM] (no [AssetGrowth]). *)
Definition row (p : Z) (d : Timestamp) (r : Z) (bm : option Z) : crsp_signals_row :=
  mkCrspSignals p d (Q_of r) (Some 197912) (option_map inject_Z bm) None.

(** Ten entities in one date with [BM] 1 to 10; [p] and [r] give the
    identifier and the return of each. *)
Definition ten_entities (d : Timestamp) (p : Z -> Z) (r : Z -> float)
    : list crsp_signals_row :=
  map (fun i => mkCrspSignals (p i) d (r i) (Some 197912) (Q_of i) None) (Zseq 1 10).

(** One date with three entities (and a fourth without signal), one date
    with two. *)
Definition three_entities : list crsp_signals_row :=
  [row 1 d8001 1 (Some 1); row 2 d8001 2 (Some 2); row 3 d8001 3 (Some 3);
   row 4 d8001 3 None; row 4 d8002 3 (Some 7); row 5 d8002 3 (Some 9)].

(** A date with a single entity. *)
Definition lone_entity : list crsp_signals_row :=
  [row 1 d8001 1 (Some 1); row 2 d8002 2 (Some 2); row 3 d8002 3 (Some 3)].

(** ** Vocabulary of the statements *)

(** The signal values of the rows of one date, in row order: the series the
    lambda hands to [pd.qcut]. *)
Definition period_signals (temp : list obs) (d : Timestamp) : list float :=
  map signal (List.filter (fun r => ts_eqb (date r) d) temp).

(** The bin edges [pd.qcut] computes for a series. *)
Definition qcut_edges (x : list float) (n : Z) : list float :=
  match linspace01 (n + 1) with
  | Ok quantiles => quantile x quantiles
  | Raise _ => []
  end.

(** The label [pd.qcut] gives a value of a series. *)
Definition series_label (x : list float) (n : Z) (v : float) : option Z :=
  let bins := qcut_edges x n in
  match bins with
  | b0 :: _ => cut_label bins b0 (range1 n) v
  | [] => None
  end.

(** The group label the cell gives a row: the label [pd.qcut] gives the
    row's signal among the signals of the row's date. *)
Definition port_of (temp : list obs) (n : Z) (r : obs) : option Z :=
  series_label (period_signals temp (date r)) n (signal r).

(** The rows of [temp] in one (date, port) group, and the row of [port]
    computed from them. *)
Definition group_rows (temp : list temp_row) (d : Timestamp) (g : Z) : list temp_row :=
  List.filter (in_group d g) temp.

Definition port_row_of (temp : list temp_row) (d : Timestamp) (g : Z) : port_row :=
  mkPort d g (Z.of_nat (length (group_rows temp d g)))
    (mean (map (fun r => ret (t_obs r)) (group_rows temp d g))).

Definition Zsum (l : list Z) : Z := foldr Z.add 0 l.

(** The entity counts of one date, added over the rows of [port]. *)
Definition nstock_total (port : list port_row) (d : Timestamp) : Z :=
  Zsum (map nstock (List.filter (fun r => ts_eqb (p_date r) d) port)).

(** The number of observations of one date whose signal is not missing. *)
Definition non_missing_count (temp : list obs) (d : Timestamp) : Z :=
  Z.of_nat (length (List.filter (fun r => ts_eqb (date r) d && negb (isna (signal r))) temp)).

(** The average signal of the entities of one (date, port) group. *)
Definition avg_signal (temp : list temp_row) (d : Timestamp) (g : Z) : float :=
  mean (map (fun r => signal (t_obs r)) (group_rows temp d g)).

(** The test [_bins_to_cuts] makes before it raises "Bin edges must be
    unique": some edge is dropped by [algos.unique]. *)
Definition edges_collide (x : list float) (n : Z) : bool :=
  (length (unique float_same (qcut_edges x n)) <? length (qcut_edges x n))%nat.

(** What a cell leaves in place: every object that existed keeps its value,
    [crsp_signals] still names the same object, and no name dangles. *)
Record cell_frame (nb nb' : notebook) : Prop := {
  frame_objects : forall l o, heap nb !! l = Some o -> heap nb' !! l = Some o;
  frame_crsp_signals : globals nb' !! "crsp_signals" = globals nb !! "crsp_signals";
  frame_names : forall name l, globals nb' !! name = Some l -> is_Some (heap nb' !! l)
}.

(** Sorted for a boolean order. *)
Definition leb_sorted {A} (leb : A -> A -> bool) : list A -> Prop :=
  StronglySorted (fun a b => leb a b = true).

(** Pairwise different for a boolean equality: what is left when
    [algos.unique] drops nothing. *)
Inductive all_different {A} (eqb : A -> A -> bool) : list A -> Prop :=
| all_different_nil : all_different eqb []
| all_different_cons x l :
    Forall (fun y => eqb x y = false) l -> all_different eqb l ->
    all_different eqb (x :: l).

(** The smallest and the largest of the non-missing values of a series. *)
Definition series_min (x : list float) : option Q := head (sort Qle_bool (dropna x)).
Definition series_max (x : list float) : option Q := last (sort Qle_bool (dropna x)).

(** What the cut needs from its edges: there are [n + 1] of them, the first
    is the smallest value, the last is the largest, and all lie between. *)
Record edges_span (n : Z) (lo hi : Q) (bins : list float) : Prop := {
  span_length : length bins = Z.to_nat (n + 1);
  span_first : exists b0, nth_error bins 0 = Some (Some b0) /\ (b0 == lo)%Q;
  span_last : exists bn, nth_error bins (Z.to_nat n) = Some (Some bn) /\ (bn == hi)%Q;
  span_between : forall e, In e bins -> exists b, e = Some b /\ (lo <= b <= hi)%Q
}.

(** The categories of [temp['port']] and the rows of [temp] after a run
    that raises nothing. *)
Definition cell_categories (temp : list obs) (n : Z) : list Z :=
  match temp with [] => [] | _ => range1 n end.

Definition cell_temp (temp : list obs) (n : Z) : list temp_row :=
  map (fun r => mkTemp r (port_of temp n r)) temp.

(** A signal row with the date the lag cell gives it. *)
Definition lagged (r : signals_row) : signals_lag_row :=
  mkSignalsLag (sg_permno r) (yyyymm r) (sg_BM r) (sg_AssetGrowth r)
    (the_28th (month_after (yyyymm r))).

(** A return row moved to the 28th of its month. *)
Definition on_28th (r : crsp_row) : crsp_row :=
  mkCrsp (c_permno r) (mkTimestamp (year (c_date r)) (month (c_date r)) 28) (c_ret r).

(** ** The other cells *)

(** A [yyyymm] of five digits that the lag cell does not reject: four
    digits of a year between 1678 and 2261 and one digit that is not 0. *)
Definition short_period (p : Z) : Prop := 16780 <= p <= 22619 /\ 1 <= p mod 10.

(** The date the lag cell gives a period: the 28th of the month after it;
    for a short period, whose text with "28" has seven digits, the pattern
    reads "1" and "28" as December the 8th and any other digit as the month,
    with the day 28, and the month is added to that. *)
Definition lag_date (p : Z) : Timestamp :=
  if 100000 <=? p then the_28th (month_after p)
  else if p mod 10 =? 1 then mkTimestamp (p / 10 + 1) 1 8
  else mkTimestamp (p / 10) (p mod 10 + 1) 28.

Definition lagged_at (r : signals_row) : signals_lag_row :=
  mkSignalsLag (sg_permno r) (yyyymm r) (sg_BM r) (sg_AssetGrowth r) (lag_date (yyyymm r)).

(** The month before a [yyyymm] period. *)
Definition month_before (p : Z) : Z :=
  if p mod 100 =? 1 then (p / 100 - 1) * 100 + 12 else p - 1.

(** The query of the download cell on the rows of [crsp.msf]:
    [select permno, date, ret*100 as ret from crsp.msf where
    date>='01/01/1980' and date<='12/31/1989'].  A missing return stays
    missing.  The rows come in the order of the table. *)
Definition download_crsp (msf : list crsp_row) : list crsp_row :=
  map (fun r => mkCrsp (c_permno r) (c_date r)
                  (match c_ret r with Some x => Some (x * 100)%Q | None => None end))
    (List.filter (fun r => ts_leb (mkTimestamp 1980 1 1) (c_date r)
                           && ts_leb (c_date r) (mkTimestamp 1989 12 31)) msf).

(** The keys of the join. *)
Definition lag_key (l : signals_lag_row) : Z * Timestamp := (sl_permno l, sl_date l).
Definition signal_key (r : signals_row) : Z * Z := (sg_permno r, yyyymm r).

(** The columns of [crsp] in a row of [crsp_signals]. *)
Definition return_columns (x : crsp_signals_row) : crsp_row :=
  mkCrsp (cs_permno x) (cs_date x) (cs_ret x).

(** A row of the comparison of the last cell: the keys, the signals of
    [signals] (suffix [_x]) and those of [signals_signed] (suffix [_y]). *)
Record compare_row : Type := mkCompare {
  cmp_permno : Z;
  cmp_yyyymm : Z;
  BM_x : float;
  AssetGrowth_x : float;
  BM_y : float;
  AssetGrowth_y : float
}.

(** Two rows are duplicates for [subset=signal_list] when their [BM] agree
    and their [AssetGrowth] agree; two missing values agree. *)
Definition same_signals (a b : signals_row) : bool :=
  float_same (sg_BM a) (sg_BM b) && float_same (sg_AssetGrowth a) (sg_AssetGrowth b).

(** [df.drop_duplicates(subset=signal_list)]: the first row of every pair
    of signal values, in the order of the frame. *)
Definition drop_duplicates (df : list signals_row) : list signals_row :=
  unique same_signals df.

(** [pd.merge(left, right, on=['permno', 'yyyymm'])], an inner join: the
    rows of [left] that have a row of [right] with the same keys, in the
    order of [left], once per such row of [right]. *)
Definition merge_inner (left right : list signals_row) : list compare_row :=
  flat_map (fun l =>
    map (fun r => mkCompare (sg_permno l) (yyyymm l) (sg_BM l) (sg_AssetGrowth l)
                    (sg_BM r) (sg_AssetGrowth r))
      (List.filter (fun r => (sg_permno r =? sg_permno l) && (yyyymm r =? yyyymm l)) right))
    left.

(** The last cell: [pd.merge(signals[signals['permno']==10001]
    .drop_duplicates(subset=signal_list), signals_signed,
    on=['permno', 'yyyymm']).head()]. *)
Definition compare_signed (signals signals_signed : list signals_row) : list compare_row :=
  firstn 5
    (merge_inner
       (drop_duplicates (List.filter (fun r => sg_permno r =? 10001) signals))
       signals_signed).

(** The same pair of unsigned signal values in two rows of the comparison. *)
Definition same_unsigned (a b : compare_row) : bool :=
  float_same (BM_x a) (BM_x b) && float_same (AssetGrowth_x a) (AssetGrowth_x b).

(** The object a name stands for. *)
Definition value_of (nb : notebook) (name : string) : option pyobj :=
  match globals nb !! name with
  | Some l => heap nb !! l
  | None => None
  end.

(** * Properties *)

Example qcut_1_10 :
  qcut (map Q_of (Zseq 1 10)) 5 (range1 5)
  = Ok (map Some [1; 1; 2; 2; 3; 3; 4; 4; 5; 5]).
Proof. vm_compute. reflexivity. Qed.


(** ** The error monad *)

Lemma bind_Ok {A B} (r : result A) (k : A -> result B) (b : B) :
  bind r k = Ok b -> exists a, r = Ok a /\ k a = Ok b.
Proof. destruct r as [a|e]; simpl; [eauto | discriminate]. Qed.

Lemma mapM_Ok {A B} (f : A -> result B) (l : list A) (bs : list B) :
  mapM f l = Ok bs -> Forall2 (fun a b => f a = Ok b) l bs.
Proof.
  revert bs. induction l as [|a l IH]; simpl; intros bs H.
  - injection H as <-. constructor.
  - apply bind_Ok in H as (b & Hb & H).
    apply bind_Ok in H as (bs' & Hbs & H).
    injection H as <-. constructor; auto.
Qed.

Lemma mapM_total {A B} (f : A -> result B) (g : A -> B) (l : list A) :
  (forall a, In a l -> f a = Ok (g a)) -> mapM f l = Ok (map g l).
Proof.
  induction l as [|a l IH]; simpl; intros H; [reflexivity|].
  rewrite (H a) by auto. simpl. rewrite IH by auto. reflexivity.
Qed.

Lemma mapM_Raise {A B} (f : A -> result B) (e : error) (l : list A) :
  (forall a, In a l -> (exists b, f a = Ok b) \/ f a = Raise e) ->
  (exists a, In a l /\ f a = Raise e) ->
  mapM f l = Raise e.
Proof.
  induction l as [|a l IH]; simpl; intros Hall (a' & Hin & Ha').
  - contradiction.
  - destruct (Hall a (or_introl eq_refl)) as [(b & Hb)|Hb]; rewrite Hb; simpl; [|reflexivity].
    rewrite IH; [reflexivity | auto |].
    destruct Hin as [->|Hin]; [congruence | eauto].
Qed.

(** ** Sorting and first occurrences *)

Section SortingFacts.
Context {A : Type} (leb : A -> A -> bool).
Hypothesis leb_total : forall a b, leb a b = true \/ leb b a = true.
Hypothesis leb_trans : forall a b c, leb a b = true -> leb b c = true -> leb a c = true.

Lemma insert_sorted_perm (x : A) (l : list A) :
  Permutation (insert_sorted leb x l) (x :: l).
Proof.
  induction l as [|y l IH]; simpl; [reflexivity|].
  destruct (leb x y); [reflexivity|].
  rewrite IH. apply perm_swap.
Qed.

Lemma sort_perm (l : list A) : Permutation (sort leb l) l.
Proof.
  induction l as [|x l IH]; simpl; [reflexivity|].
  unfold sort in *. simpl. rewrite insert_sorted_perm. by constructor.
Qed.

Lemma sort_In (l : list A) (x : A) : In x (sort leb l) <-> In x l.
Proof.
  split; apply Permutation_in; [|symmetry]; apply sort_perm.
Qed.

Lemma sort_length (l : list A) : length (sort leb l) = length l.
Proof. apply Permutation_length, sort_perm. Qed.

Lemma insert_sorted_sorted (x : A) (l : list A) :
  leb_sorted leb l -> leb_sorted leb (insert_sorted leb x l).
Proof.
  induction 1 as [|y l Hl IH Hy]; simpl.
  - repeat constructor.
  - destruct (leb x y) eqn:E.
    + constructor; [by constructor|]. constructor; [exact E|].
      eapply List.Forall_impl; [|exact Hy]. simpl. eauto.
    + constructor; [exact IH|].
      assert (Hyx : leb y x = true) by (destruct (leb_total x y); congruence).
      apply List.Forall_forall. intros z Hz.
      apply (Permutation_in _ (insert_sorted_perm x l)) in Hz as [<-|Hz]; [exact Hyx|].
      rewrite List.Forall_forall in Hy. auto.
Qed.

Lemma sort_sorted (l : list A) : leb_sorted leb (sort leb l).
Proof.
  induction l as [|x l IH]; [constructor|].
  apply insert_sorted_sorted, IH.
Qed.

Lemma sorted_head_le (l : list A) (m x : A) :
  leb_sorted leb l -> head l = Some m -> In x l -> leb m x = true.
Proof.
  intros Hs Hm Hx. destruct Hs as [|y l Hl Hy]; [discriminate|].
  injection Hm as <-. destruct Hx as [<-|Hx].
  - destruct (leb_total y y); assumption.
  - rewrite List.Forall_forall in Hy. auto.
Qed.

Lemma last_In (l : list A) (m : A) : last l = Some m -> In m l.
Proof.
  induction l as [|y [|z l] IH]; [discriminate | |].
  - intros [= <-]. by left.
  - intros H. right. apply IH. exact H.
Qed.

Lemma sorted_last_ge (l : list A) (m x : A) :
  leb_sorted leb l -> last l = Some m -> In x l -> leb x m = true.
Proof.
  induction 1 as [|y l Hl IH Hy]; [discriminate|].
  intros Hm Hx. destruct l as [|z l].
  - injection Hm as <-. destruct Hx as [<-|[]].
    destruct (leb_total y y); assumption.
  - change (last (z :: l) = Some m) in Hm.
    destruct Hx as [<-|Hx]; [|auto].
    rewrite List.Forall_forall in Hy. apply Hy, last_In, Hm.
Qed.

Lemma head_In (l : list A) (m : A) : head l = Some m -> In m l.
Proof. destruct l; [discriminate|]. intros [= <-]. by left. Qed.
End SortingFacts.

Section UniqueFacts.
Context {A : Type} (eqb : A -> A -> bool).

Lemma unique_length_le (l : list A) : (length (unique eqb l) <= length l)%nat.
Proof.
  induction l as [|x l IH]; simpl; [lia|].
  pose proof (filter_length_le (fun y => negb (eqb x y)) (unique eqb l)). lia.
Qed.

Lemma filter_full (f : A -> bool) (l : list A) :
  length (List.filter f l) = length l -> Forall (fun y => f y = true) l.
Proof.
  induction l as [|y l IH]; simpl; [constructor|].
  pose proof (filter_length_le f l) as Hle.
  destruct (f y) eqn:E; simpl; intros H; [|lia].
  constructor; [exact E | apply IH; lia].
Qed.

Lemma unique_full (l : list A) :
  length (unique eqb l) = length l -> unique eqb l = l /\ all_different eqb l.
Proof.
  induction l as [|x l IH]; simpl; [split; [reflexivity | constructor]|].
  intros H.
  pose proof (filter_length_le (fun y => negb (eqb x y)) (unique eqb l)) as Hle.
  pose proof (unique_length_le l) as Hle'.
  destruct IH as [IH1 IH2]; [lia|].
  assert (HF : Forall (fun y => negb (eqb x y) = true) (unique eqb l))
    by (apply filter_full; lia).
  rewrite IH1 in HF |- *.
  split.
  - f_equal. apply forallb_filter_id.
    apply forallb_forall. rewrite List.Forall_forall in HF. exact HF.
  - constructor; [|exact IH2].
    eapply List.Forall_impl; [|exact HF]. simpl. intros y. by destruct (eqb x y).
Qed.

Lemma all_different_unique (l : list A) :
  all_different eqb l -> unique eqb l = l.
Proof.
  induction 1 as [|x l Hx Hl IH]; simpl; [reflexivity|].
  rewrite IH. f_equal. apply forallb_filter_id, forallb_forall.
  rewrite List.Forall_forall in Hx. intros y Hy. by rewrite Hx.
Qed.

Lemma all_different_lookup (l : list A) (i j : nat) (a b : A) :
  all_different eqb l -> (i < j)%nat ->
  nth_error l i = Some a -> nth_error l j = Some b -> eqb a b = false.
Proof.
  intros Hl. revert i j. induction Hl as [|x l Hx Hl IH]; intros i j Hij Hi Hj.
  - destruct i; discriminate.
  - destruct j as [|j]; [lia|]. simpl in Hj. destruct i as [|i]; simpl in Hi.
    + injection Hi as <-. rewrite List.Forall_forall in Hx.
      apply Hx. eapply nth_error_In; eauto.
    + apply (IH i j); [lia | assumption..].
Qed.
End UniqueFacts.

(** ** Rationals and timestamps as ordered keys *)

Lemma Qle_bool_total (a b : Q) : Qle_bool a b = true \/ Qle_bool b a = true.
Proof.
  rewrite !Qle_bool_iff. destruct (Qlt_le_dec a b) as [H|H]; [left | right]; lra.
Qed.

Lemma Qle_bool_trans (a b c : Q) :
  Qle_bool a b = true -> Qle_bool b c = true -> Qle_bool a c = true.
Proof. rewrite !Qle_bool_iff. lra. Qed.

Lemma ts_eqb_eq (a b : Timestamp) : ts_eqb a b = true <-> a = b.
Proof.
  destruct a as [y1 m1 d1], b as [y2 m2 d2]. unfold ts_eqb. simpl.
  rewrite !andb_true_iff, !Z.eqb_eq. split.
  - intros [[-> ->] ->]. reflexivity.
  - intros [= -> -> ->]. auto.
Qed.

Lemma ts_eqb_refl (a : Timestamp) : ts_eqb a a = true.
Proof. by apply ts_eqb_eq. Qed.

Lemma ts_eqb_neq (a b : Timestamp) : ts_eqb a b = false <-> a <> b.
Proof.
  rewrite <- ts_eqb_eq. destruct (ts_eqb a b); split; congruence.
Qed.

Lemma ts_leb_total (a b : Timestamp) : ts_leb a b = true \/ ts_leb b a = true.
Proof.
  destruct a as [y1 m1 d1], b as [y2 m2 d2]. unfold ts_leb. simpl.
  rewrite !orb_true_iff, !andb_true_iff, !orb_true_iff, !andb_true_iff,
    !Z.ltb_lt, !Z.eqb_eq, !Z.leb_le. lia.
Qed.

Lemma ts_leb_trans (a b c : Timestamp) :
  ts_leb a b = true -> ts_leb b c = true -> ts_leb a c = true.
Proof.
  destruct a as [y1 m1 d1], b as [y2 m2 d2], c as [y3 m3 d3]. unfold ts_leb. simpl.
  rewrite !orb_true_iff, !andb_true_iff, !orb_true_iff, !andb_true_iff,
    !Z.ltb_lt, !Z.eqb_eq, !Z.leb_le. lia.
Qed.

Lemma ts_leb_antisym (a b : Timestamp) :
  ts_leb a b = true -> ts_leb b a = true -> a = b.
Proof.
  destruct a as [y1 m1 d1], b as [y2 m2 d2]. unfold ts_leb. simpl.
  rewrite !orb_true_iff, !andb_true_iff, !orb_true_iff, !andb_true_iff,
    !Z.ltb_lt, !Z.eqb_eq, !Z.leb_le. intros H1 H2.
  assert (y1 = y2 /\ m1 = m2 /\ d1 = d2) as (-> & -> & ->) by lia. reflexivity.
Qed.

(** ** Quantile edges *)

Lemma nth_head_In {A} (k : nat) (a0 : A) (l : list A) :
  In (nth k (a0 :: l) a0) (a0 :: l).
Proof.
  destruct (Nat.lt_ge_cases k (length (a0 :: l))) as [H|H].
  - by apply nth_In.
  - rewrite nth_overflow by exact H. by left.
Qed.

Lemma lerp_bounds (a b t lo hi : Q) :
  (lo <= a <= hi)%Q -> (lo <= b <= hi)%Q -> (0 <= t <= 1)%Q ->
  (lo <= lerp a b t <= hi)%Q.
Proof.
  intros Ha Hb Ht. unfold lerp.
  assert (E : (a + (b - a) * t == a * (1 - t) + b * t)%Q) by ring.
  rewrite E. split.
  - assert (lo * (1 - t) <= a * (1 - t))%Q by (apply Qmult_le_compat_r; lra).
    assert (lo * t <= b * t)%Q by (apply Qmult_le_compat_r; lra).
    lra.
  - assert (a * (1 - t) <= hi * (1 - t))%Q by (apply Qmult_le_compat_r; lra).
    assert (b * t <= hi * t)%Q by (apply Qmult_le_compat_r; lra).
    lra.
Qed.

Lemma floor_frac (x : Q) : (0 <= x - inject_Z (Qfloor x) <= 1)%Q.
Proof.
  pose proof (Qfloor_le x). pose proof (Qlt_floor x) as Hlt.
  rewrite inject_Z_plus in Hlt. change (inject_Z 1) with 1%Q in Hlt. lra.
Qed.

(** Every edge lies between the bounds of the values. *)
Lemma quantile_sorted_bounds (arr : list Q) (q lo hi : Q) :
  arr <> [] -> (forall v, In v arr -> (lo <= v <= hi)%Q) ->
  exists b, quantile_sorted arr q = Some b /\ (lo <= b <= hi)%Q.
Proof.
  intros Hne Hb. destruct arr as [|a0 l]; [congruence|].
  eexists. split; [reflexivity|].
  apply lerp_bounds; [apply Hb, nth_head_In .. | apply floor_frac].
Qed.

(** The edge at 0 is the first of the sorted values. *)
Lemma quantile_sorted_0 (a0 : Q) (l : list Q) (q : Q) :
  (q == 0)%Q -> exists b, quantile_sorted (a0 :: l) q = Some b /\ (b == a0)%Q.
Proof.
  intros Hq. eexists. split; [reflexivity|]. cbv zeta.
  remember (Z.of_nat (length (a0 :: l)) - 1) as n1 eqn:En1.
  assert (Hv : (inject_Z n1 * q == 0)%Q) by (rewrite Hq; ring).
  rewrite (Qfloor_comp _ _ Hv). change (Qfloor 0) with 0.
  change (nth (Z.to_nat 0) (a0 :: l) a0) with a0.
  generalize (nth (Z.to_nat (Z.min (0 + 1) n1)) (a0 :: l) a0). intros b.
  unfold lerp. rewrite Hv. change (inject_Z 0) with 0%Q. ring.
Qed.

(** The edge at 1 is the last of the sorted values. *)
Lemma quantile_sorted_1 (arr : list Q) (q m : Q) :
  (q == 1)%Q -> last arr = Some m ->
  exists b, quantile_sorted arr q = Some b /\ (b == m)%Q.
Proof.
  intros Hq Hm. destruct arr as [|a0 l]; [discriminate|].
  eexists. split; [reflexivity|]. cbv zeta.
  remember (Z.of_nat (length (a0 :: l)) - 1) as n1 eqn:En1.
  assert (Hv : (inject_Z n1 * q == inject_Z n1)%Q) by (rewrite Hq; ring).
  rewrite (Qfloor_comp _ _ Hv), Qfloor_Z.
  replace (Z.min (n1 + 1) n1) with n1 by lia.
  assert (Hn : nth (Z.to_nat n1) (a0 :: l) a0 = m).
  { subst n1. replace (Z.to_nat (Z.of_nat (length (a0 :: l)) - 1))
      with (pred (length (a0 :: l))) by (simpl; lia).
    rewrite last_lookup in Hm. by apply nth_lookup_Some with (d := a0) in Hm. }
  rewrite Hn. unfold lerp. rewrite Hv. ring.
Qed.

(** ** Ranges *)

Lemma Zseq_length (s len : Z) : length (Zseq s len) = Z.to_nat len.
Proof. unfold Zseq. by rewrite length_map, length_seq. Qed.

Lemma Zseq_nth (s len : Z) (i : nat) :
  (i < Z.to_nat len)%nat -> nth_error (Zseq s len) i = Some (s + Z.of_nat i).
Proof.
  intros Hi. unfold Zseq. rewrite nth_error_map.
  rewrite nth_error_seq. destruct (Nat.ltb_spec i (Z.to_nat len)); [reflexivity | lia].
Qed.

Lemma Zseq_In (s len z : Z) : In z (Zseq s len) <-> s <= z < s + len.
Proof.
  unfold Zseq. rewrite in_map_iff. split.
  - intros (i & <- & Hi). apply in_seq in Hi. lia.
  - intros H. exists (Z.to_nat (z - s)). split; [lia|]. apply in_seq. lia.
Qed.

Lemma Zseq_NoDup (s len : Z) : List.NoDup (Zseq s len).
Proof.
  unfold Zseq. apply Injective_map_NoDup; [|apply List.seq_NoDup].
  intros i j. lia.
Qed.

Lemma range1_In (n g : Z) : In g (range1 n) <-> 1 <= g <= n.
Proof. unfold range1. rewrite Zseq_In. lia. Qed.

Lemma range1_nth (n : Z) (i : nat) :
  (i < Z.to_nat n)%nat -> nth_error (range1 n) i = Some (1 + Z.of_nat i).
Proof. apply Zseq_nth. Qed.

(** ** Searching the edges *)

Lemma searchsorted_left_range (bins : list float) (x : float) :
  0 <= searchsorted_left bins x <= Z.of_nat (length bins).
Proof.
  induction bins as [|b bins IH]; simpl; [lia|].
  destruct (float_ltb b x); lia.
Qed.

(** An edge that is not below [x] stops the search. *)
Lemma searchsorted_left_le (bins : list float) (x b : float) (k : nat) :
  nth_error bins k = Some b -> float_ltb b x = false ->
  searchsorted_left bins x <= Z.of_nat k.
Proof.
  revert k. induction bins as [|b' bins IH]; intros k Hk Hb.
  - destruct k; discriminate.
  - simpl. destruct k as [|k]; simpl in Hk.
    + injection Hk as ->. rewrite Hb. lia.
    + destruct (float_ltb b' x); [|lia]. specialize (IH k Hk Hb). lia.
Qed.

(** The search passes every leading edge that is below [x]. *)
Lemma searchsorted_left_ge (bins : list float) (x : float) (k : nat) :
  (k <= length bins)%nat ->
  (forall i b, (i < k)%nat -> nth_error bins i = Some b -> float_ltb b x = true) ->
  Z.of_nat k <= searchsorted_left bins x.
Proof.
  revert k. induction bins as [|b' bins IH]; intros k Hk H; simpl in *.
  - lia.
  - destruct k as [|k]; [pose proof (searchsorted_left_range (b' :: bins) x); simpl in *; lia|].
    rewrite (H 0%nat b') by (simpl; first [lia | reflexivity]).
    assert (Z.of_nat k <= searchsorted_left bins x); [|lia].
    apply IH; [lia|]. intros i b Hi Hb. apply (H (S i) b); [lia | exact Hb].
Qed.

(** The edges the search has passed are below [x]; the one it stops at is
    not. *)
Lemma searchsorted_left_spec (bins : list float) (x : float) :
  (forall i b, Z.of_nat i < searchsorted_left bins x ->
     nth_error bins i = Some b -> float_ltb b x = true)
  /\ (forall b, nth_error bins (Z.to_nat (searchsorted_left bins x)) = Some b ->
        float_ltb b x = false).
Proof.
  induction bins as [|b' bins [IH1 IH2]]; simpl.
  - split; [intros i b; lia | intros b; discriminate].
  - pose proof (searchsorted_left_range bins x).
    destruct (float_ltb b' x) eqn:E; split.
    + intros [|i] b Hi Hb; simpl in Hb; [congruence|].
      apply (IH1 i b); [lia | exact Hb].
    + intros b. replace (Z.to_nat (1 + searchsorted_left bins x))
        with (S (Z.to_nat (searchsorted_left bins x))) by lia.
      simpl. apply IH2.
    + intros i b; lia.
    + simpl. intros b [= <-]. exact E.
Qed.

(** ** The edges of a quantile cut *)

Lemma dropna_In {A} (l : list (option A)) (v : A) : In v (dropna l) <-> In (Some v) l.
Proof.
  induction l as [|[a|] l IH]; simpl.
  - tauto.
  - change (dropna (Some a :: l)) with (a :: dropna l). simpl.
    rewrite IH. split; intros [H|H]; auto; left; congruence.
  - change (dropna (None :: l)) with (dropna l).
    rewrite IH. split; [auto | intros [H|H]; [discriminate | auto]].
Qed.

Lemma linspace01_pos (n : Z) :
  1 <= n ->
  linspace01 (n + 1) = Ok (map (fun k => Qmake k (Z.to_pos n)) (Zseq 0 (n + 1))).
Proof.
  intros Hn. unfold linspace01.
  destruct (Z.ltb_spec (n + 1) 0); [lia|].
  destruct (Z.eqb_spec (n + 1) 1); [lia|].
  by replace (n + 1 - 1) with n by lia.
Qed.

Lemma qcut_edges_pos (x : list float) (n : Z) :
  1 <= n ->
  qcut_edges x n
  = map (fun k => quantile_sorted (sort Qle_bool (dropna x)) (Qmake k (Z.to_pos n)))
      (Zseq 0 (n + 1)).
Proof.
  intros Hn. unfold qcut_edges. rewrite linspace01_pos by exact Hn.
  unfold quantile. by rewrite map_map.
Qed.

Lemma qcut_unfold (x : list float) (n : Z) (labels : list Z) :
  0 <= n -> qcut x n labels = bins_to_cuts x (qcut_edges x n) labels.
Proof.
  intros Hn. unfold qcut, qcut_edges, linspace01.
  destruct (Z.ltb_spec (n + 1) 0); [lia|].
  destruct (n + 1 =? 1); reflexivity.
Qed.

Lemma qcut_edges_length (x : list float) (n : Z) :
  0 <= n -> length (qcut_edges x n) = Z.to_nat (n + 1).
Proof.
  intros Hn. unfold qcut_edges, linspace01, quantile.
  destruct (Z.ltb_spec (n + 1) 0); [lia|].
  destruct (Z.eqb_spec (n + 1) 1) as [E|E].
  - rewrite E. reflexivity.
  - by rewrite !length_map, Zseq_length.
Qed.

Lemma series_min_max_Some (x : list float) (v : Q) :
  In (Some v) x -> exists lo hi, series_min x = Some lo /\ series_max x = Some hi.
Proof.
  intros Hv. apply dropna_In in Hv.
  apply (sort_In Qle_bool) in Hv.
  unfold series_min, series_max.
  destruct (sort Qle_bool (dropna x)) as [|a l] eqn:E; [destruct Hv|].
  exists a. destruct (last (a :: l)) as [hi|] eqn:El; [eauto|].
  apply last_None in El. discriminate.
Qed.

Lemma series_min_le (x : list float) (lo v : Q) :
  series_min x = Some lo -> In (Some v) x -> (lo <= v)%Q.
Proof.
  intros Hlo Hv. apply Qle_bool_iff.
  eapply sorted_head_le; [apply Qle_bool_total | | exact Hlo |].
  - apply sort_sorted; [apply Qle_bool_total | apply Qle_bool_trans].
  - by apply sort_In, dropna_In.
Qed.

Lemma series_max_ge (x : list float) (hi v : Q) :
  series_max x = Some hi -> In (Some v) x -> (v <= hi)%Q.
Proof.
  intros Hhi Hv. apply Qle_bool_iff.
  eapply sorted_last_ge; [apply Qle_bool_total | | exact Hhi |].
  - apply sort_sorted; [apply Qle_bool_total | apply Qle_bool_trans].
  - by apply sort_In, dropna_In.
Qed.

Lemma series_min_In (x : list float) (lo : Q) :
  series_min x = Some lo -> In (Some lo) x.
Proof. intros H. by apply dropna_In, (sort_In Qle_bool), head_In. Qed.

Lemma series_max_In (x : list float) (hi : Q) :
  series_max x = Some hi -> In (Some hi) x.
Proof. intros H. by apply dropna_In, (sort_In Qle_bool), last_In. Qed.

Lemma qcut_edges_span (x : list float) (n : Z) (lo hi : Q) :
  1 <= n -> series_min x = Some lo -> series_max x = Some hi ->
  edges_span n lo hi (qcut_edges x n).
Proof.
  intros Hn Hlo Hhi. unfold series_min, series_max in *.
  assert (Hne : sort Qle_bool (dropna x) <> []) by (intros E; rewrite E in Hlo; discriminate).
  assert (Hb : forall v, In v (sort Qle_bool (dropna x)) -> (lo <= v <= hi)%Q).
  { intros v Hv. apply sort_In, dropna_In in Hv.
    split; [eapply series_min_le | eapply series_max_ge]; eauto. }
  split.
  - apply qcut_edges_length. lia.
  - rewrite qcut_edges_pos by exact Hn. rewrite nth_error_map, Zseq_nth by lia. simpl.
    destruct (sort Qle_bool (dropna x)) as [|a0 l]; [congruence|].
    injection Hlo as ->.
    match goal with |- context [quantile_sorted _ ?q] =>
      destruct (quantile_sorted_0 lo l q) as (b & Hq & Hb0); [reflexivity|]
    end.
    rewrite Hq. eauto.
  - rewrite qcut_edges_pos by exact Hn. rewrite nth_error_map, Zseq_nth by lia. simpl.
    match goal with |- context [quantile_sorted _ ?q] =>
      destruct (quantile_sorted_1 (sort Qle_bool (dropna x)) q hi) as (b & Hq & Hb1);
        [|exact Hhi|]
    end.
    + unfold Qeq. simpl. rewrite Z2Pos.id by lia. lia.
    + rewrite Hq. eauto.
  - rewrite qcut_edges_pos by exact Hn. intros e He.
    apply in_map_iff in He as (k & <- & _).
    by apply quantile_sorted_bounds.
Qed.

(** ** The edges are in order *)

Lemma sorted_nth (arr : list Q) (a0 : Q) (i j : nat) :
  leb_sorted Qle_bool arr -> (i <= j < length arr)%nat ->
  (nth i arr a0 <= nth j arr a0)%Q.
Proof.
  intros Hs. revert i j. induction Hs as [|a l Hl IH Ha]; intros i j Hij; simpl in *; [lia|].
  destruct j as [|j].
  - replace i with 0%nat by lia. lra.
  - destruct i as [|i].
    + apply Qle_bool_iff. rewrite List.Forall_forall in Ha. apply Ha, nth_In. lia.
    + apply IH. lia.
Qed.

(** The edges grow with the quantile. *)
Lemma quantile_sorted_mono (arr : list Q) (q q' b b' : Q) :
  leb_sorted Qle_bool arr -> (0 <= q)%Q -> (q <= q')%Q -> (q' <= 1)%Q ->
  quantile_sorted arr q = Some b -> quantile_sorted arr q' = Some b' ->
  (b <= b')%Q.
Proof.
  intros Hs H0 Hq H1. destruct arr as [|a0 l]; [discriminate|].
  unfold quantile_sorted. cbv zeta.
  remember (Z.of_nat (length (a0 :: l)) - 1) as L eqn:EL.
  assert (HL : 0 <= L) by (subst L; simpl; lia).
  assert (HLq : (0 <= inject_Z L)%Q) by (change 0%Q with (inject_Z 0); by rewrite <- Zle_Qle).
  set (v := (inject_Z L * q)%Q). set (v' := (inject_Z L * q')%Q).
  assert (Hv0 : (0 <= v)%Q) by (unfold v; apply Qmult_le_0_compat; assumption).
  assert (Hvv : (v <= v')%Q).
  { unfold v, v'. rewrite !(Qmult_comm (inject_Z L)). by apply Qmult_le_compat_r. }
  assert (Hv1 : (v' <= inject_Z L)%Q).
  { unfold v'. rewrite <- (Qmult_1_r (inject_Z L)) at 2.
    rewrite !(Qmult_comm (inject_Z L)). by apply Qmult_le_compat_r. }
  assert (Hf0 : 0 <= Qfloor v) by (change 0 with (Qfloor 0); by apply Qfloor_resp_le).
  assert (Hff : Qfloor v <= Qfloor v') by by apply Qfloor_resp_le.
  assert (Hf1 : Qfloor v' <= L) by (rewrite <- (Qfloor_Z L); by apply Qfloor_resp_le).
  pose proof (floor_frac v) as Hg. pose proof (floor_frac v') as Hg'.
  set (a := nth (Z.to_nat (Qfloor v)) (a0 :: l) a0).
  set (c := nth (Z.to_nat (Z.min (Qfloor v + 1) L)) (a0 :: l) a0).
  set (a' := nth (Z.to_nat (Qfloor v')) (a0 :: l) a0).
  set (c' := nth (Z.to_nat (Z.min (Qfloor v' + 1) L)) (a0 :: l) a0).
  assert (Hlen : Z.of_nat (length (a0 :: l)) = L + 1) by lia.
  assert (Hac : (a <= c)%Q) by (apply sorted_nth; [exact Hs | lia]).
  assert (Hac' : (a' <= c')%Q) by (apply sorted_nth; [exact Hs | lia]).
  intros Hb Hb'.
  replace b with (lerp a c (v - inject_Z (Qfloor v))) by congruence.
  replace b' with (lerp a' c' (v' - inject_Z (Qfloor v'))) by congruence.
  clear Hb Hb'.
  destruct (Z.eq_dec (Qfloor v) (Qfloor v')) as [E|E].
  - assert (a' = a) as -> by (unfold a, a'; by rewrite E).
    assert (c' = c) as -> by (unfold c, c'; by rewrite E).
    unfold lerp. rewrite <- E.
    assert ((c - a) * (v - inject_Z (Qfloor v)) <= (c - a) * (v' - inject_Z (Qfloor v)))%Q.
    { rewrite !(Qmult_comm (c - a)). apply Qmult_le_compat_r; lra. }
    lra.
  - assert (Hca' : (c <= a')%Q) by (apply sorted_nth; [exact Hs | lia]).
    pose proof (lerp_bounds a c (v - inject_Z (Qfloor v)) a c ltac:(lra) ltac:(lra) Hg).
    pose proof (lerp_bounds a' c' (v' - inject_Z (Qfloor v')) a' c' ltac:(lra) ltac:(lra) Hg').
    lra.
Qed.

(** The edges of a quantile cut are in increasing order: the leftmost
    insertion point is what a binary search of them returns. *)
Lemma qcut_edges_sorted (x : list float) (n : Z) (i j : nat) (bi bj : Q) :
  1 <= n -> (i <= j)%nat ->
  nth_error (qcut_edges x n) i = Some (Some bi) ->
  nth_error (qcut_edges x n) j = Some (Some bj) ->
  (bi <= bj)%Q.
Proof.
  intros Hn Hij. rewrite qcut_edges_pos by exact Hn. rewrite !nth_error_map.
  pose proof (qcut_edges_length x n ltac:(lia)) as Hlen.
  destruct (nth_error (Zseq 0 (n + 1)) i) as [ki|] eqn:Ei; [|discriminate].
  destruct (nth_error (Zseq 0 (n + 1)) j) as [kj|] eqn:Ej; [|discriminate].
  assert (Hi : (i < Z.to_nat (n + 1))%nat)
    by (rewrite <- (Zseq_length 0); apply nth_error_Some; congruence).
  assert (Hj : (j < Z.to_nat (n + 1))%nat)
    by (rewrite <- (Zseq_length 0); apply nth_error_Some; congruence).
  rewrite Zseq_nth in Ei, Ej by assumption. injection Ei as <-. injection Ej as <-.
  simpl. intros [= Hbi] [= Hbj].
  eapply quantile_sorted_mono; [| | | | exact Hbi | exact Hbj].
  - apply sort_sorted; [apply Qle_bool_total | apply Qle_bool_trans].
  - unfold Qle. simpl. lia.
  - unfold Qle. simpl. rewrite !Z2Pos.id by lia. nia.
  - unfold Qle. simpl. rewrite !Z2Pos.id by lia. lia.
Qed.

(** ** Labels *)

Lemma cut_label_na (bins : list float) (b0 : float) (labels : list Z) :
  cut_label bins b0 labels None = None.
Proof. reflexivity. Qed.

Section Labels.
Context (n : Z) (lo hi : Q) (bins : list float) (b0 : float).
Hypothesis n_pos : 1 <= n.
Hypothesis span : edges_span n lo hi bins.
Hypothesis bins_head : head bins = Some b0.

Lemma span_head : exists q0, b0 = Some q0 /\ (q0 == lo)%Q.
Proof.
  destruct (span_first _ _ _ _ span) as (q0 & H0 & Hq0).
  destruct bins as [|b bins']; [discriminate|]. simpl in *.
  exists q0. split; congruence.
Qed.

(** A value between the smallest and the largest gets a code in
    [1..n]. *)
Lemma cut_id_range (v : Q) :
  (lo <= v <= hi)%Q -> 1 <= cut_id bins b0 (Some v) <= n.
Proof.
  intros Hv. unfold cut_id.
  destruct span_head as (q0 & -> & Hq0).
  destruct (float_eqb (Some v) (Some q0)) eqn:E; [lia|].
  destruct (span_last _ _ _ _ span) as (bn & Hn & Hbn).
  split.
  - destruct (Z.eq_dec (searchsorted_left bins (Some v)) 0) as [E0|E0];
      [|pose proof (searchsorted_left_range bins (Some v)); lia].
    exfalso.
    destruct (searchsorted_left_spec bins (Some v)) as [_ H2].
    rewrite E0 in H2.
    destruct (span_first _ _ _ _ span) as (q0' & H0 & Hq0').
    specialize (H2 _ H0). simpl in H2.
    apply negb_false_iff, Qle_bool_iff in H2.
    assert (q0' = q0) as ->.
    { destruct bins; [discriminate|]. simpl in *. congruence. }
    simpl in E. apply not_true_iff_false in E. apply E, Qeq_bool_iff. lra.
  - assert (searchsorted_left bins (Some v) <= Z.of_nat (Z.to_nat n)); [|lia].
    eapply searchsorted_left_le; [exact Hn|].
    simpl. apply negb_false_iff, Qle_bool_iff. lra.
Qed.

(** ... and its label is that code. *)
Lemma cut_label_id (v : Q) :
  (lo <= v <= hi)%Q ->
  cut_label bins b0 (range1 n) (Some v) = Some (cut_id bins b0 (Some v)).
Proof.
  intros Hv. pose proof (cut_id_range v Hv) as Hid. unfold cut_label.
  rewrite (span_length _ _ _ _ span). simpl isna. simpl orb.
  destruct (Z.eqb_spec (cut_id bins b0 (Some v)) (Z.of_nat (Z.to_nat (n + 1)))); [lia|].
  destruct (Z.eqb_spec (cut_id bins b0 (Some v)) 0); [lia|].
  simpl. rewrite range1_nth by lia. f_equal. lia.
Qed.

Lemma cut_label_range (v : Q) :
  (lo <= v <= hi)%Q ->
  exists g, cut_label bins b0 (range1 n) (Some v) = Some g /\ 1 <= g <= n.
Proof.
  intros Hv. rewrite cut_label_id by exact Hv. eauto using cut_id_range.
Qed.

(** The smallest value goes to the first group. *)
Lemma cut_label_lo : cut_label bins b0 (range1 n) (Some lo) = Some 1.
Proof.
  assert (Hlohi : (lo <= hi)%Q).
  { destruct (span_first _ _ _ _ span) as (q0 & H0 & Hq0).
    apply nth_error_In in H0.
    destruct (span_between _ _ _ _ span _ H0) as (b & [= <-] & Hb). lra. }
  rewrite cut_label_id by lra. f_equal. unfold cut_id.
  destruct span_head as (q0 & -> & Hq0). simpl.
  replace (Qeq_bool lo q0) with true; [reflexivity|].
  symmetry. apply Qeq_bool_iff. lra.
Qed.

(** Whatever is in the first group is not above whatever is in the last
    one, when there are at least two groups. *)
Lemma cut_label_first_last (v1 vn : Q) :
  2 <= n -> (lo <= v1 <= hi)%Q -> (lo <= vn <= hi)%Q ->
  cut_label bins b0 (range1 n) (Some v1) = Some 1 ->
  cut_label bins b0 (range1 n) (Some vn) = Some n ->
  (v1 <= vn)%Q.
Proof.
  intros Hn2 H1 Hn. rewrite !cut_label_id by assumption.
  intros [= E1] [= En]. unfold cut_id in *.
  destruct span_head as (q0 & -> & Hq0).
  destruct (float_eqb (Some vn) (Some q0)); [lia|].
  destruct (searchsorted_left_spec bins (Some vn)) as [Hbelow _].
  assert (exists b1, nth_error bins 1 = Some (Some b1)) as (b1 & Hb1).
  { destruct (nth_error bins 1) as [e|] eqn:E.
    - destruct (span_between _ _ _ _ span e) as (b & -> & _);
        [eapply nth_error_In; eauto | eauto].
    - apply nth_error_None in E. rewrite (span_length _ _ _ _ span) in E. lia. }
  specialize (Hbelow 1%nat _ ltac:(lia) Hb1). simpl in Hbelow.
  assert (Hlt : (b1 < vn)%Q).
  { apply Qnot_le_lt. intros Hle. apply Qle_bool_iff in Hle.
    rewrite Hle in Hbelow. discriminate. }
  destruct (float_eqb (Some v1) (Some q0)) eqn:Ev.
  - simpl in Ev. apply Qeq_bool_iff in Ev. lra.
  - destruct (searchsorted_left_spec bins (Some v1)) as [_ Hstop].
    rewrite E1 in Hstop. specialize (Hstop _ Hb1). simpl in Hstop.
    apply negb_false_iff, Qle_bool_iff in Hstop. lra.
Qed.

(** The largest value goes to the last group when no two edges are the
    same. *)
Lemma cut_label_hi :
  2 <= n -> all_different float_same bins ->
  cut_label bins b0 (range1 n) (Some hi) = Some n.
Proof.
  intros Hn2 Hdiff.
  assert (Hlohi : (lo <= hi)%Q).
  { destruct (span_first _ _ _ _ span) as (q0 & H0 & Hq0).
    apply nth_error_In in H0.
    destruct (span_between _ _ _ _ span _ H0) as (b & [= <-] & Hb). lra. }
  rewrite cut_label_id by lra. f_equal.
  pose proof (cut_id_range hi ltac:(lra)) as Hr.
  destruct (span_last _ _ _ _ span) as (bn & Hbn & Hbnhi).
  destruct (span_first _ _ _ _ span) as (q0' & H0 & Hq0').
  unfold cut_id in *.
  destruct span_head as (q0 & -> & Hq0).
  destruct (float_eqb (Some hi) (Some q0)) eqn:E.
  - exfalso. simpl in E. apply Qeq_bool_iff in E.
    pose proof (all_different_lookup float_same bins 0 (Z.to_nat n) _ _
                  Hdiff ltac:(lia) H0 Hbn) as Hd.
    simpl in Hd. apply not_true_iff_false in Hd. apply Hd, Qeq_bool_iff. lra.
  - assert (Z.of_nat (Z.to_nat n) <= searchsorted_left bins (Some hi)); [|lia].
    apply searchsorted_left_ge; [rewrite (span_length _ _ _ _ span); lia|].
    intros i e Hi He.
    destruct (span_between _ _ _ _ span e) as (b & -> & Hb);
      [eapply nth_error_In; eauto|].
    pose proof (all_different_lookup float_same bins i (Z.to_nat n) _ _
                  Hdiff Hi He Hbn) as Hd.
    simpl in Hd |- *. apply negb_true_iff, not_true_iff_false.
    intros Hle. apply Qle_bool_iff in Hle.
    apply not_true_iff_false in Hd. apply Hd, Qeq_bool_iff. lra.
Qed.
End Labels.

(** ** Group keys *)

Section KeyFacts.
Context {A : Type} (eqb : A -> A -> bool).
Hypothesis eqb_eq : forall a b, eqb a b = true <-> a = b.

Lemma unique_In (l : list A) (x : A) : In x (unique eqb l) <-> In x l.
Proof.
  induction l as [|y l IH]; simpl; [tauto|].
  rewrite filter_In, IH. split.
  - intros [H|[H _]]; auto.
  - intros [H|H]; [auto|].
    destruct (eqb y x) eqn:E; [left; by apply eqb_eq | right].
    split; [exact H | reflexivity].
Qed.

Lemma unique_NoDup (l : list A) : List.NoDup (unique eqb l).
Proof.
  induction l as [|y l IH]; simpl; constructor.
  - rewrite filter_In. intros [_ H]. cbv beta in H.
    assert (E : eqb y y = true) by by apply eqb_eq. by rewrite E in H.
  - by apply List.NoDup_filter.
Qed.
End KeyFacts.

Lemma group_keys_In (l : list Timestamp) (d : Timestamp) :
  In d (group_keys l) <-> In d l.
Proof. unfold group_keys. by rewrite sort_In, (unique_In _ ts_eqb_eq). Qed.

Lemma group_keys_NoDup (l : list Timestamp) : List.NoDup (group_keys l).
Proof.
  unfold group_keys.
  eapply Permutation_NoDup; [symmetry; apply sort_perm|].
  apply unique_NoDup, ts_eqb_eq.
Qed.

Lemma group_keys_nil (l : list Timestamp) : group_keys l = [] <-> l = [].
Proof.
  split; [|intros ->; reflexivity].
  intros H. destruct l as [|d l]; [reflexivity|].
  assert (Hd : In d (group_keys (d :: l))) by (apply group_keys_In; by left).
  rewrite H in Hd. destruct Hd.
Qed.

(** ** Rows and their index *)

Lemma indexed_from_In {A} (s : nat) (l : list A) (i : nat) (r : A) :
  In (i, r) (combine (seq s (length l)) l)
  <-> (s <= i)%nat /\ nth_error l (i - s) = Some r.
Proof.
  revert s. induction l as [|a l IH]; intros s; simpl.
  - split; [tauto | intros [_ H]; destruct (i - s)%nat; discriminate].
  - rewrite IH. split.
    + intros [[= <- <-]|[Hs H]].
      * split; [lia|]. by replace (s - s)%nat with 0%nat by lia.
      * split; [lia|]. by replace (i - s)%nat with (S (i - S s)) by lia.
    + intros [Hs H]. destruct (Nat.eq_dec i s) as [->|Hne].
      * left. replace (s - s)%nat with 0%nat in H by lia. simpl in H. congruence.
      * right. split; [lia|].
        replace (i - s)%nat with (S (i - S s)) in H by lia. exact H.
Qed.

Lemma indexed_In {A} (l : list A) (i : nat) (r : A) :
  In (i, r) (indexed l) <-> nth_error l i = Some r.
Proof.
  unfold indexed. rewrite indexed_from_In.
  replace (i - 0)%nat with i by lia. split; [tauto | split; [lia | assumption]].
Qed.

Lemma filter_combine_snd {A B} (P : B -> bool) (l1 : list A) (l2 : list B) :
  length l1 = length l2 ->
  map snd (List.filter (fun ab => P (snd ab)) (combine l1 l2)) = List.filter P l2.
Proof.
  revert l1. induction l2 as [|b l2 IH]; intros [|a l1] H; simpl in *; try lia; [reflexivity|].
  destruct (P b); simpl; rewrite IH by lia; reflexivity.
Qed.

Lemma get_group_signals (temp : list obs) (d : Timestamp) :
  map (fun ir => signal (snd ir)) (get_group d (indexed temp)) = period_signals temp d.
Proof.
  unfold period_signals, get_group, indexed.
  rewrite <- (filter_combine_snd (fun r => ts_eqb (date r) d) (seq 0 (length temp)) temp)
    by apply length_seq.
  by rewrite map_map.
Qed.

Lemma get_group_In (temp : list obs) (d : Timestamp) (i : nat) (r : obs) :
  In (i, r) (get_group d (indexed temp)) <-> nth_error temp i = Some r /\ date r = d.
Proof.
  unfold get_group. rewrite filter_In, indexed_In. simpl. by rewrite ts_eqb_eq.
Qed.

Lemma combine_fst_map {A B C} (h : B -> C) (k : A -> B) (g : list (nat * A)) :
  combine (map fst g) (map h (map (fun ir => k (snd ir)) g))
  = map (fun ir => (fst ir, h (k (snd ir)))) g.
Proof. induction g as [|[i a] g IH]; simpl; [reflexivity | by rewrite IH]. Qed.

Lemma assoc_Some_In {B} (i : nat) (l : list (nat * B)) (b : B) :
  assoc i l = Some b -> In (i, b) l.
Proof.
  induction l as [|[j b'] l IH]; simpl; [discriminate|].
  destruct (Nat.eqb_spec i j) as [->|Hne]; [intros [= ->]; by left | auto].
Qed.

Lemma assoc_In_Some {B} (i : nat) (l : list (nat * B)) (b : B) :
  In (i, b) l -> exists b', assoc i l = Some b'.
Proof.
  induction l as [|[j b'] l IH]; simpl; [tauto|].
  destruct (Nat.eqb_spec i j) as [->|Hne]; [eauto|].
  intros [[= -> ->]|H]; [congruence | auto].
Qed.

Lemma assoc_map {B C} (h : nat * B -> C) (i : nat) (l : list (nat * B)) :
  assoc i (map (fun ir => (fst ir, h ir)) l)
  = match assoc i (map (fun ir => (fst ir, ir)) l) with
    | Some ir => Some (h ir)
    | None => None
    end.
Proof.
  induction l as [|[j b'] l IH]; simpl; [reflexivity|].
  destruct (Nat.eqb_spec i j); [reflexivity | exact IH].
Qed.

(** ** The port column *)

Lemma Forall2_In_l {A B} (R : A -> B -> Prop) (l : list A) (l' : list B) (a : A) :
  Forall2 R l l' -> In a l -> exists b, In b l' /\ R a b.
Proof.
  induction 1 as [|x y l l' Hxy _ IH]; simpl; [tauto|].
  intros [<-|Ha]; [eauto|]. destruct (IH Ha) as (b & ? & ?). eauto.
Qed.

Lemma Forall2_In_r {A B} (R : A -> B -> Prop) (l : list A) (l' : list B) (b : B) :
  Forall2 R l l' -> In b l' -> exists a, In a l /\ R a b.
Proof.
  induction 1 as [|x y l l' Hxy _ IH]; simpl; [tauto|].
  intros [<-|Hb]; [eauto|]. destruct (IH Hb) as (a & ? & ?). eauto.
Qed.

Lemma map_seq_ext {A B} (F : nat -> B) (G : A -> B) (l : list A) :
  (forall i r, nth_error l i = Some r -> F i = G r) ->
  map F (seq 0 (length l)) = map G l.
Proof.
  intros H. apply nth_error_ext. intros i.
  rewrite !nth_error_map, nth_error_seq.
  destruct (Nat.ltb_spec i (length l)) as [Hi|Hi].
  - destruct (nth_error l i) as [r|] eqn:E.
    + simpl. f_equal. by apply H.
    + apply nth_error_None in E. lia.
  - apply nth_error_None in Hi. by rewrite Hi.
Qed.

Lemma bins_to_cuts_Ok (x bins : list float) (labels : list Z) (res : list (option Z)) :
  bins_to_cuts x bins labels = Ok res ->
  exists b0, head bins = Some b0
    /\ res = map (cut_label bins b0 labels) x
    /\ (length bins = 2%nat \/ all_different float_same bins).
Proof.
  unfold bins_to_cuts.
  destruct ((length (unique float_same bins) <? length bins)%nat
            && negb (length bins =? 2)%nat) eqn:E; [discriminate|].
  destruct bins as [|b0 rest]; [discriminate|].
  destruct (negb (length labels =? length (b0 :: rest) - 1)%nat); [discriminate|].
  intros [= <-]. exists b0. split; [reflexivity|]. split; [reflexivity|].
  apply andb_false_iff in E as [E|E].
  - right. apply Nat.ltb_ge in E.
    pose proof (unique_length_le float_same (b0 :: rest)).
    apply unique_full. lia.
  - left. apply negb_false_iff, Nat.eqb_eq in E. exact E.
Qed.

(** The value [pd.qcut] returns on the series of one date, in terms of
    [port_of]. *)
Lemma qcut_group (temp : list obs) (n : Z) (d : Timestamp) (res : list (option Z)) :
  0 <= n ->
  qcut (map (fun ir => signal (snd ir)) (get_group d (indexed temp))) n (range1 n) = Ok res ->
  combine (map fst (get_group d (indexed temp))) res
  = map (fun ir => (fst ir, port_of temp n (snd ir))) (get_group d (indexed temp)).
Proof.
  intros Hn H. rewrite qcut_unfold in H by exact Hn.
  apply bins_to_cuts_Ok in H as (b0 & Hb0 & -> & _).
  rewrite combine_fst_map. apply map_ext_in. intros [i r] Hir.
  apply get_group_In in Hir as [_ Hd]. simpl. f_equal.
  unfold port_of, series_label. rewrite Hd, <- get_group_signals.
  destruct (qcut_edges _ n); [discriminate|]. simpl in Hb0. congruence.
Qed.

(** When no call raises, [temp['port']] holds [port_of] of each row, and it
    is categorical with categories [1..n] as soon as there is a row. *)
Lemma transform_qcut_Ok (temp : list obs) (n : Z) (c : categorical) :
  0 <= n -> transform_qcut temp n = Ok c ->
  values c = map (port_of temp n) temp
  /\ categories c = match temp with [] => [] | _ => range1 n end
  /\ forall d, In d (map date temp) ->
       exists res, qcut (period_signals temp d) n (range1 n) = Ok res.
Proof.
  intros Hn H. unfold transform_qcut in H.
  apply bind_Ok in H as (results & Hres & H). injection H as <-.
  apply mapM_Ok in Hres. simpl.
  assert (Hpieces : Forall2 (fun d b =>
            b = map (fun ir => (fst ir, port_of temp n (snd ir))) (get_group d (indexed temp))
            /\ exists res, qcut (period_signals temp d) n (range1 n) = Ok res)
          (group_keys (map date temp)) results).
  { eapply Forall2_impl; [exact Hres|]. cbv beta. intros d b Hb.
    unfold qcut_piece in Hb. apply bind_Ok in Hb as (res & Hq & [= <-]).
    split; [by apply qcut_group|]. rewrite <- get_group_signals. eauto. }
  split; [|split].
  - apply map_seq_ext. intros i r Hir.
    assert (Hin : exists p, In (i, p) (concat results)).
    { assert (Hd : In (date r) (group_keys (map date temp))).
      { apply group_keys_In, in_map. eapply nth_error_In; eauto. }
      destruct (Forall2_In_l _ _ _ _ Hpieces Hd) as (b & Hb & Hbb).
      cbv beta in Hbb. destruct Hbb as [-> _].
      exists (port_of temp n r). apply in_concat. eexists. split; [exact Hb|].
      apply in_map_iff. exists (i, r). split; [reflexivity|].
      by apply get_group_In. }
    destruct Hin as (p & Hp). apply assoc_In_Some in Hp as (p' & Hp').
    rewrite Hp'. simpl. apply assoc_Some_In, in_concat in Hp' as (b & Hb & Hp').
    destruct (Forall2_In_r _ _ _ _ Hpieces Hb) as (d & _ & Hbb).
    cbv beta in Hbb. destruct Hbb as [-> _].
    apply in_map_iff in Hp' as ([j r'] & [= -> <-] & Hr').
    apply get_group_In in Hr' as [Hr' _]. congruence.
  - destruct temp as [|r temp]; [by inversion Hpieces|].
    destruct results; [|reflexivity].
    assert (E : group_keys (map date (r :: temp)) = []) by (by inversion Hpieces).
    apply (proj1 (group_keys_nil _)) in E. discriminate E.
  - intros d Hd. apply group_keys_In in Hd.
    destruct (Forall2_In_l _ _ _ _ Hpieces Hd) as (b & _ & Hbb).
    cbv beta in Hbb. destruct Hbb as [_ Hq]. exact Hq.
Qed.

(** ** The cell as a whole *)

Lemma zip_with_map_r {A B C} (f : A -> B -> C) (g : A -> B) (l : list A) :
  zip_with f l (map g l) = map (fun a => f a (g a)) l.
Proof. induction l as [|a l IH]; simpl; [reflexivity | by rewrite IH]. Qed.

Lemma portfolio_sort_Ok (cs : list crsp_signals_row) (s : signal_name) (n : Z)
    (o : cell_output) :
  0 <= n -> portfolio_sort cs s n = Ok o ->
  let temp := select_columns s cs in
  let cats := cell_categories temp n in
  out_temp o = cell_temp temp n
  /\ out_port o = port_table cats (out_temp o)
  /\ out_summary o = port_summary cats (out_port o)
  /\ forall d, In d (map date temp) ->
       exists res, qcut (period_signals temp d) n (range1 n) = Ok res.
Proof.
  intros Hn H. unfold portfolio_sort in H.
  apply bind_Ok in H as (c & Hc & [= <-]).
  apply transform_qcut_Ok in Hc as (Hv & Hcat & Hq); [|exact Hn].
  cbn [out_temp out_port out_summary]. unfold cell_categories, cell_temp, set_port.
  rewrite Hv, Hcat, zip_with_map_r. auto.
Qed.

Lemma period_signals_In (temp : list obs) (r : obs) :
  In r temp -> In (signal r) (period_signals temp (date r)).
Proof.
  intros Hr. unfold period_signals. apply in_map, filter_In.
  split; [exact Hr | apply ts_eqb_refl].
Qed.

Lemma port_of_na (temp : list obs) (n : Z) (r : obs) :
  signal r = None -> port_of temp n r = None.
Proof.
  intros H. unfold port_of, series_label. rewrite H. by destruct (qcut_edges _ n).
Qed.

Lemma port_of_range (temp : list obs) (n : Z) (r : obs) (v : Q) :
  1 <= n -> In r temp -> signal r = Some v ->
  exists g, port_of temp n r = Some g /\ 1 <= g <= n.
Proof.
  intros Hn Hr Hv. pose proof (period_signals_In temp r Hr) as Hin.
  rewrite Hv in Hin.
  destruct (series_min_max_Some _ _ Hin) as (lo & hi & Hlo & Hhi).
  pose proof (qcut_edges_span _ n lo hi Hn Hlo Hhi) as Hspan.
  unfold port_of, series_label. rewrite Hv.
  destruct (qcut_edges (period_signals temp (date r)) n) as [|b0 rest] eqn:E.
  - pose proof (span_length _ _ _ _ Hspan). simpl in *. lia.
  - eapply cut_label_range; [exact Hn | exact Hspan | reflexivity |].
    split; [eapply series_min_le | eapply series_max_ge]; eauto.
Qed.

(** The labels in [temp]: one in [1..n] for a row with a signal value,
    none for a row without. *)
Lemma cell_temp_labels (temp : list obs) (n : Z) (r : temp_row) :
  1 <= n -> In r (cell_temp temp n) ->
  match signal (t_obs r) with
  | Some _ => exists g, port r = Some g /\ 1 <= g <= n
  | None => port r = None
  end.
Proof.
  intros Hn Hr. apply in_map_iff in Hr as (r0 & <- & Hr0). simpl.
  destruct (signal r0) as [v|] eqn:E.
  - eapply port_of_range; eauto.
  - by apply port_of_na.
Qed.

(** C4.  Whenever the cell runs through with [n >= 1] groups, [temp] has one
    row per observation, in the same order; the row of an observation with a
    signal value carries one label, between 1 and [n]; the row of an
    observation whose signal is missing carries none. *)
Theorem every_observation_one_group (cs : list crsp_signals_row) (s : signal_name)
    (n : Z) (o : cell_output) :
  1 <= n -> portfolio_sort cs s n = Ok o ->
  map t_obs (out_temp o) = select_columns s cs
  /\ forall r, In r (out_temp o) ->
       match signal (t_obs r) with
       | Some _ => exists g, port r = Some g /\ 1 <= g <= n
       | None => port r = None
       end.
Proof.
  intros Hn H. apply portfolio_sort_Ok in H as (Ht & _); [|lia].
  rewrite Ht. split.
  - unfold cell_temp. rewrite map_map. simpl. apply map_id.
  - intros r Hr. by apply (cell_temp_labels (select_columns s cs)).
Qed.

(** ** Counting *)

Lemma Zsum_app (l1 l2 : list Z) : Zsum (l1 ++ l2) = Zsum l1 + Zsum l2.
Proof. induction l1 as [|a l1 IH]; simpl; [reflexivity | rewrite IH; lia]. Qed.

Lemma Zsum_zero {A} (f : A -> Z) (l : list A) :
  (forall a, In a l -> f a = 0) -> Zsum (map f l) = 0.
Proof.
  induction l as [|a l IH]; simpl; intros H; [reflexivity|].
  rewrite (H a), IH by auto. reflexivity.
Qed.

Lemma Zsum_plus {A} (f g : A -> Z) (l : list A) :
  Zsum (map (fun a => f a + g a) l) = Zsum (map f l) + Zsum (map g l).
Proof. induction l as [|a l IH]; simpl; [reflexivity | rewrite IH; lia]. Qed.

Lemma Zsum_ext {A} (f g : A -> Z) (l : list A) :
  (forall a, In a l -> f a = g a) -> Zsum (map f l) = Zsum (map g l).
Proof. intros H. f_equal. by apply map_ext_in. Qed.

(** A key that occurs once in a list is counted once. *)
Lemma Zsum_indicator (p : Z) (cats : list Z) :
  List.NoDup cats ->
  Zsum (map (fun g => if p =? g then 1 else 0) cats)
  = if existsb (Z.eqb p) cats then 1 else 0.
Proof.
  induction 1 as [|g cats Hg Hnd IH]; simpl; [reflexivity|].
  destruct (Z.eqb_spec p g) as [->|Hne]; simpl; [|exact IH].
  rewrite Zsum_zero; [reflexivity|].
  intros g' Hg'. destruct (Z.eqb_spec g g'); congruence.
Qed.

(** The sizes of the groups add up to the number of rows that are in some
    group. *)
Lemma group_sizes_sum {A} (key : A -> option Z) (keep : A -> bool)
    (cats : list Z) (l : list A) :
  List.NoDup cats ->
  Zsum (map (fun g => Z.of_nat (length (List.filter
         (fun r => keep r && match key r with Some p => p =? g | None => false end) l))) cats)
  = Z.of_nat (length (List.filter
         (fun r => keep r && match key r with Some p => existsb (Z.eqb p) cats | None => false end) l)).
Proof.
  intros Hnd. induction l as [|r l IH]; simpl.
  - by apply Zsum_zero.
  - rewrite (Zsum_ext _ (fun g =>
      (if keep r && match key r with Some p => p =? g | None => false end then 1 else 0)
      + Z.of_nat (length (List.filter
         (fun r => keep r && match key r with Some p => p =? g | None => false end) l)))).
    + rewrite Zsum_plus, IH.
      destruct (keep r); simpl; [|by rewrite Zsum_zero].
      destruct (key r) as [p|]; [|by rewrite Zsum_zero].
      rewrite Zsum_indicator by exact Hnd.
      destruct (existsb (Z.eqb p) cats); simpl; lia.
    + intros g _. destruct (keep r && _); simpl; lia.
Qed.

(** ** The table per date and group *)

Lemma port_table_eq (cats : list Z) (temp : list temp_row) :
  port_table cats temp
  = flat_map (fun d => map (port_row_of temp d) cats)
      (group_keys (map (fun r => date (t_obs r)) temp)).
Proof. reflexivity. Qed.

Lemma filter_date_rows (temp : list temp_row) (cats : list Z) (d d' : Timestamp) :
  List.filter (fun r => ts_eqb (p_date r) d) (map (port_row_of temp d') cats)
  = if ts_eqb d' d then map (port_row_of temp d') cats else [].
Proof.
  destruct (ts_eqb d' d) eqn:E.
  - apply forallb_filter_id, forallb_forall. intros r Hr.
    apply in_map_iff in Hr as (g & <- & _). exact E.
  - induction cats as [|g cats IH]; simpl; [reflexivity|]. by rewrite E.
Qed.

Lemma filter_date_flat_map (temp : list temp_row) (cats : list Z) (d : Timestamp)
    (keys : list Timestamp) :
  List.NoDup keys ->
  List.filter (fun r => ts_eqb (p_date r) d)
    (flat_map (fun d' => map (port_row_of temp d') cats) keys)
  = if existsb (ts_eqb d) keys then map (port_row_of temp d) cats else [].
Proof.
  induction 1 as [|k keys Hk Hnd IH]; simpl; [reflexivity|].
  rewrite List.filter_app, filter_date_rows, IH.
  destruct (ts_eqb d k) eqn:E.
  - apply ts_eqb_eq in E as <-. rewrite ts_eqb_refl. simpl.
    replace (existsb (ts_eqb d) keys) with false; [by rewrite app_nil_r|].
    symmetry. apply not_true_iff_false. rewrite existsb_exists.
    intros (x & Hx & E). apply ts_eqb_eq in E as <-. contradiction.
  - replace (ts_eqb k d) with false; [reflexivity|].
    symmetry. apply ts_eqb_neq. apply ts_eqb_neq in E. congruence.
Qed.

(** The rows of [port] for one date: one per category, in order. *)
Lemma port_table_date (cats : list Z) (temp : list temp_row) (d : Timestamp) :
  List.filter (fun r => ts_eqb (p_date r) d) (port_table cats temp)
  = if existsb (ts_eqb d) (map (fun r => date (t_obs r)) temp)
    then map (port_row_of temp d) cats else [].
Proof.
  rewrite port_table_eq, filter_date_flat_map by apply group_keys_NoDup.
  replace (existsb (ts_eqb d) (group_keys (map (fun r => date (t_obs r)) temp)))
    with (existsb (ts_eqb d) (map (fun r => date (t_obs r)) temp)); [reflexivity|].
  apply eq_true_iff_eq. rewrite !existsb_exists.
  split; intros (x & Hx & E); exists x; (split; [|exact E]);
    by apply group_keys_In.
Qed.

Lemma existsb_range1 (n p : Z) : existsb (Z.eqb p) (range1 n) = (1 <=? p) && (p <=? n).
Proof.
  apply eq_true_iff_eq. rewrite existsb_exists, andb_true_iff, !Z.leb_le. split.
  - intros (g & Hg & E). apply Z.eqb_eq in E as <-. by apply range1_In.
  - intros H. exists p. split; [by apply range1_In | apply Z.eqb_refl].
Qed.

Lemma length_filter_map {A B} (P : B -> bool) (f : A -> B) (l : list A) :
  length (List.filter P (map f l)) = length (List.filter (fun a => P (f a)) l).
Proof.
  induction l as [|a l IH]; simpl; [reflexivity|].
  destruct (P (f a)); simpl; by rewrite IH.
Qed.

(** C5.  Whenever the cell runs through with [n >= 1] groups, the [nstock]
    values of the rows of [port] for a date add up to the number of
    observations of that date whose signal is not missing. *)
Theorem group_counts_sum_to_non_missing (cs : list crsp_signals_row)
    (s : signal_name) (n : Z) (o : cell_output) (d : Timestamp) :
  1 <= n -> portfolio_sort cs s n = Ok o ->
  nstock_total (out_port o) d = non_missing_count (select_columns s cs) d.
Proof.
  intros Hn H. apply portfolio_sort_Ok in H as (Ht & Hp & _); [|lia]. cbv zeta in *.
  set (temp := select_columns s cs) in *.
  unfold nstock_total, non_missing_count. rewrite Hp, port_table_date.
  destruct (existsb _ _) eqn:Hex.
  - rewrite map_map. cbn [nstock port_row_of]. unfold group_rows, in_group.
    assert (Hcats : cell_categories temp n = range1 n).
    { destruct temp; [|reflexivity]. rewrite Ht in Hex. discriminate. }
    rewrite Hcats.
    rewrite (group_sizes_sum port (fun r => ts_eqb (date (t_obs r)) d))
      by apply Zseq_NoDup.
    rewrite Ht. unfold cell_temp. rewrite length_filter_map. cbn [t_obs port].
    do 2 f_equal. apply filter_ext_in. intros r Hr.
    destruct (ts_eqb (date r) d); [simpl | reflexivity].
    destruct (signal r) as [v|] eqn:E.
    + destruct (port_of_range temp n r v Hn Hr E) as (g & -> & Hg).
      rewrite existsb_range1. simpl. apply andb_true_iff. rewrite !Z.leb_le. lia.
    + by rewrite port_of_na.
  - simpl. apply not_true_iff_false in Hex.
    destruct (List.filter _ temp) as [|r l] eqn:E; [reflexivity|].
    exfalso. apply Hex. apply existsb_exists.
    assert (Hr : In r (List.filter (fun r => ts_eqb (date r) d && negb (isna (signal r))) temp))
      by (rewrite E; by left).
    apply filter_In in Hr as [Hr Hd]. apply andb_true_iff in Hd as [Hd _].
    exists (date r). split.
    + rewrite Ht. unfold cell_temp. rewrite map_map. simpl. by apply in_map.
    + apply ts_eqb_eq in Hd as ->. apply ts_eqb_refl.
Qed.

(** ** When the cell raises *)

Lemma range1_length (n : Z) : length (range1 n) = Z.to_nat n.
Proof. apply Zseq_length. Qed.

(** With two groups or more, [pd.qcut] raises exactly when two edges
    collide. *)
Lemma qcut_ge2 (x : list float) (n : Z) :
  2 <= n ->
  qcut x n (range1 n)
  = if edges_collide x n then Raise ValueError_bin_edges
    else match qcut_edges x n with
         | b0 :: _ => Ok (map (cut_label (qcut_edges x n) b0 (range1 n)) x)
         | [] => Raise IndexError_bins
         end.
Proof.
  intros Hn. rewrite qcut_unfold by lia. unfold bins_to_cuts, edges_collide.
  pose proof (qcut_edges_length x n ltac:(lia)) as Hlen.
  replace (length (qcut_edges x n) =? 2)%nat with false
    by (symmetry; apply Nat.eqb_neq; lia).
  rewrite andb_true_r.
  destruct (length (unique float_same (qcut_edges x n)) <? length (qcut_edges x n))%nat;
    [reflexivity|].
  destruct (qcut_edges x n) as [|b0 rest] eqn:E; [reflexivity|].
  rewrite range1_length, Hlen.
  replace (Z.to_nat n =? Z.to_nat (n + 1) - 1)%nat with true
    by (symmetry; apply Nat.eqb_eq; lia).
  reflexivity.
Qed.

Lemma qcut_ge2_cases (x : list float) (n : Z) :
  2 <= n ->
  (edges_collide x n = true /\ qcut x n (range1 n) = Raise ValueError_bin_edges)
  \/ (edges_collide x n = false /\ exists res, qcut x n (range1 n) = Ok res).
Proof.
  intros Hn. rewrite qcut_ge2 by exact Hn.
  destruct (edges_collide x n); [left; auto | right; split; [reflexivity|]].
  pose proof (qcut_edges_length x n ltac:(lia)) as Hlen.
  destruct (qcut_edges x n); [simpl in Hlen; lia | eauto].
Qed.

Lemma edges_collide_false (x : list float) (n : Z) :
  edges_collide x n = false -> all_different float_same (qcut_edges x n).
Proof.
  unfold edges_collide. intros H. apply Nat.ltb_ge in H.
  pose proof (unique_length_le float_same (qcut_edges x n)).
  apply unique_full. lia.
Qed.

(** Edges collide when the series has no value, or only equal values. *)
Lemma edges_collide_constant (x : list float) (n : Z) :
  1 <= n ->
  (forall v w, In (Some v) x -> In (Some w) x -> (v == w)%Q) ->
  edges_collide x n = true.
Proof.
  intros Hn Hconst.
  destruct (edges_collide x n) eqn:E; [reflexivity|]. exfalso.
  apply edges_collide_false in E.
  destruct (series_min x) as [lo|] eqn:Hlo.
  - assert (exists hi, series_max x = Some hi) as (hi & Hhi).
    { destruct (series_min_max_Some x lo (series_min_In _ _ Hlo)) as (? & hi & _ & ?). eauto. }
    pose proof (qcut_edges_span x n lo hi Hn Hlo Hhi) as Hspan.
    destruct (span_first _ _ _ _ Hspan) as (b0 & H0 & Hb0).
    destruct (span_last _ _ _ _ Hspan) as (bn & Hbn & Hbnhi).
    pose proof (all_different_lookup _ _ 0 (Z.to_nat n) _ _ E ltac:(lia) H0 Hbn) as Hd.
    simpl in Hd. apply not_true_iff_false in Hd. apply Hd, Qeq_bool_iff.
    rewrite Hb0, Hbnhi. apply Hconst; [by apply series_min_In | by apply series_max_In].
  - unfold series_min in Hlo.
    assert (Harr : sort Qle_bool (dropna x) = [])
      by (destruct (sort Qle_bool (dropna x)); [reflexivity | discriminate]).
    rewrite qcut_edges_pos, Harr in E by exact Hn.
    assert (H0 : nth_error (map (fun k => quantile_sorted [] (Qmake k (Z.to_pos n)))
                   (Zseq 0 (n + 1))) 0 = Some None)
      by (rewrite nth_error_map, Zseq_nth by lia; reflexivity).
    assert (H1 : nth_error (map (fun k => quantile_sorted [] (Qmake k (Z.to_pos n)))
                   (Zseq 0 (n + 1))) 1 = Some None)
      by (rewrite nth_error_map, Zseq_nth by lia; reflexivity).
    pose proof (all_different_lookup _ _ 0 1 _ _ E ltac:(lia) H0 H1) as Hd.
    discriminate.
Qed.

Lemma mapM_all_Ok {A B} (f : A -> result B) (l : list A) :
  (forall a, In a l -> exists b, f a = Ok b) -> exists bs, mapM f l = Ok bs.
Proof.
  induction l as [|a l IH]; simpl; intros H; [eauto|].
  destruct (H a) as (b & ->); [auto|]. destruct IH as (bs & ->); [auto|].
  simpl. eauto.
Qed.

(** The cell, with two groups or more, raises exactly when the edges of
    some date collide, and then with "Bin edges must be unique". *)
Lemma portfolio_sort_ge2 (cs : list crsp_signals_row) (s : signal_name) (n : Z) :
  2 <= n ->
  let temp := select_columns s cs in
  ((exists d, In d (map date temp) /\ edges_collide (period_signals temp d) n = true)
   /\ portfolio_sort cs s n = Raise ValueError_bin_edges)
  \/ ((forall d, In d (map date temp) -> edges_collide (period_signals temp d) n = false)
      /\ exists o, portfolio_sort cs s n = Ok o).
Proof.
  intros Hn temp. unfold portfolio_sort, transform_qcut. fold temp.
  set (f := qcut_piece (indexed temp) n).
  assert (Hf : forall d,
    (edges_collide (period_signals temp d) n = true /\ f d = Raise ValueError_bin_edges)
    \/ (edges_collide (period_signals temp d) n = false /\ exists b, f d = Ok b)).
  { intros d. subst f. unfold qcut_piece. rewrite get_group_signals.
    destruct (qcut_ge2_cases (period_signals temp d) n Hn) as [[E ->]|[E (res & ->)]];
      [left | right]; simpl; eauto. }
  destruct (existsb (fun d => edges_collide (period_signals temp d) n)
              (group_keys (map date temp))) eqn:Hex.
  - left. apply existsb_exists in Hex as (d & Hd & E). split.
    + exists d. split; [by apply group_keys_In | exact E].
    + rewrite (mapM_Raise f ValueError_bin_edges); [reflexivity | |].
      * intros a _. destruct (Hf a) as [[_ ?]|[_ ?]]; auto.
      * exists d. split; [exact Hd|]. destruct (Hf d) as [[_ ?]|[E' _]]; [auto | congruence].
  - right. assert (Hall : forall d, In d (map date temp) ->
                 edges_collide (period_signals temp d) n = false).
    { intros d Hd. apply not_true_iff_false. intros E.
      apply not_true_iff_false in Hex. apply Hex, existsb_exists.
      exists d. split; [by apply group_keys_In | exact E]. }
    split; [exact Hall|].
    destruct (mapM_all_Ok f (group_keys (map date temp))) as (bs & ->).
    + intros d Hd. apply (proj1 (group_keys_In _ _)) in Hd.
      destruct (Hf d) as [[E _]|[_ ?]]; [|auto]. rewrite Hall in E by exact Hd. discriminate.
    + simpl. eauto.
Qed.

(** ** Averages *)

Lemma Qlen_pos {A} (l : list A) : l <> [] -> (0 < Qlen l)%Q.
Proof.
  intros H. unfold Qlen. change 0%Q with (inject_Z 0). rewrite <- Zlt_Qlt.
  destruct l; [congruence | simpl; lia].
Qed.

Lemma Qsum_le_bound (l : list Q) (c : Q) :
  (forall a, In a l -> (a <= c)%Q) -> (Qsum l <= c * Qlen l)%Q.
Proof.
  induction l as [|a l IH]; intros H.
  - unfold Qlen. change (inject_Z (Z.of_nat (length (@nil Q)))) with 0%Q.
    change (Qsum []) with 0%Q. lra.
  - assert (E : (Qlen (a :: l) == 1 + Qlen l)%Q).
    { unfold Qlen. simpl length. rewrite Nat2Z.inj_succ, <- Z.add_1_l, inject_Z_plus.
      reflexivity. }
    rewrite E. change (Qsum (a :: l)) with (a + Qsum l)%Q.
    specialize (IH (fun x Hx => H x (or_intror Hx))).
    specialize (H a (or_introl eq_refl)). lra.
Qed.

Lemma Qsum_ge_bound (l : list Q) (c : Q) :
  (forall a, In a l -> (c <= a)%Q) -> (c * Qlen l <= Qsum l)%Q.
Proof.
  induction l as [|a l IH]; intros H.
  - unfold Qlen. change (inject_Z (Z.of_nat (length (@nil Q)))) with 0%Q.
    change (Qsum []) with 0%Q. lra.
  - assert (E : (Qlen (a :: l) == 1 + Qlen l)%Q).
    { unfold Qlen. simpl length. rewrite Nat2Z.inj_succ, <- Z.add_1_l, inject_Z_plus.
      reflexivity. }
    rewrite E. change (Qsum (a :: l)) with (a + Qsum l)%Q.
    specialize (IH (fun x Hx => H x (or_intror Hx))).
    specialize (H a (or_introl eq_refl)). lra.
Qed.

Lemma mean_Some (l : list float) :
  dropna l <> [] -> mean l = Some (Qsum (dropna l) / Qlen (dropna l))%Q.
Proof. unfold mean. destruct (dropna l); [congruence | reflexivity]. Qed.

Lemma avg_le_bound (l : list Q) (c : Q) :
  l <> [] -> (forall a, In a l -> (a <= c)%Q) -> (Qsum l / Qlen l <= c)%Q.
Proof.
  intros Hne H. apply Qle_shift_div_r; [by apply Qlen_pos | by apply Qsum_le_bound].
Qed.

Lemma avg_ge_bound (l : list Q) (c : Q) :
  l <> [] -> (forall a, In a l -> (c <= a)%Q) -> (c <= Qsum l / Qlen l)%Q.
Proof.
  intros Hne H. apply Qle_shift_div_l; [by apply Qlen_pos | by apply Qsum_ge_bound].
Qed.

(** When everything in one list is below everything in another, so are the
    averages. *)
Lemma avg_le_avg (l1 l2 : list Q) :
  l1 <> [] -> l2 <> [] ->
  (forall a b, In a l1 -> In b l2 -> (a <= b)%Q) ->
  (Qsum l1 / Qlen l1 <= Qsum l2 / Qlen l2)%Q.
Proof.
  intros H1 H2 H. apply avg_ge_bound; [exact H2|].
  intros b Hb. apply avg_le_bound; [exact H1|]. intros a Ha. by apply H.
Qed.

(** ** One date of a successful run *)

Lemma select_columns_dates (s : signal_name) (cs : list crsp_signals_row) :
  map date (select_columns s cs) = map cs_date cs.
Proof. unfold select_columns. by rewrite map_map. Qed.

Lemma period_signals_row (temp : list obs) (d : Timestamp) (x : float) :
  In x (period_signals temp d) <-> exists r, In r temp /\ date r = d /\ signal r = x.
Proof.
  unfold period_signals. rewrite in_map_iff. split.
  - intros (r & <- & Hr). apply filter_In in Hr as [Hr Hd].
    apply ts_eqb_eq in Hd. eauto.
  - intros (r & Hr & Hd & <-). exists r. split; [reflexivity|].
    apply filter_In. split; [exact Hr | by apply ts_eqb_eq].
Qed.

Lemma period_has_value (temp : list obs) (n : Z) (d : Timestamp) :
  1 <= n -> edges_collide (period_signals temp d) n = false ->
  exists lo hi, series_min (period_signals temp d) = Some lo
             /\ series_max (period_signals temp d) = Some hi.
Proof.
  intros Hn E.
  destruct (series_min (period_signals temp d)) as [lo|] eqn:Hlo.
  - destruct (series_min_max_Some _ lo (series_min_In _ _ Hlo)) as (? & hi & _ & Hhi).
    eauto.
  - exfalso. rewrite edges_collide_constant in E; [discriminate | exact Hn |].
    intros v w Hv _. apply dropna_In, (sort_In Qle_bool) in Hv.
    unfold series_min in Hlo. destruct (sort Qle_bool _); [destruct Hv | discriminate].
Qed.

Lemma group_rows_In (temp : list obs) (n : Z) (d : Timestamp) (g : Z) (r : temp_row) :
  In r (group_rows (cell_temp temp n) d g)
  <-> exists r0, In r0 temp /\ date r0 = d /\ port_of temp n r0 = Some g
                 /\ r = mkTemp r0 (Some g).
Proof.
  unfold group_rows, cell_temp, in_group. rewrite filter_In, in_map_iff. split.
  - intros ((r0 & <- & Hr0) & H). simpl in H.
    apply andb_true_iff in H as [Hd Hp]. apply ts_eqb_eq in Hd.
    destruct (port_of temp n r0) as [p|] eqn:E; [|discriminate].
    apply Z.eqb_eq in Hp as ->. eauto 10.
  - intros (r0 & Hr0 & Hd & Hp & ->). split.
    + exists r0. by rewrite Hp.
    + simpl. rewrite Hd, ts_eqb_refl, Z.eqb_refl. reflexivity.
Qed.

(** The signal values of one (date, port) group of [temp]. *)
Lemma group_values_In (temp : list obs) (n : Z) (d : Timestamp) (g : Z) (v : Q) :
  In v (dropna (map (fun r => signal (t_obs r)) (group_rows (cell_temp temp n) d g)))
  <-> exists r0, In r0 temp /\ date r0 = d /\ signal r0 = Some v
                 /\ port_of temp n r0 = Some g.
Proof.
  rewrite dropna_In, in_map_iff. split.
  - intros (r & Hv & Hr). apply group_rows_In in Hr as (r0 & Hr0 & Hd & Hp & ->).
    simpl in Hv. eauto 10.
  - intros (r0 & Hr0 & Hd & Hv & Hp). exists (mkTemp r0 (Some g)).
    split; [exact Hv|]. apply group_rows_In. eauto 10.
Qed.

(** C6.  Whenever the cell runs through with [n >= 2] groups, in every date
    of the input the first and the last group both have entities, every
    signal value of the first group is at most every signal value of the
    last, and so the average signal of the first is at most the average
    signal of the last. *)
Theorem first_group_average_below_last (cs : list crsp_signals_row)
    (s : signal_name) (n : Z) (o : cell_output) (d : Timestamp) :
  2 <= n -> portfolio_sort cs s n = Ok o -> In d (map cs_date cs) ->
  (forall r1 rn v1 vn,
     In r1 (group_rows (out_temp o) d 1) -> In rn (group_rows (out_temp o) d n) ->
     signal (t_obs r1) = Some v1 -> signal (t_obs rn) = Some vn -> (v1 <= vn)%Q)
  /\ exists a1 an,
       avg_signal (out_temp o) d 1 = Some a1
       /\ avg_signal (out_temp o) d n = Some an
       /\ (a1 <= an)%Q.
Proof.
  intros Hn H Hd.
  destruct (portfolio_sort_ge2 cs s n Hn) as [[_ Hr]|[Hall _]]; [congruence|].
  apply portfolio_sort_Ok in H as (Ht & _); [|lia]. cbv zeta in *.
  rewrite <- (select_columns_dates s) in Hd.
  set (temp := select_columns s cs) in *. rewrite Ht.
  specialize (Hall d Hd).
  destruct (period_has_value temp n d ltac:(lia) Hall) as (lo & hi & Hlo & Hhi).
  pose proof (qcut_edges_span _ n lo hi ltac:(lia) Hlo Hhi) as Hspan.
  pose proof (edges_collide_false _ _ Hall) as Hdiff.
  destruct (qcut_edges (period_signals temp d) n) as [|b0 rest] eqn:Ebins.
  { pose proof (span_length _ _ _ _ Hspan). simpl in *. lia. }
  assert (Hport : forall r, date r = d ->
            port_of temp n r = cut_label (b0 :: rest) b0 (range1 n) (signal r)).
  { intros r Hr. unfold port_of, series_label. by rewrite Hr, Ebins. }
  assert (Hbounds : forall v, In (Some v) (period_signals temp d) -> (lo <= v <= hi)%Q).
  { intros v Hv. split; [eapply series_min_le | eapply series_max_ge]; eauto. }
  assert (Hn1 : 1 <= n) by lia.
  assert (Hpair : forall ra rb a b,
            In ra temp -> date ra = d -> signal ra = Some a -> port_of temp n ra = Some 1 ->
            In rb temp -> date rb = d -> signal rb = Some b -> port_of temp n rb = Some n ->
            (a <= b)%Q).
  { intros ra rb a b Hra Hda Hsa Hpa Hrb Hdb Hsb Hpb.
    rewrite Hport, Hsa in Hpa by exact Hda. rewrite Hport, Hsb in Hpb by exact Hdb.
    apply (cut_label_first_last n lo hi (b0 :: rest) b0 Hn1 Hspan eq_refl a b Hn);
      try assumption.
    - apply Hbounds, period_signals_row. eauto.
    - apply Hbounds, period_signals_row. eauto. }
  split.
  { intros r1 rn v1 vn H1 H2 Hv1 Hv2.
    apply group_rows_In in H1 as (ra & Hra & Hda & Hpa & ->).
    apply group_rows_In in H2 as (rb & Hrb & Hdb & Hpb & ->).
    simpl in Hv1, Hv2. apply (Hpair ra rb v1 vn); assumption. }
  set (vals g := dropna (map (fun r => signal (t_obs r))
                           (group_rows (cell_temp temp n) d g))).
  assert (H1 : vals 1 <> []).
  { pose proof (series_min_In _ _ Hlo) as Hin.
    apply period_signals_row in Hin as (r0 & Hr0 & Hd0 & Hs0).
    assert (Hv : In lo (vals 1)).
    { apply group_values_In. exists r0. repeat split; try assumption.
      rewrite Hport, Hs0 by exact Hd0.
      by apply (cut_label_lo n lo hi (b0 :: rest) b0). }
    intros E. rewrite E in Hv. destruct Hv. }
  assert (H2 : vals n <> []).
  { pose proof (series_max_In _ _ Hhi) as Hin.
    apply period_signals_row in Hin as (r0 & Hr0 & Hd0 & Hs0).
    assert (Hv : In hi (vals n)).
    { apply group_values_In. exists r0. repeat split; try assumption.
      rewrite Hport, Hs0 by exact Hd0.
      by apply (cut_label_hi n lo hi (b0 :: rest) b0). }
    intros E. rewrite E in Hv. destruct Hv. }
  exists (Qdiv (Qsum (vals 1)) (Qlen (vals 1))), (Qdiv (Qsum (vals n)) (Qlen (vals n))).
  split; [by apply mean_Some|]. split; [by apply mean_Some|].
  apply avg_le_avg; [exact H1 | exact H2|].
  intros a b Ha Hb.
  apply group_values_In in Ha as (ra & Hra & Hda & Hsa & Hpa).
  apply group_values_In in Hb as (rb & Hrb & Hdb & Hsb & Hpb).
  apply (Hpair ra rb a b); assumption.
Qed.

(** ** The number of groups is not checked *)

Lemma qcut_1 (x : list float) : exists res, qcut x 1 (range1 1) = Ok res.
Proof.
  rewrite qcut_unfold by lia. unfold bins_to_cuts.
  pose proof (qcut_edges_length x 1 ltac:(lia)) as Hlen.
  change (Z.to_nat (1 + 1)) with 2%nat in Hlen. rewrite Hlen.
  simpl (negb (2 =? 2)%nat). rewrite andb_false_r.
  destruct (qcut_edges x 1) as [|b0 rest]; [discriminate|].
  simpl. eauto.
Qed.

Lemma portfolio_sort_1 (cs : list crsp_signals_row) (s : signal_name) :
  exists o, portfolio_sort cs s 1 = Ok o.
Proof.
  unfold portfolio_sort, transform_qcut.
  destruct (mapM_all_Ok (qcut_piece (indexed (select_columns s cs)) 1)
              (group_keys (map date (select_columns s cs)))) as (bs & ->).
  - intros d _. unfold qcut_piece.
    destruct (qcut_1 (map (fun ir => signal (snd ir))
                (get_group d (indexed (select_columns s cs))))) as (res & ->).
    simpl. eauto.
  - simpl. eauto.
Qed.

Lemma portfolio_sort_negative (cs : list crsp_signals_row) (s : signal_name) (n : Z) :
  n <= -2 -> cs <> [] -> portfolio_sort cs s n = Raise ValueError_samples.
Proof.
  intros Hn Hne. unfold portfolio_sort, transform_qcut.
  assert (Hf : forall d, qcut_piece (indexed (select_columns s cs)) n d
                         = Raise ValueError_samples).
  { intros d. unfold qcut_piece, qcut, linspace01.
    destruct (Z.ltb_spec (n + 1) 0); [reflexivity | lia]. }
  rewrite (mapM_Raise _ ValueError_samples); [reflexivity | auto |].
  destruct cs as [|r cs]; [congruence|].
  exists (cs_date r). split; [|apply Hf].
  apply group_keys_In. rewrite select_columns_dates. by left.
Qed.

(** C2, as the cell has it.  The number of groups is not checked: with
    [n = 1] the cell raises nothing, whatever the input; it returns a table,
    every observation with a signal value is in group 1 and every other
    observation is in no group.  What is raised for a small [n] is what the
    libraries raise: numpy's error for a negative number of samples when
    [n <= -2] and there is a row. *)
Theorem one_group_is_accepted (cs : list crsp_signals_row) (s : signal_name) :
  (exists o, portfolio_sort cs s 1 = Ok o
     /\ summarize cs s 1 = Ok (out_summary o)
     /\ forall r, In r (out_temp o) ->
          port r = if isna (signal (t_obs r)) then None else Some 1)
  /\ (forall n, n <= -2 -> cs <> [] -> summarize cs s n = Raise ValueError_samples).
Proof.
  split.
  - destruct (portfolio_sort_1 cs s) as (o & Ho). exists o.
    split; [exact Ho|]. split; [unfold summarize; by rewrite Ho|].
    intros r Hr.
    apply portfolio_sort_Ok in Ho as (Ht & _); [|lia]. rewrite Ht in Hr.
    pose proof (cell_temp_labels _ 1 r ltac:(lia) Hr) as H.
    destruct (signal (t_obs r)); simpl.
    + destruct H as (g & -> & Hg). f_equal. lia.
    + exact H.
  - intros n Hn Hne. unfold summarize. by rewrite portfolio_sort_negative.
Qed.

(** C2 fails as stated: with [n = 1] the ten entities are summarized, all
    in group 1, and nothing is raised. *)
Lemma one_group_counterexample :
  ~ (forall cs s n, n < 2 -> exists e, summarize cs s n = Raise e).
Proof.
  intros H.
  destruct (H (ten_entities d8001 (fun i => 10000 + i) Q_of) BM_name 1 ltac:(lia))
    as (e & He).
  vm_compute in He. discriminate He.
Qed.

(** ** Too few values to cut *)

Lemma length_le_1_eq {A} (l : list A) (a b : A) :
  (length l <= 1)%nat -> In a l -> In b l -> a = b.
Proof.
  destruct l as [|x [|y l]]; simpl; [tauto | | lia].
  intros _ [<-|[]] [<-|[]]. reflexivity.
Qed.

(** A date with fewer than two signal values has no two different ones. *)
Lemma few_values_equal (temp : list obs) (d : Timestamp) (v w : Q) :
  non_missing_count temp d < 2 ->
  In (Some v) (period_signals temp d) -> In (Some w) (period_signals temp d) -> v = w.
Proof.
  unfold non_missing_count. intros Hlen Hv Hw.
  apply period_signals_row in Hv as (r1 & Hr1 & Hd1 & Hs1).
  apply period_signals_row in Hw as (r2 & Hr2 & Hd2 & Hs2).
  assert (E : r1 = r2).
  { apply (length_le_1_eq
             (List.filter (fun r => ts_eqb (date r) d && negb (isna (signal r))) temp));
      [lia | |]; apply filter_In; (split; [assumption|]);
      apply andb_true_iff; (split; [by apply ts_eqb_eq|]).
    - by rewrite Hs1.
    - by rewrite Hs2. }
  subst r2. congruence.
Qed.

(** C3, as the cell has it.  With [n >= 2] groups the cell raises the
    library's "Bin edges must be unique", and returns no table, whenever
    all the signal values of some date are equal or missing: so whenever a
    date has fewer than two observations with a signal value.  The number
    of observations of a date is not compared with the number of groups. *)
Theorem colliding_edges_raise (cs : list crsp_signals_row) (s : signal_name) (n : Z) :
  2 <= n ->
  let temp := select_columns s cs in
  (forall d, In d (map cs_date cs) ->
     (forall v w, In (Some v) (period_signals temp d) ->
                  In (Some w) (period_signals temp d) -> (v == w)%Q) ->
     summarize cs s n = Raise ValueError_bin_edges)
  /\ (forall d, In d (map cs_date cs) -> non_missing_count temp d < 2 ->
        summarize cs s n = Raise ValueError_bin_edges).
Proof.
  intros Hn temp.
  assert (Hconst : forall d, In d (map cs_date cs) ->
            (forall v w, In (Some v) (period_signals temp d) ->
                         In (Some w) (period_signals temp d) -> (v == w)%Q) ->
            summarize cs s n = Raise ValueError_bin_edges).
  { intros d Hd Hall. unfold summarize.
    pose proof (portfolio_sort_ge2 cs s n Hn) as Hcases. cbv zeta in Hcases.
    fold temp in Hcases. unfold temp in Hcases at 1 3.
    rewrite select_columns_dates in Hcases.
    destruct Hcases as [[_ ->]|[Hno _]]; [reflexivity|].
    specialize (Hno d Hd).
    rewrite edges_collide_constant in Hno; [discriminate Hno | lia | exact Hall]. }
  split; [exact Hconst|].
  intros d Hd Hfew. apply (Hconst d Hd). intros v w Hv Hw.
  by rewrite (few_values_equal temp d v w Hfew Hv Hw).
Qed.

Lemma colliding_edges_raise_witness :
  summarize lone_entity BM_name 2 = Raise ValueError_bin_edges.
Proof.
  apply (proj2 (colliding_edges_raise lone_entity BM_name 2 ltac:(lia)) d8001).
  - simpl. by left.
  - vm_compute. reflexivity.
Defined.

(** C3 fails as stated: a date with three signal values is cut into five
    groups (the values go to groups 1, 3 and 5) and nothing is raised. *)
Lemma three_values_five_groups_counterexample :
  ~ (forall cs s n d,
       In d (map cs_date cs) ->
       non_missing_count (select_columns s cs) d < n ->
       exists e, summarize cs s n = Raise e).
Proof.
  intros H.
  destruct (H three_entities BM_name 5 d8001) as (e & He).
  - simpl. by left.
  - vm_compute. reflexivity.
  - vm_compute in He. discriminate He.
Qed.

Example three_values_five_groups :
  option_map (fun o => map port (out_temp o))
    (match portfolio_sort three_entities BM_name 5 with Ok o => Some o | Raise _ => None end)
  = Some [Some 1; Some 3; Some 5; None; Some 1; Some 5].
Proof. vm_compute. reflexivity. Qed.

(** ** Ten entities, five groups *)

Lemma ten_entities_period (d : Timestamp) (p : Z -> Z) (r : Z -> float) :
  period_signals (select_columns BM_name (ten_entities d p r)) d
  = map Q_of (Zseq 1 10).
Proof.
  unfold period_signals, select_columns, ten_entities. simpl.
  rewrite !ts_eqb_refl. reflexivity.
Qed.

Lemma ten_entities_port_of (d : Timestamp) (p : Z -> Z) (r : Z -> float) (i : Z) :
  port_of (select_columns BM_name (ten_entities d p r)) 5
    (mkObs (p i) d (r i) (Q_of i))
  = series_label (map Q_of (Zseq 1 10)) 5 (Q_of i).
Proof. unfold port_of. cbn [date signal]. by rewrite ten_entities_period. Qed.

(** C7.  Ten entities in one date with signal values 1 to 10, cut into five
    groups: the cell runs through; the entities get the labels 1, 1, 2, 2,
    3, 3, 4, 4, 5, 5; every group counts two entities; group 1 holds the
    values 1 and 2 and group 5 the values 9 and 10.  The date, the
    identifiers and the returns are arbitrary. *)
Theorem ten_entities_five_groups (d : Timestamp) (p : Z -> Z) (r : Z -> float) :
  exists o, portfolio_sort (ten_entities d p r) BM_name 5 = Ok o
    /\ map port (out_temp o) = map Some [1; 1; 2; 2; 3; 3; 4; 4; 5; 5]
    /\ map (fun x => (p_date x, p_port x, nstock x)) (out_port o)
       = [(d, 1, 2); (d, 2, 2); (d, 3, 2); (d, 4, 2); (d, 5, 2)]
    /\ map (fun x => signal (t_obs x)) (group_rows (out_temp o) d 1) = [Q_of 1; Q_of 2]
    /\ map (fun x => signal (t_obs x)) (group_rows (out_temp o) d 5) = [Q_of 9; Q_of 10].
Proof.
  destruct (portfolio_sort_ge2 (ten_entities d p r) BM_name 5 ltac:(lia))
    as [[(d' & Hd' & E) _]|[_ (o & Ho)]].
  { exfalso. simpl in Hd'.
    assert (d' = d) as -> by (repeat (destruct Hd' as [<-|Hd']; [reflexivity|]); destruct Hd').
    rewrite ten_entities_period in E. vm_compute in E. discriminate E. }
  exists o. split; [exact Ho|].
  apply portfolio_sort_Ok in Ho as (Ht & Hp & _); [|lia]. cbv zeta in *.
  assert (Htemp : out_temp o
    = zip_with (fun i g => mkTemp (mkObs (p i) d (r i) (Q_of i)) (Some g))
        (Zseq 1 10) [1; 1; 2; 2; 3; 3; 4; 4; 5; 5]).
  { rewrite Ht. unfold cell_temp.
    change (select_columns BM_name (ten_entities d p r))
      with (map (fun i => mkObs (p i) d (r i) (Q_of i)) (Zseq 1 10)) at 2.
    rewrite map_map.
    rewrite (map_ext _ (fun i => mkTemp (mkObs (p i) d (r i) (Q_of i))
               (series_label (map Q_of (Zseq 1 10)) 5 (Q_of i))))
      by (intros i; by rewrite ten_entities_port_of).
    vm_compute. reflexivity. }
  assert (Hg : forall g,
    group_rows (out_temp o) d g
    = List.filter (fun x => match port x with Some q => q =? g | None => false end)
        (out_temp o)).
  { intros g. unfold group_rows. apply filter_ext_in. intros x Hx.
    unfold in_group. rewrite Htemp in Hx. simpl in Hx.
    repeat (destruct Hx as [<-|Hx]; [simpl; by rewrite ts_eqb_refl|]). destruct Hx. }
  split; [by rewrite Htemp|]. split; [|split].
  - rewrite Hp, port_table_eq.
    assert (Hk : group_keys (map (fun x => date (t_obs x)) (out_temp o)) = [d]).
    { rewrite Htemp. unfold group_keys. simpl. rewrite !ts_eqb_refl. reflexivity. }
    rewrite Hk. simpl. rewrite !Hg, Htemp. reflexivity.
  - rewrite Hg, Htemp. reflexivity.
  - rewrite Hg, Htemp. reflexivity.
Qed.

(** ** Rows for groups without entities *)

Lemma filter_andb {A} (f g : A -> bool) (l : list A) :
  List.filter (fun x => f x && g x) l = List.filter g (List.filter f l).
Proof.
  induction l as [|a l IH]; simpl; [reflexivity|].
  destruct (f a); simpl; [destruct (g a)|]; by rewrite IH.
Qed.

Lemma filter_none {A} (f : A -> bool) (l : list A) :
  (forall x, In x l -> f x = false) -> List.filter f l = [].
Proof.
  induction l as [|a l IH]; simpl; intros H; [reflexivity|].
  rewrite (H a) by auto. apply IH. auto.
Qed.

Lemma filter_port_rows (temp : list temp_row) (cats : list Z) (d : Timestamp) (g : Z) :
  List.NoDup cats -> In g cats ->
  List.filter (fun x => p_port x =? g) (map (port_row_of temp d) cats)
  = [port_row_of temp d g].
Proof.
  induction 1 as [|c cats Hc Hnd IH]; [intros []|]. simpl.
  destruct (Z.eqb_spec c g) as [->|Hne].
  - intros _. f_equal.
    apply filter_none. intros x Hx.
    apply in_map_iff in Hx as (c & <- & Hc'). simpl.
    apply Z.eqb_neq. congruence.
  - intros [?|Hg]; [congruence | by apply IH].
Qed.

Lemma filter_port_table (temp : list temp_row) (cats : list Z) (g : Z) :
  List.NoDup cats -> In g cats ->
  List.filter (fun x => p_port x =? g) (port_table cats temp)
  = map (fun d => port_row_of temp d g)
      (group_keys (map (fun r => date (t_obs r)) temp)).
Proof.
  intros Hnd Hg. rewrite port_table_eq.
  induction (group_keys _) as [|k keys IH]; simpl; [reflexivity|].
  by rewrite List.filter_app, filter_port_rows, IH.
Qed.

Lemma dropna_map_Some {A B} (h : A -> B) (l : list A) :
  dropna (map (fun a => Some (h a)) l) = map h l.
Proof. induction l as [|a l IH]; [reflexivity|]. simpl. unfold dropna in *. simpl. by rewrite IH. Qed.

(** The first and the last of the sorted dates depend on which dates occur
    only. *)
Lemma ts_min_same (l1 l2 : list Timestamp) :
  (forall x, In x l1 <-> In x l2) -> ts_min l1 = ts_min l2.
Proof.
  intros H. unfold ts_min.
  pose proof (sort_sorted ts_leb ts_leb_total ts_leb_trans l1) as S1.
  pose proof (sort_sorted ts_leb ts_leb_total ts_leb_trans l2) as S2.
  destruct (head (sort ts_leb l1)) as [m1|] eqn:E1, (head (sort ts_leb l2)) as [m2|] eqn:E2.
  - f_equal. apply ts_leb_antisym.
    + eapply sorted_head_le; [apply ts_leb_total | exact S1 | exact E1 |].
      apply sort_In, H, (sort_In ts_leb), head_In, E2.
    + eapply sorted_head_le; [apply ts_leb_total | exact S2 | exact E2 |].
      apply sort_In, H, (sort_In ts_leb), head_In, E1.
  - exfalso. apply head_In, sort_In, H, (sort_In ts_leb) in E1.
    destruct (sort ts_leb l2); [destruct E1 | discriminate].
  - exfalso. apply head_In, sort_In, H, (sort_In ts_leb) in E2.
    destruct (sort ts_leb l1); [destruct E2 | discriminate].
  - reflexivity.
Qed.

Lemma ts_max_same (l1 l2 : list Timestamp) :
  (forall x, In x l1 <-> In x l2) -> ts_max l1 = ts_max l2.
Proof.
  intros H. unfold ts_max.
  pose proof (sort_sorted ts_leb ts_leb_total ts_leb_trans l1) as S1.
  pose proof (sort_sorted ts_leb ts_leb_total ts_leb_trans l2) as S2.
  destruct (last (sort ts_leb l1)) as [m1|] eqn:E1, (last (sort ts_leb l2)) as [m2|] eqn:E2.
  - f_equal. apply ts_leb_antisym.
    + eapply sorted_last_ge; [apply ts_leb_total | exact S2 | exact E2 |].
      apply sort_In, H, (sort_In ts_leb), last_In, E1.
    + eapply sorted_last_ge; [apply ts_leb_total | exact S1 | exact E1 |].
      apply sort_In, H, (sort_In ts_leb), last_In, E2.
  - exfalso. apply last_In, sort_In, H, (sort_In ts_leb) in E1.
    apply last_None in E2. rewrite E2 in E1. destruct E1.
  - exfalso. apply last_In, sort_In, H, (sort_In ts_leb) in E2.
    apply last_None in E1. rewrite E1 in E2. destruct E2.
  - reflexivity.
Qed.

Lemma length_map_Qlen {A B} (h : A -> B) (l : list A) : Qlen (map h l) = Qlen l.
Proof. unfold Qlen. by rewrite length_map. Qed.

Lemma cell_temp_dates (s : signal_name) (cs : list crsp_signals_row) (n : Z) :
  map (fun r => date (t_obs r)) (cell_temp (select_columns s cs) n) = map cs_date cs.
Proof. unfold cell_temp, select_columns. by rewrite !map_map. Qed.

Lemma cell_categories_In (temp : list obs) (n g : Z) :
  In g (cell_categories temp n) <-> temp <> [] /\ 1 <= g <= n.
Proof.
  unfold cell_categories. destruct temp.
  - simpl. split; [tauto | intros [? _]; congruence].
  - rewrite range1_In. split; [split; [discriminate | tauto] | tauto].
Qed.

Lemma cell_categories_NoDup (temp : list obs) (n : Z) :
  List.NoDup (cell_categories temp n).
Proof. unfold cell_categories. destruct temp; [constructor | apply Zseq_NoDup]. Qed.

Lemma dates_nonempty (s : signal_name) (cs : list crsp_signals_row) :
  select_columns s cs <> [] <-> map cs_date cs <> [].
Proof. destruct cs; simpl; split; congruence. Qed.

(** C10.  Whenever the cell runs through: [port] has exactly one row for
    every date of the input and every label in [1..n]; the row of a group
    without entities has [nstock] 0 and a missing mean return;
    [port_summary] has exactly one row for every label in [1..n], in this
    order; and each of its rows averages [nstock] over all the dates of the
    input, the dates without entities included, and reports the first and
    the last date of the whole input. *)
Theorem every_date_and_group_has_a_row (cs : list crsp_signals_row)
    (s : signal_name) (n : Z) (o : cell_output) :
  0 <= n -> portfolio_sort cs s n = Ok o ->
  let keys := group_keys (map cs_date cs) in
  (forall d g, In d (map cs_date cs) -> 1 <= g <= n ->
     List.filter (fun x => ts_eqb (p_date x) d && (p_port x =? g)) (out_port o)
     = [port_row_of (out_temp o) d g])
  /\ (forall x, In x (out_port o) ->
        nstock x = Z.of_nat (length (group_rows (out_temp o) (p_date x) (p_port x)))
        /\ (nstock x = 0 -> p_ret x = None))
  /\ (cs <> [] -> map s_port (out_summary o) = range1 n)
  /\ (forall sr, In sr (out_summary o) ->
        1 <= s_port sr <= n
        /\ nstock_mean sr
           = Some (Qdiv
               (Qsum (map (fun d => inject_Z (nstock (port_row_of (out_temp o) d (s_port sr)))) keys))
               (Qlen keys))
        /\ date_min sr = ts_min (map cs_date cs)
        /\ date_max sr = ts_max (map cs_date cs)).
Proof.
  intros Hn H keys. apply portfolio_sort_Ok in H as (Ht & Hp & Hs & _); [|exact Hn].
  cbv zeta in *. set (temp := select_columns s cs) in *.
  assert (Hdates : map (fun r => date (t_obs r)) (out_temp o) = map cs_date cs)
    by (rewrite Ht; apply cell_temp_dates).
  pose proof (cell_categories_NoDup temp n) as Hnd.
  split; [|split; [|split]].
  - intros d g Hd Hg. rewrite Hp, filter_andb, port_table_date, Hdates.
    replace (existsb (ts_eqb d) (map cs_date cs)) with true.
    + apply filter_port_rows; [exact Hnd|].
      apply cell_categories_In. split; [|exact Hg].
      apply dates_nonempty. intros E. rewrite E in Hd. destruct Hd.
    + symmetry. apply existsb_exists. exists d. split; [exact Hd | apply ts_eqb_refl].
  - intros x Hx. rewrite Hp, port_table_eq in Hx.
    apply in_flat_map in Hx as (d & _ & Hx). apply in_map_iff in Hx as (g & <- & _).
    simpl. split; [reflexivity|]. intros H0.
    destruct (group_rows (out_temp o) d g); [reflexivity | discriminate].
  - intros Hne. rewrite Hs. unfold port_summary. rewrite map_map. cbn [s_port].
    rewrite map_id. unfold cell_categories, temp, select_columns.
    destruct cs; [congruence | reflexivity].
  - intros sr Hsr. rewrite Hs in Hsr. unfold port_summary in Hsr.
    apply in_map_iff in Hsr as (g & <- & Hg). cbn [s_port nstock_mean date_min date_max].
    rewrite Hp, filter_port_table, Hdates by assumption. fold keys.
    rewrite !map_map. cbn [p_date].
    apply cell_categories_In in Hg as [Hne Hg].
    split; [exact Hg|]. split; [|split].
    + assert (Hk : keys <> []).
      { unfold keys. intros E. apply (proj1 (group_keys_nil _)) in E.
        by apply dates_nonempty in Hne. }
      rewrite mean_Some; rewrite dropna_map_Some; [|by destruct keys].
      by rewrite length_map_Qlen.
    + rewrite map_id. apply ts_min_same. intros x. apply group_keys_In.
    + rewrite map_id. apply ts_max_same. intros x. apply group_keys_In.
Qed.

Lemma every_date_and_group_has_a_row_witness :
  exists o, portfolio_sort three_entities BM_name 5 = Ok o
    /\ List.filter (fun x => ts_eqb (p_date x) d8002 && (p_port x =? 3)) (out_port o)
       = [port_row_of (out_temp o) d8002 3]
    /\ map s_port (out_summary o) = [1; 2; 3; 4; 5]
    /\ forall sr, In sr (out_summary o) ->
         date_min sr = Some d8001 /\ date_max sr = Some d8002.
Proof.
  destruct (portfolio_sort three_entities BM_name 5) as [o|e] eqn:E.
  - exists o. split; [reflexivity|].
    destruct (every_date_and_group_has_a_row three_entities BM_name 5 o ltac:(lia) E)
      as (Hport & _ & Hrows & Hsum).
    split; [apply Hport; [simpl; auto 10 | lia]|].
    split; [apply Hrows; discriminate|].
    intros sr Hsr. destruct (Hsum sr Hsr) as (_ & _ & Hmin & Hmax).
    rewrite Hmin, Hmax. split; reflexivity.
  - vm_compute in E. discriminate E.
Defined.

(** In the second date nobody is in group 3: the row is there, with no
    entity and no return, and the average number of entities of group 3 is
    one half. *)
Example empty_group_is_reported :
  match portfolio_sort three_entities BM_name 5 with
  | Ok o =>
      List.filter (fun x => ts_eqb (p_date x) d8002 && (p_port x =? 3)) (out_port o)
      = [mkPort d8002 3 0 None]
      /\ option_map (fun q => Qeq_bool q (1 # 2))
           (nstock_mean (nth 2 (out_summary o) (mkSummary 0 None None None None None)))
         = Some true
  | Raise _ => False
  end.
Proof. vm_compute. split; reflexivity. Qed.

(** ** The lag *)

Lemma days_in_month_ge_28 (y m : Z) : 28 <= days_in_month y m.
Proof.
  unfold days_in_month.
  destruct (m =? 2); [destruct (is_leap y); lia|].
  destruct ((m =? 4) || (m =? 6) || (m =? 9) || (m =? 11)); lia.
Qed.

Lemma digit_value_char (d : Z) : 0 <= d <= 9 -> digit_value (digit_char d) = Some d.
Proof.
  intros Hd. unfold digit_value, digit_char.
  rewrite nat_ascii_embedding by lia.
  replace ((48 <=? Z.of_nat (48 + Z.to_nat d)) && (Z.of_nat (48 + Z.to_nat d) <=? 57))
    with true by (symmetry; rewrite andb_true_iff, !Z.leb_le; lia).
  f_equal. lia.
Qed.

Lemma number2_two_digits (n : Z) :
  0 <= n -> 
  match two_digits n with
  | String a (String b EmptyString) => number2 a b = Some (n mod 100)
  | _ => False
  end.
Proof.
  intros Hn. unfold two_digits, number2.
  rewrite !digit_value_char by (Z.to_euclidean_division_equations; lia).
  f_equal. Z.to_euclidean_division_equations. lia.
Qed.

(** The text of a six-digit number. *)
Lemma astype_str_6 (p : Z) :
  100000 <= p <= 999999 ->
  astype_str p
  = (two_digits (p / 10000) ++ two_digits (p / 100) ++ two_digits p)%string.
Proof.
  intros Hp. unfold astype_str.
  destruct (Z.ltb_spec p 0); [lia|].
  unfold digits_to.
  repeat match goal with
  | |- context [?a <? 10] =>
      first [ replace (a <? 10) with false
                by (symmetry; apply Z.ltb_ge; Z.to_euclidean_division_equations; lia)
            | replace (a <? 10) with true
                by (symmetry; apply Z.ltb_lt; Z.to_euclidean_division_equations; lia) ]
  end.
  unfold two_digits. simpl.
  repeat (apply (f_equal2 String);
    [apply (f_equal digit_char); Z.to_euclidean_division_equations; lia |]).
  reflexivity.
Qed.

(** ** Reading a text as a date *)

Lemma digit_value_range (c : ascii) (k : Z) : digit_value c = Some k -> 0 <= k <= 9.
Proof.
  unfold digit_value.
  destruct ((48 <=? _) && (_ <=? 57)) eqn:E; [|discriminate].
  apply andb_true_iff in E as [E1 E2]. intros [= <-]. lia.
Qed.

(** A digit is the character of its value. *)
Lemma digit_value_inv (c : ascii) (k : Z) : digit_value c = Some k -> c = digit_char k.
Proof.
  unfold digit_value, digit_char.
  destruct ((48 <=? _) && (_ <=? 57)) eqn:E; [|discriminate].
  apply andb_true_iff in E as [E1 E2]. intros [= <-].
  replace (48 + Z.to_nat (Z.of_nat (nat_of_ascii c) - 48))%nat with (nat_of_ascii c) by lia.
  by rewrite ascii_nat_embedding.
Qed.

Lemma digit_not_minus (c : ascii) (k : Z) :
  digit_value c = Some k -> Ascii.eqb c "-" = false.
Proof.
  intros H. destruct (Ascii.eqb_spec c "-") as [->|]; [|reflexivity].
  vm_compute in H. discriminate H.
Qed.

Lemma number2_Some (a b : ascii) (n : Z) :
  number2 a b = Some n ->
  exists x y, digit_value a = Some x /\ digit_value b = Some y /\ n = 10 * x + y.
Proof.
  unfold number2. destruct (digit_value a) as [x|], (digit_value b) as [y|];
    try discriminate. intros [= <-]. eauto.
Qed.

(** After two digits that are no month, the pattern does not read the whole
    of a text that ends in "28". *)
Lemma month_day_28_table :
  forallb (fun x => forallb (fun y =>
    ((1 <=? 10 * x + y) && (10 * x + y <=? 12))
    || match month_day_matches (String (digit_char x) (String (digit_char y) "28")) with
       | (_, _, EmptyString) :: _ => false
       | _ => true
       end) (Zseq 0 10)) (Zseq 0 10) = true.
Proof. vm_compute. reflexivity. Qed.

Lemma month_day_28_invalid (a b : ascii) (m : Z) :
  number2 a b = Some m -> ~ 1 <= m <= 12 ->
  match month_day_matches (String a (String b "28")) with
  | (_, _, EmptyString) :: _ => False
  | _ => True
  end.
Proof.
  intros H Hm. apply number2_Some in H as (x & y & Ha & Hb & ->).
  pose proof (digit_value_range _ _ Ha) as Hx. pose proof (digit_value_range _ _ Hb) as Hy.
  apply digit_value_inv in Ha as ->. apply digit_value_inv in Hb as ->.
  pose proof month_day_28_table as T.
  rewrite forallb_forall in T. specialize (T x ltac:(apply Zseq_In; lia)).
  rewrite forallb_forall in T. specialize (T y ltac:(apply Zseq_In; lia)).
  apply orb_true_iff in T as [T|T].
  - apply andb_true_iff in T as [T1 T2]. lia.
  - destruct (month_day_matches _) as [|[[? ?] [|? ?]] ?]; [exact I | discriminate T | exact I].
Qed.

(** Reading eight digits that end in "28": the first reader takes them
    when the month is one, the second leaves some of the text when it is
    none. *)
Lemma to_datetime_8 (y1 y2 y3 y4 m1 m2 : ascii) (yh yl m : Z) :
  number2 y1 y2 = Some yh -> number2 y3 y4 = Some yl -> number2 m1 m2 = Some m ->
  to_datetime_Ymd (String y1 (String y2 (String y3 (String y4 (String m1 (String m2 "28"))))))
  = check_date (100 * yh + yl) m 28.
Proof.
  intros Hh Hl Hm.
  destruct (number2_Some _ _ _ Hh) as (x & _ & Hx & _ & _).
  unfold to_datetime_Ymd, parse_iso_Ymd, strip_minus.
  rewrite (digit_not_minus _ _ Hx). cbn [fst snd]. rewrite Hh, Hl, Hm.
  change (number2 "2" "8") with (Some 28). rewrite Z.mul_1_l.
  unfold check_date.
  pose proof (days_in_month_ge_28 (100 * yh + yl) m) as Hd.
  destruct (Z.leb_spec 1 m) as [H1|H1]; cbn [andb].
  - destruct (Z.leb_spec m 12) as [H2|H2]; cbn [andb].
    + replace (28 <=? days_in_month (100 * yh + yl) m) with true
        by (symmetry; apply Z.leb_le; lia).
      replace ((m <? 1) || (12 <? m) || (28 <? 1)
               || (days_in_month (100 * yh + yl) m <? 28)) with false
        by (symmetry; rewrite !orb_false_iff, !Z.ltb_ge; lia).
      reflexivity.
    + replace ((m <? 1) || (12 <? m) || (28 <? 1)
               || (days_in_month (100 * yh + yl) m <? 28)) with true
        by (symmetry; rewrite !orb_true_iff, !Z.ltb_lt; lia).
      unfold match_Ymd. rewrite Hh, Hl.
      pose proof (month_day_28_invalid m1 m2 m Hm ltac:(lia)) as T.
      destruct (month_day_matches _) as [|[[? ?] [|? ?]] ?]; [reflexivity | destruct T | reflexivity].
  - replace ((m <? 1) || (12 <? m) || (28 <? 1)
             || (days_in_month (100 * yh + yl) m <? 28)) with true
      by (symmetry; rewrite !orb_true_iff, !Z.ltb_lt; lia).
    unfold match_Ymd. rewrite Hh, Hl.
    pose proof (month_day_28_invalid m1 m2 m Hm ltac:(lia)) as T.
    destruct (month_day_matches _) as [|[[? ?] [|? ?]] ?]; [reflexivity | destruct T | reflexivity].
Qed.

(** Reading three two-digit fields and "28". *)
Lemma to_datetime_fields (a b c : Z) :
  0 <= a -> 0 <= b -> 0 <= c ->
  to_datetime_Ymd (String.append (two_digits a)
     (String.append (two_digits b) (String.append (two_digits c) "28")))
  = check_date (100 * (a mod 100) + b mod 100) (c mod 100) 28.
Proof.
  intros Ha Hb Hc.
  pose proof (number2_two_digits a Ha) as Na.
  pose proof (number2_two_digits b Hb) as Nb.
  pose proof (number2_two_digits c Hc) as Nc.
  unfold two_digits in *.
  cbv beta iota fix delta [String.append].
  by apply to_datetime_8.
Qed.

Lemma append_assoc (s1 s2 s3 : string) :
  String.append (String.append s1 s2) s3 = String.append s1 (String.append s2 s3).
Proof.
  induction s1 as [|c s1 IH]; [reflexivity|].
  change (String c (String.append (String.append s1 s2) s3)
          = String c (String.append s1 (String.append s2 s3))).
  by rewrite IH.
Qed.

Lemma to_datetime_28_ok (p : Z) :
  1 <= p mod 100 <= 12 -> 167709 <= p <= 226203 ->
  to_datetime_Ymd (String.append (astype_str p) "28") = Ok (the_28th p).
Proof.
  intros Hm Hp. rewrite astype_str_6 by lia. rewrite !append_assoc.
  rewrite to_datetime_fields by (Z.to_euclidean_division_equations; lia).
  replace (100 * ((p / 10000) mod 100) + (p / 100) mod 100) with (p / 100)
    by (Z.to_euclidean_division_equations; lia).
  unfold check_date, the_28th.
  pose proof (days_in_month_ge_28 (p / 100) (p mod 100)).
  replace ((p mod 100 <? 1) || (12 <? p mod 100) || (28 <? 1)
           || (days_in_month (p / 100) (p mod 100) <? 28)) with false
    by (symmetry; rewrite !orb_false_iff, !Z.ltb_ge; lia).
  replace (in_bounds (mkTimestamp (p / 100) (p mod 100) 28)) with true; [reflexivity|].
  symmetry. unfold in_bounds, ts_leb. cbn [year month day].
  rewrite andb_true_iff, !orb_true_iff, !andb_true_iff, !orb_true_iff, !andb_true_iff,
    !Z.ltb_lt, !Z.eqb_eq, !Z.leb_le.
  Z.to_euclidean_division_equations. lia.
Qed.

(** One month after the 28th of a period is the 28th of the next period. *)
Lemma add_month_28 (p : Z) (d : Timestamp) :
  1 <= p mod 100 <= 12 -> add_month (the_28th p) = Ok d -> d = the_28th (month_after p).
Proof.
  intros Hm. unfold add_month, the_28th, month_after. cbn [year month day].
  destruct (in_bounds _); [|discriminate]. intros [= <-].
  rewrite Z.min_l by apply days_in_month_ge_28.
  destruct (Z.eqb_spec (p mod 100) 12) as [E|E]; f_equal;
    Z.to_euclidean_division_equations; lia.
Qed.

Lemma add_month_28_ok (p : Z) :
  1 <= p mod 100 <= 12 -> 167709 <= p <= 226202 ->
  add_month (the_28th p) = Ok (the_28th (month_after p)).
Proof.
  intros Hm Hp.
  destruct (add_month (the_28th p)) as [d|e] eqn:E.
  - f_equal. by apply add_month_28.
  - exfalso. revert E. unfold add_month, the_28th. cbn [year month day].
    rewrite Z.min_l by apply days_in_month_ge_28.
    replace (in_bounds _) with true; [discriminate|].
    symmetry. unfold in_bounds, ts_leb. cbn [year month day].
    rewrite andb_true_iff, !orb_true_iff, !andb_true_iff, !orb_true_iff, !andb_true_iff,
      !Z.ltb_lt, !Z.eqb_eq, !Z.leb_le.
    destruct (Z.eqb_spec (p mod 100) 12); Z.to_euclidean_division_equations; lia.
Qed.

(** It runs through on periods that are months the library can date. *)
Lemma lag_signals_total (signals : list signals_row) :
  (forall r, In r signals -> period_ok (yyyymm r)) ->
  lag_signals signals = Ok (map lagged signals).
Proof.
  intros H. apply mapM_total. intros r Hr. destruct (H r Hr) as [Hm Hp].
  rewrite to_datetime_28_ok by lia. simpl.
  rewrite add_month_28_ok by (split; lia). reflexivity.
Qed.

Lemma timestamp_ok_bounds (d : Timestamp) :
  timestamp_ok d -> 1 <= month d <= 12 /\ 167709 <= yyyymm_of d <= 226204.
Proof.
  intros (Hm & _ & Hb). split; [exact Hm|]. revert Hb.
  unfold in_bounds, ts_leb, yyyymm_of. cbn [year month day].
  rewrite andb_true_iff, !orb_true_iff, !andb_true_iff, !orb_true_iff, !andb_true_iff,
    !Z.ltb_lt, !Z.eqb_eq, !Z.leb_le. lia.
Qed.

(** Reading the year and month of a timestamp followed by "28". *)
Lemma to_datetime_strftime (d : Timestamp) :
  timestamp_ok d ->
  to_datetime_Ymd (String.append (strftime_Ym d) "28")
  = check_date (year d) (month d) 28.
Proof.
  intros Hd. destruct (timestamp_ok_bounds d Hd) as [Hm Hy]. unfold yyyymm_of in Hy.
  unfold strftime_Ym. rewrite !append_assoc.
  rewrite to_datetime_fields by (Z.to_euclidean_division_equations; lia).
  f_equal; Z.to_euclidean_division_equations; lia.
Qed.

Lemma check_date_28 (y m : Z) (t : Timestamp) :
  check_date y m 28 = Ok t -> t = mkTimestamp y m 28.
Proof.
  unfold check_date. destruct (_ || _); [discriminate|].
  destruct (in_bounds _); [|discriminate]. by intros [= <-].
Qed.

Lemma to_28th_total (crsp : list crsp_row) :
  (forall r, In r crsp -> crsp_date_ok (c_date r)) ->
  to_28th crsp = Ok (map on_28th crsp).
Proof.
  intros H. apply mapM_total. intros r Hr. destruct (H r Hr) as [Hok Hmax].
  destruct (timestamp_ok_bounds _ Hok) as [Hm Hy]. unfold yyyymm_of in *.
  rewrite to_datetime_strftime by exact Hok. unfold check_date.
  pose proof (days_in_month_ge_28 (year (c_date r)) (month (c_date r))).
  replace ((month (c_date r) <? 1) || (12 <? month (c_date r)) || (28 <? 1)
           || (days_in_month (year (c_date r)) (month (c_date r)) <? 28)) with false
    by (symmetry; rewrite !orb_false_iff, !Z.ltb_ge; lia).
  replace (in_bounds (mkTimestamp (year (c_date r)) (month (c_date r)) 28)) with true;
    [reflexivity|].
  symmetry. unfold in_bounds, ts_leb. cbn [year month day].
  rewrite andb_true_iff, !orb_true_iff, !andb_true_iff, !orb_true_iff, !andb_true_iff,
    !Z.ltb_lt, !Z.eqb_eq, !Z.leb_le. lia.
Qed.

Lemma to_28th_Ok (crsp crsp' : list crsp_row) :
  (forall r, In r crsp -> timestamp_ok (c_date r)) ->
  to_28th crsp = Ok crsp' -> crsp' = map on_28th crsp.
Proof.
  intros Hok H. apply mapM_Ok in H.
  induction H as [|r r' crsp crsp' Hr _ IH]; [reflexivity|].
  simpl. f_equal; [|apply IH; intros; apply Hok; by right].
  apply bind_Ok in Hr as (d & Hd & [= <-]).
  rewrite to_datetime_strftime in Hd by (apply Hok; by left).
  by apply check_date_28 in Hd as ->.
Qed.

(** Every row of the joined table is a row of [crsp]; the signal columns
    it carries, if any, are those of a row of [signals_lag] with the same
    entity and the same date. *)
Lemma merge_left_In (crsp : list crsp_row) (sl : list signals_lag_row)
    (x : crsp_signals_row) :
  In x (merge_left crsp sl) ->
  exists c, In c crsp /\ cs_permno x = c_permno c /\ cs_date x = c_date c
    /\ cs_ret x = c_ret c
    /\ match cs_yyyymm_signals x with
       | Some p => exists l, In l sl /\ yyyymm_signals l = p
                     /\ sl_permno l = c_permno c /\ sl_date l = c_date c
                     /\ cs_BM x = sl_BM l /\ cs_AssetGrowth x = sl_AssetGrowth l
       | None => True
       end.
Proof.
  unfold merge_left. rewrite in_flat_map. intros (c & Hc & Hx). exists c.
  split; [exact Hc|].
  destruct (List.filter _ sl) as [|l0 ls] eqn:E.
  - destruct Hx as [<-|[]]. simpl. auto.
  - rewrite <- E in Hx. apply in_map_iff in Hx as (l & <- & Hl).
    apply filter_In in Hl as [Hl Hk]. apply andb_true_iff in Hk as [Hk1 Hk2].
    apply Z.eqb_eq in Hk1. apply ts_eqb_eq in Hk2.
    simpl. repeat split; try reflexivity. exists l. auto 10.
Qed.

(** A row of [crsp] and a row of [signals_lag] with the same entity and
    date are joined. *)
Lemma merge_left_complete (crsp : list crsp_row) (sl : list signals_lag_row)
    (c : crsp_row) (l : signals_lag_row) :
  In c crsp -> In l sl -> sl_permno l = c_permno c -> sl_date l = c_date c ->
  In (join_row c (Some l)) (merge_left crsp sl).
Proof.
  intros Hc Hl Hp Hd. unfold merge_left. apply in_flat_map. exists c.
  split; [exact Hc|].
  assert (Hin : In l (List.filter
            (fun r => (sl_permno r =? c_permno c) && ts_eqb (sl_date r) (c_date c)) sl)).
  { apply filter_In. split; [exact Hl|].
    apply andb_true_iff. split; [by apply Z.eqb_eq | by apply ts_eqb_eq]. }
  destruct (List.filter _ sl) as [|l0 ls]; [destruct Hin|].
  apply in_map_iff. exists l. split; [reflexivity | exact Hin].
Qed.

(** A row of the joined table without signals is a return that no row of
    [signals_lag] has the entity and the date of. *)
Lemma merge_left_None (crsp : list crsp_row) (sl : list signals_lag_row)
    (x : crsp_signals_row) :
  In x (merge_left crsp sl) -> cs_yyyymm_signals x = None ->
  cs_BM x = None /\ cs_AssetGrowth x = None
  /\ forall l, In l sl -> ~ (sl_permno l = cs_permno x /\ sl_date l = cs_date x).
Proof.
  unfold merge_left. rewrite in_flat_map. intros (c & Hc & Hx) Hnone.
  destruct (List.filter _ sl) as [|l0 ls] eqn:E.
  - destruct Hx as [<-|[]]. simpl. split; [reflexivity|]. split; [reflexivity|].
    intros l Hl [Hp Hd].
    assert (Hin : In l (List.filter
              (fun r => (sl_permno r =? c_permno c) && ts_eqb (sl_date r) (c_date c)) sl)).
    { apply filter_In. split; [exact Hl|].
      apply andb_true_iff. split; [by apply Z.eqb_eq | by apply ts_eqb_eq]. }
    rewrite E in Hin. destruct Hin.
  - apply in_map_iff in Hx as (l & <- & _). discriminate Hnone.
Qed.

Lemma month_after_ok (p : Z) :
  1 <= p mod 100 <= 12 -> 1 <= month_after p mod 100 <= 12.
Proof.
  intros Hm. unfold month_after.
  destruct (Z.eqb_spec (p mod 100) 12); Z.to_euclidean_division_equations; lia.
Qed.

(** A timestamp moved to the 28th is the 28th of a period exactly when it
    is of that period. *)
Lemma on_28th_the_28th (d : Timestamp) (q : Z) :
  1 <= month d <= 12 -> 1 <= q mod 100 <= 12 ->
  mkTimestamp (year d) (month d) 28 = the_28th q <-> yyyymm_of d = q.
Proof.
  intros Hm Hq. unfold the_28th, yyyymm_of. split.
  - intros [= Hy Hmo]. Z.to_euclidean_division_equations. lia.
  - intros <-. f_equal; Z.to_euclidean_division_equations; lia.
Qed.

(** The two cells on periods and dates the library can date. *)
Lemma merge_cells_total (signals : list signals_row) (crsp : list crsp_row) :
  (forall r, In r signals -> period_ok (yyyymm r)) ->
  (forall c, In c crsp -> crsp_date_ok (c_date c)) ->
  merge_cells signals crsp = Ok (merge_left (map on_28th crsp) (map lagged signals)).
Proof.
  intros Hs Hc. unfold merge_cells.
  rewrite lag_signals_total by exact Hs. simpl.
  by rewrite to_28th_total.
Qed.

(** C1.  On periods that are months the library can date (and returns
    that are not of April 2262) the two cells run through, and the joined
    table associates a signal with the return of the month after its
    period: a row of [signals] of period [p] and a row of [crsp] of the same
    entity in the month after [p] give a row of [crsp_signals], dated the
    28th of that month, with that return and those signal values; a row of
    [crsp_signals] that carries signals of period [p] is such a row; and a
    row without signals is a return for which [signals] has no row of the
    entity in the month before. *)
Theorem signal_meets_next_month_return (signals : list signals_row)
    (crsp : list crsp_row) :
  (forall r, In r signals -> period_ok (yyyymm r)) ->
  (forall c, In c crsp -> crsp_date_ok (c_date c)) ->
  exists cs, merge_cells signals crsp = Ok cs
    /\ (forall r c, In r signals -> In c crsp -> c_permno c = sg_permno r ->
          yyyymm_of (c_date c) = month_after (yyyymm r) ->
          exists x, In x cs
            /\ cs_permno x = sg_permno r
            /\ cs_date x = the_28th (month_after (yyyymm r))
            /\ cs_ret x = c_ret c
            /\ cs_yyyymm_signals x = Some (yyyymm r)
            /\ cs_BM x = sg_BM r /\ cs_AssetGrowth x = sg_AssetGrowth r)
    /\ (forall x p, In x cs -> cs_yyyymm_signals x = Some p ->
          cs_date x = the_28th (month_after p)
          /\ exists r c, In r signals /\ In c crsp
               /\ yyyymm r = p
               /\ sg_permno r = cs_permno x /\ c_permno c = cs_permno x
               /\ yyyymm_of (c_date c) = month_after p
               /\ cs_ret x = c_ret c
               /\ cs_BM x = sg_BM r /\ cs_AssetGrowth x = sg_AssetGrowth r)
    /\ (forall x, In x cs -> cs_yyyymm_signals x = None ->
          cs_BM x = None /\ cs_AssetGrowth x = None
          /\ forall r, In r signals -> sg_permno r = cs_permno x ->
               month_after (yyyymm r) <> yyyymm_of (cs_date x)).
Proof.
  intros Hs Hc. eexists. split; [by apply merge_cells_total|].
  assert (Hmonth : forall c, In c crsp -> 1 <= month (c_date c) <= 12).
  { intros c Hin. destruct (Hc c Hin) as [Hok _]. apply Hok. }
  split; [|split].
  - intros r c Hr Hin Hp Hd.
    exists (join_row (on_28th c) (Some (lagged r))). split.
    + apply merge_left_complete; [by apply in_map | by apply in_map | simpl; congruence |].
      simpl. symmetry. apply on_28th_the_28th; [by apply Hmonth | | exact Hd].
      apply month_after_ok, Hs, Hr.
    + simpl. repeat split; try congruence.
      apply on_28th_the_28th; [by apply Hmonth | | exact Hd].
      apply month_after_ok, Hs, Hr.
  - intros x p Hx Hp.
    apply merge_left_In in Hx as (c' & Hc' & Hperm & Hdate & Hret & Hsig).
    rewrite Hp in Hsig. destruct Hsig as (l & Hl & Hy & Hlp & Hld & Hbm & Hag).
    apply in_map_iff in Hl as (r & <- & Hr).
    apply in_map_iff in Hc' as (c & <- & Hin). simpl in *.
    subst p. split; [congruence|].
    exists r, c. repeat split; try congruence.
    apply (on_28th_the_28th (c_date c)); [by apply Hmonth | | congruence].
    apply month_after_ok, Hs, Hr.
  - intros x Hx Hnone.
    pose proof (merge_left_In _ _ _ Hx) as (c' & Hc' & _ & Hdate & _).
    apply in_map_iff in Hc' as (c & <- & Hin).
    apply merge_left_None in Hx as (Hbm & Hag & Hno); [|exact Hnone].
    split; [exact Hbm|]. split; [exact Hag|].
    intros r Hr Hp Hd. apply (Hno (lagged r)); [by apply in_map|].
    simpl. split; [exact Hp|]. rewrite Hdate. simpl. symmetry.
    apply on_28th_the_28th; [by apply Hmonth | apply month_after_ok, Hs, Hr |].
    rewrite Hdate in Hd. simpl in Hd. unfold yyyymm_of in *. simpl in Hd. lia.
Qed.

(** ** Running the cell in a notebook *)

Lemma fresh_None (h : gmap loc pyobj) : h !! fresh (dom h) = None.
Proof. apply not_elem_of_dom, is_fresh. Qed.

Lemma fresh_ne (h : gmap loc pyobj) (l : loc) (o : pyobj) :
  h !! l = Some o -> fresh (dom h) <> l.
Proof. intros H E. rewrite <- E, fresh_None in H. discriminate. Qed.

Lemma alloc_keeps (h : gmap loc pyobj) (l : loc) (o o' : pyobj) :
  h !! l = Some o -> <[fresh (dom h) := o']> h !! l = Some o.
Proof. intros H. rewrite lookup_insert_ne; [exact H | by eapply fresh_ne]. Qed.

Lemma read_Some (name : string) (l : loc) (o : pyobj) (nb : notebook) :
  globals nb !! name = Some l -> heap nb !! l = Some o -> read name nb = (nb, Ok o).
Proof. intros Hg Hh. unfold read, sbind, lookup_name, deref. by rewrite Hg, Hh. Qed.

Lemma stmt_temp_spec (nb : notebook) (lcs ls : loc) (cs : list crsp_signals_row)
    (s : signal_name) :
  globals nb !! "crsp_signals" = Some lcs -> heap nb !! lcs = Some (DfCrspSignals cs) ->
  globals nb !! "signalname" = Some ls -> heap nb !! ls = Some (PyStr s) ->
  let t := DfTemp (select_columns s cs) None in
  let h1 := <[fresh (dom (heap nb)) := t]> (heap nb) in
  stmt_temp nb
  = (mkNotebook (<[fresh (dom h1) := t]> h1) (<["temp" := fresh (dom h1)]> (globals nb)), Ok tt).
Proof.
  intros Hcs Hcs' Hs Hs' t h1. unfold stmt_temp. unfold sbind at 1.
  rewrite (read_Some _ _ _ _ Hcs Hcs'). unfold sbind at 1.
  rewrite (read_Some _ _ _ _ Hs Hs').
  unfold sbind, alloc, deref, assign. cbn [heap globals].
  by rewrite lookup_insert_eq.
Qed.

Lemma stmt_set_port_spec (nb : notebook) (lt ln : loc) (rows : list obs)
    (pc : option categorical) (n : Z) :
  globals nb !! "temp" = Some lt -> heap nb !! lt = Some (DfTemp rows pc) ->
  globals nb !! "n" = Some ln -> heap nb !! ln = Some (PyInt n) ->
  stmt_set_port nb
  = match transform_qcut rows n with
    | Ok c => (mkNotebook (<[lt := DfTemp rows (Some c)]> (heap nb)) (globals nb), Ok tt)
    | Raise e => (nb, Raise e)
    end.
Proof.
  intros Ht Ht' Hn Hn'. unfold stmt_set_port, sbind at 1, lookup_name. rewrite Ht.
  unfold sbind at 1, deref. rewrite Ht'. unfold sbind at 1.
  rewrite (read_Some _ _ _ _ Hn Hn'). unfold sbind, lift, store.
  by destruct (transform_qcut rows n).
Qed.

Lemma stmt_port_spec (nb : notebook) (lt : loc) (rows : list obs) (c : categorical) :
  globals nb !! "temp" = Some lt -> heap nb !! lt = Some (DfTemp rows (Some c)) ->
  let l := fresh (dom (heap nb)) in
  stmt_port nb
  = (mkNotebook
       (<[l := DfPort (categories c) (port_table (categories c) (set_port rows c))]> (heap nb))
       (<["port" := l]> (globals nb)), Ok tt).
Proof.
  intros Ht Ht' l. unfold stmt_port, sbind at 1. rewrite (read_Some _ _ _ _ Ht Ht').
  reflexivity.
Qed.

Lemma stmt_port_summary_spec (nb : notebook) (lp : loc) (cats : list Z) (rows : list port_row) :
  globals nb !! "port" = Some lp -> heap nb !! lp = Some (DfPort cats rows) ->
  let l := fresh (dom (heap nb)) in
  stmt_port_summary nb
  = (mkNotebook (<[l := DfSummary (port_summary cats rows)]> (heap nb))
       (<["port_summary" := l]> (globals nb)), Ok tt).
Proof.
  intros Hp Hp' l. unfold stmt_port_summary, sbind at 1. rewrite (read_Some _ _ _ _ Hp Hp').
  reflexivity.
Qed.

Lemma stmt_display_spec (nb : notebook) (l : loc) (rows : list summary_row) :
  globals nb !! "port_summary" = Some l -> heap nb !! l = Some (DfSummary rows) ->
  stmt_display nb = (nb, Ok rows).
Proof.
  intros Hp Hp'. unfold stmt_display, sbind at 1. by rewrite (read_Some _ _ _ _ Hp Hp').
Qed.

Lemma insert_is_Some (h : gmap loc pyobj) (l l' : loc) (o : pyobj) :
  is_Some (h !! l) -> is_Some (<[l' := o]> h !! l).
Proof.
  intros H. destruct (decide (l' = l)) as [->|Hne].
  - rewrite lookup_insert_eq. eauto.
  - by rewrite lookup_insert_ne.
Qed.

Lemma run_cell_spec (n : Z) (s : signal_name) (nb : notebook) (cs : list crsp_signals_row) :
  no_dangling nb -> crsp_signals_of nb = Some cs ->
  exists nb', run_cell n s nb = (nb', summarize cs s n) /\ cell_frame nb nb'.
Proof.
  intros Hwf Hcs. destruct nb as [h g]. unfold crsp_signals_of in Hcs. simpl in *.
  destruct (g !! "crsp_signals") as [lcs|] eqn:Hg; [|discriminate].
  destruct (h !! lcs) as [[| |rows| | |]|] eqn:Hh; try discriminate. injection Hcs as ->.
  unfold run_cell.
  unfold sbind at 1, alloc at 1. cbn [heap globals].
  unfold sbind at 1, assign at 1. cbn [heap globals].
  unfold sbind at 1, alloc at 1. cbn [heap globals].
  unfold sbind at 1, assign at 1. cbn [heap globals].
  set (l1 := fresh (dom h)). set (h1 := <[l1 := PyInt n]> h).
  set (l2 := fresh (dom h1)). set (h2 := <[l2 := PyStr s]> h1).
  set (g2 := <["signalname":=l2]> (<["n":=l1]> g)).
  assert (F1 : forall l o, h !! l = Some o -> h1 !! l = Some o)
    by (intros l o; apply alloc_keeps).
  assert (F2 : forall l o, h1 !! l = Some o -> h2 !! l = Some o)
    by (intros l o; apply alloc_keeps).
  assert (H1 : h1 !! l1 = Some (PyInt n)) by apply lookup_insert_eq.
  assert (H2 : h2 !! l2 = Some (PyStr s)) by apply lookup_insert_eq.
  unfold sbind at 1.
  rewrite (stmt_temp_spec (mkNotebook h2 g2) lcs l2 cs s);
    [|by subst g2; simplify_map_eq | cbn; eauto | by subst g2; simplify_map_eq | exact H2].
  cbn [heap globals].
  set (t := DfTemp (select_columns s cs) None).
  set (l3 := fresh (dom h2)). set (h3 := <[l3 := t]> h2).
  set (l4 := fresh (dom h3)). set (h4 := <[l4 := t]> h3).
  set (g4 := <["temp":=l4]> g2).
  assert (F3 : forall l o, h2 !! l = Some o -> h3 !! l = Some o)
    by (intros l o; apply alloc_keeps).
  assert (F4 : forall l o, h3 !! l = Some o -> h4 !! l = Some o)
    by (intros l o; apply alloc_keeps).
  assert (H4 : h4 !! l4 = Some t) by apply lookup_insert_eq.
  assert (Hg4 : g4 !! "crsp_signals" = Some lcs) by (subst g4 g2; by simplify_map_eq).
  assert (N4 : forall name l, g4 !! name = Some l -> is_Some (h4 !! l)).
  { intros name l. subst g4 g2. rewrite !lookup_insert_Some.
    intros [[_ <-]|[_ [[_ <-]|[_ [[_ <-]|[_ Hl]]]]]];
      [eexists; eauto 10 .. |].
    destruct (Hwf name l Hl) as (o & Ho). eexists; eauto 10. }
  unfold sbind at 1.
  rewrite (stmt_set_port_spec (mkNotebook h4 g4) l4 l1 (select_columns s cs) None n);
    [|by subst g4; simplify_map_eq | exact H4 | by subst g4 g2; simplify_map_eq | cbn; eauto ].
  cbn [heap globals]. unfold summarize, portfolio_sort.
  destruct (transform_qcut (select_columns s cs) n) as [c|e] eqn:E.
  - set (h5 := <[l4 := DfTemp (select_columns s cs) (Some c)]> h4).
    assert (F5 : forall l o, h !! l = Some o -> h5 !! l = Some o).
    { intros l o Hl. subst h5. rewrite lookup_insert_ne; [eauto|].
      eapply fresh_ne. eauto. }
    unfold sbind at 1.
    rewrite (stmt_port_spec (mkNotebook h5 g4) l4 (select_columns s cs) c);
      [|by subst g4; simplify_map_eq | apply lookup_insert_eq].
    cbn [heap globals].
    set (l6 := fresh (dom h5)).
    set (h6 := <[l6 := DfPort (categories c)
                   (port_table (categories c) (set_port (select_columns s cs) c))]> h5).
    unfold sbind at 1.
    rewrite (stmt_port_summary_spec (mkNotebook h6 (<["port":=l6]> g4)) l6 (categories c)
               (port_table (categories c) (set_port (select_columns s cs) c)));
      [|by simplify_map_eq | apply lookup_insert_eq].
    cbn [heap globals].
    set (l7 := fresh (dom h6)).
    set (sm := port_summary (categories c)
                 (port_table (categories c) (set_port (select_columns s cs) c))).
    set (h7 := <[l7 := DfSummary sm]> h6).
    rewrite (stmt_display_spec _ l7 sm); [|by simplify_map_eq | apply lookup_insert_eq].
    eexists. split; [reflexivity|]. split; cbn [heap globals].
    + intros l o Hl. subst h7 h6. by do 2 apply alloc_keeps; apply F5.
    + by simplify_map_eq.
    + intros name l. rewrite !lookup_insert_Some.
      intros [[_ <-]|[_ [[_ <-]|[_ Hl]]]].
      * subst h7. rewrite lookup_insert_eq. by eexists.
      * subst h7 h6. apply insert_is_Some. rewrite lookup_insert_eq. by eexists.
      * subst h7 h6 h5. do 3 apply insert_is_Some. eauto.
  - eexists. split; [reflexivity|]. split; cbn [heap globals].
    + intros l o Hl. eauto.
    + by rewrite Hg4.
    + exact N4.
Qed.

(** Without a table under the name [crsp_signals] the cell raises, and
    still leaves every object in place. *)
Lemma run_cell_no_table (n : Z) (s : signal_name) (nb : notebook) :
  no_dangling nb -> crsp_signals_of nb = None ->
  exists nb',
    run_cell n s nb
    = (nb', Raise (match globals nb !! "crsp_signals" with
                   | Some _ => TypeError
                   | None => KeyError "crsp_signals"
                   end))
    /\ cell_frame nb nb'.
Proof.
  intros Hwf Hcs. destruct nb as [h g]. unfold crsp_signals_of in Hcs. simpl in *.
  unfold run_cell.
  unfold sbind at 1, alloc at 1. cbn [heap globals].
  unfold sbind at 1, assign at 1. cbn [heap globals].
  unfold sbind at 1, alloc at 1. cbn [heap globals].
  unfold sbind at 1, assign at 1. cbn [heap globals].
  set (l1 := fresh (dom h)). set (h1 := <[l1 := PyInt n]> h).
  set (l2 := fresh (dom h1)). set (h2 := <[l2 := PyStr s]> h1).
  set (g2 := <["signalname":=l2]> (<["n":=l1]> g)).
  assert (F1 : forall l o, h !! l = Some o -> h1 !! l = Some o)
    by (intros l o; apply alloc_keeps).
  assert (F2 : forall l o, h1 !! l = Some o -> h2 !! l = Some o)
    by (intros l o; apply alloc_keeps).
  assert (H1 : h1 !! l1 = Some (PyInt n)) by apply lookup_insert_eq.
  assert (H2 : h2 !! l2 = Some (PyStr s)) by apply lookup_insert_eq.
  assert (Hg2 : g2 !! "crsp_signals" = g !! "crsp_signals") by (subst g2; by simplify_map_eq).
  assert (Hs2 : g2 !! "signalname" = Some l2) by (subst g2; by simplify_map_eq).
  assert (Hframe : cell_frame (mkNotebook h g) (mkNotebook h2 g2)).
  { split; cbn [heap globals]; [eauto | exact Hg2 |].
    intros name l. subst g2. rewrite !lookup_insert_Some.
    intros [[_ <-]|[_ [[_ <-]|[_ Hl]]]]; [eexists; eauto .. |].
    destruct (Hwf name l Hl) as (o & Ho). eexists; eauto. }
  exists (mkNotebook h2 g2). split; [|exact Hframe].
  unfold sbind at 1, stmt_temp, sbind at 1, read at 1, sbind at 1, lookup_name at 1.
  cbn [heap globals]. rewrite Hg2.
  destruct (g !! "crsp_signals") as [lcs|] eqn:Hg; [|reflexivity].
  destruct (Hwf _ _ Hg) as (o & Ho). simpl in Ho. rewrite Ho in Hcs.
  unfold deref at 1. cbn [heap globals]. rewrite (F2 _ _ (F1 _ _ Ho)).
  unfold sbind at 1. rewrite (read_Some _ l2 (PyStr s)) by assumption.
  destruct o; try reflexivity. discriminate Hcs.
Qed.

Lemma frame_crsp_signals_of (nb nb' : notebook) :
  no_dangling nb -> cell_frame nb nb' ->
  crsp_signals_of nb' = crsp_signals_of nb
  /\ globals nb' !! "crsp_signals" = globals nb !! "crsp_signals"
  /\ no_dangling nb'.
Proof.
  intros Hwf [Fo Fc Fn]. split; [|split; [exact Fc | exact Fn]].
  unfold crsp_signals_of. rewrite Fc.
  destruct (globals nb !! "crsp_signals") as [l|] eqn:E; [|reflexivity].
  destruct (Hwf _ _ E) as (o & Ho). by rewrite Ho, (Fo _ _ Ho).
Qed.

(** What the cell displays depends on the state only through the table
    [crsp_signals] names. *)
Lemma run_cell_result (n : Z) (s : signal_name) (nb : notebook) :
  no_dangling nb ->
  exists nb',
    run_cell n s nb
    = (nb', match crsp_signals_of nb with
            | Some cs => summarize cs s n
            | None => Raise (match globals nb !! "crsp_signals" with
                             | Some _ => TypeError
                             | None => KeyError "crsp_signals"
                             end)
            end)
    /\ cell_frame nb nb'.
Proof.
  intros Hwf. destruct (crsp_signals_of nb) as [cs|] eqn:E.
  - by apply run_cell_spec.
  - by apply run_cell_no_table.
Qed.

(** C8.  Running the cell a second time, with the same number of groups and
    the same signal name, displays the same table (or raises the same
    error) as the first run, whatever the notebook held before. *)
Theorem second_run_same_output (n : Z) (s : signal_name) (nb : notebook) :
  no_dangling nb ->
  snd (run_cell n s (fst (run_cell n s nb))) = snd (run_cell n s nb).
Proof.
  intros Hwf.
  destruct (run_cell_result n s nb Hwf) as (nb1 & E1 & F1).
  destruct (frame_crsp_signals_of nb nb1 Hwf F1) as (Hcs & Hg & Hwf1).
  destruct (run_cell_result n s nb1 Hwf1) as (nb2 & E2 & _).
  rewrite E1. cbn [fst snd]. rewrite E2. cbn [snd]. by rewrite Hcs, Hg.
Qed.

(** C9.  The cell changes no object that existed before it ran: the table
    [crsp_signals] names is the same object with the same rows afterwards
    (the column [port] is set on a copy), and so is every other object.  What
    it displays is [summarize] of that table, the signal name and [n], and
    nothing else of the state. *)
Theorem cell_changes_no_input (n : Z) (s : signal_name) (nb : notebook)
    (cs : list crsp_signals_row) :
  no_dangling nb -> crsp_signals_of nb = Some cs ->
  let nb' := fst (run_cell n s nb) in
  crsp_signals_of nb' = Some cs
  /\ globals nb' !! "crsp_signals" = globals nb !! "crsp_signals"
  /\ (forall l o, heap nb !! l = Some o -> heap nb' !! l = Some o)
  /\ snd (run_cell n s nb) = summarize cs s n.
Proof.
  intros Hwf Hcs nb'. subst nb'.
  destruct (run_cell_spec n s nb cs Hwf Hcs) as (nb1 & E1 & F1).
  destruct (frame_crsp_signals_of nb nb1 Hwf F1) as (Hcs1 & Hg & _).
  rewrite E1. cbn [fst snd]. repeat split.
  - by rewrite Hcs1.
  - exact Hg.
  - apply F1.
Qed.

(** ** The statements at sample inputs *)

Lemma signal_meets_next_month_return_witness :
  exists cs,
    merge_cells
      [mkSignals 10006 197912 (Q_of 1) (Q_of 2); mkSignals 10006 198001 (Q_of 3) None]
      [mkCrsp 10006 (mkTimestamp 1980 1 31) (Q_of 21)] = Ok cs
    /\ exists x, In x cs
         /\ cs_permno x = 10006
         /\ cs_date x = the_28th (month_after 197912)
         /\ cs_ret x = Q_of 21
         /\ cs_yyyymm_signals x = Some 197912
         /\ cs_BM x = Q_of 1 /\ cs_AssetGrowth x = Q_of 2.
Proof.
  destruct (signal_meets_next_month_return
              [mkSignals 10006 197912 (Q_of 1) (Q_of 2); mkSignals 10006 198001 (Q_of 3) None]
              [mkCrsp 10006 (mkTimestamp 1980 1 31) (Q_of 21)])
    as (cs & Hcs & Hjoin & _).
  - intros r [<-|[<-|[]]]; vm_compute; repeat split; discriminate.
  - intros c [<-|[]]. vm_compute. repeat split; discriminate.
  - exists cs. split; [exact Hcs|].
    apply (Hjoin (mkSignals 10006 197912 (Q_of 1) (Q_of 2))
                 (mkCrsp 10006 (mkTimestamp 1980 1 31) (Q_of 21)));
      [by left | by left | reflexivity | reflexivity].
Defined.

Lemma one_group_is_accepted_witness :
  (exists o, portfolio_sort three_entities BM_name 1 = Ok o
     /\ summarize three_entities BM_name 1 = Ok (out_summary o)
     /\ forall r, In r (out_temp o) ->
          port r = if isna (signal (t_obs r)) then None else Some 1)
  /\ summarize three_entities BM_name (-2) = Raise ValueError_samples.
Proof.
  split.
  - exact (proj1 (one_group_is_accepted three_entities BM_name)).
  - apply (proj2 (one_group_is_accepted three_entities BM_name) (-2)); [lia | discriminate].
Defined.

Lemma every_observation_one_group_witness :
  exists o, portfolio_sort three_entities BM_name 5 = Ok o
    /\ map t_obs (out_temp o) = select_columns BM_name three_entities
    /\ forall r, In r (out_temp o) ->
         match signal (t_obs r) with
         | Some _ => exists g, port r = Some g /\ 1 <= g <= 5
         | None => port r = None
         end.
Proof.
  destruct (portfolio_sort three_entities BM_name 5) as [o|e] eqn:E.
  - exists o. split; [reflexivity|].
    apply (every_observation_one_group three_entities BM_name 5 o); [lia | exact E].
  - vm_compute in E. discriminate E.
Defined.

Lemma group_counts_sum_to_non_missing_witness :
  exists o, portfolio_sort three_entities BM_name 5 = Ok o
    /\ nstock_total (out_port o) d8001 = 3.
Proof.
  destruct (portfolio_sort three_entities BM_name 5) as [o|e] eqn:E.
  - exists o. split; [reflexivity|].
    rewrite (group_counts_sum_to_non_missing three_entities BM_name 5 o d8001);
      [reflexivity | lia | exact E].
  - vm_compute in E. discriminate E.
Defined.

Lemma first_group_average_below_last_witness :
  exists o, portfolio_sort three_entities BM_name 5 = Ok o
    /\ exists a1 an,
         avg_signal (out_temp o) d8002 1 = Some a1
         /\ avg_signal (out_temp o) d8002 5 = Some an
         /\ (a1 <= an)%Q.
Proof.
  destruct (portfolio_sort three_entities BM_name 5) as [o|e] eqn:E.
  - exists o. split; [reflexivity|].
    apply (proj2 (first_group_average_below_last three_entities BM_name 5 o d8002
                    ltac:(lia) E ltac:(simpl; auto 10))).
  - vm_compute in E. discriminate E.
Defined.

Lemma no_dangling_notebook_with (cs : list crsp_signals_row) :
  no_dangling (notebook_with cs).
Proof.
  intros name l. unfold notebook_with. cbn [heap globals].
  intros H. apply lookup_singleton_Some in H as [_ <-].
  rewrite lookup_singleton_eq. by eexists.
Qed.

Lemma second_run_same_output_witness :
  snd (run_cell 5 BM_name (fst (run_cell 5 BM_name (notebook_with three_entities))))
  = snd (run_cell 5 BM_name (notebook_with three_entities)).
Proof.
  apply (second_run_same_output 5 BM_name (notebook_with three_entities)).
  apply no_dangling_notebook_with.
Defined.

Lemma cell_changes_no_input_witness :
  let nb := notebook_with three_entities in
  let nb' := fst (run_cell 5 BM_name nb) in
  crsp_signals_of nb' = Some three_entities
  /\ globals nb' !! "crsp_signals" = globals nb !! "crsp_signals"
  /\ (forall l o, heap nb !! l = Some o -> heap nb' !! l = Some o)
  /\ snd (run_cell 5 BM_name nb) = summarize three_entities BM_name 5.
Proof.
  intros nb.
  apply (cell_changes_no_input 5 BM_name nb three_entities).
  - apply no_dangling_notebook_with.
  - reflexivity.
Defined.

(** The column is set on the copy: after the run, [temp] names a frame with
    the [port] column, and [crsp_signals] still names the table it named. *)
Example temp_is_a_copy :
  let nb' := fst (run_cell 5 BM_name (notebook_with three_entities)) in
  globals nb' !! "temp" <> globals nb' !! "crsp_signals"
  /\ crsp_signals_of nb' = Some three_entities
  /\ match globals nb' !! "temp" with
     | Some l => match heap nb' !! l with
                 | Some (DfTemp _ (Some c)) =>
                     values c = [Some 1; Some 3; Some 5; None; Some 1; Some 5]
                 | _ => False
                 end
     | None => False
     end.
Proof. vm_compute. split; [discriminate | split; reflexivity]. Qed.

(** * More on the cells *)

(** ** What the lag cell reads *)

(** The text of a five-digit number. *)
Lemma astype_str_5 (y a : Z) :
  1000 <= y <= 9999 -> 0 <= a <= 9 ->
  astype_str (10 * y + a)
  = String.append (two_digits (y / 100))
      (String.append (two_digits y) (String (digit_char a) "")).
Proof.
  intros Hy Ha. unfold astype_str.
  destruct (Z.ltb_spec (10 * y + a) 0); [lia|].
  unfold digits_to.
  repeat match goal with
  | |- context [?a <? 10] =>
      first [ replace (a <? 10) with false
                by (symmetry; apply Z.ltb_ge; Z.to_euclidean_division_equations; lia)
            | replace (a <? 10) with true
                by (symmetry; apply Z.ltb_lt; Z.to_euclidean_division_equations; lia) ]
  end.
  unfold two_digits. simpl.
  repeat (apply (f_equal2 String);
    [apply (f_equal digit_char); Z.to_euclidean_division_equations; lia |]).
  reflexivity.
Qed.

(** A digit and "28": "128" is the month 12 and the day 8, any other digit
    but 0 is the month and 28 the day. *)
Lemma month_day_short_table :
  forallb (fun a =>
    match month_day_matches (String (digit_char a) "28") with
    | (m, d, EmptyString) :: _ =>
        if a =? 1 then (m =? 12) && (d =? 8) else (m =? a) && (d =? 28)
    | _ => false
    end) (Zseq 1 9) = true.
Proof. vm_compute. reflexivity. Qed.

Lemma to_datetime_short (y a : Z) :
  1678 <= y <= 2261 -> 1 <= a <= 9 ->
  to_datetime_Ymd (String.append (astype_str (10 * y + a)) "28")
  = Ok (if a =? 1 then mkTimestamp y 12 8 else mkTimestamp y a 28).
Proof.
  intros Hy Ha. rewrite astype_str_5 by lia. rewrite !append_assoc.
  pose proof (number2_two_digits (y / 100) ltac:(Z.to_euclidean_division_equations; lia)) as Nh.
  pose proof (number2_two_digits y ltac:(lia)) as Nl.
  unfold two_digits in *.
  cbv beta iota fix delta [String.append].
  destruct (number2_Some _ _ _ Nh) as (x & _ & Hx & _ & _).
  unfold to_datetime_Ymd, parse_iso_Ymd, strip_minus.
  rewrite (digit_not_minus _ _ Hx). cbn [fst snd].
  unfold match_Ymd. rewrite Nh, Nl.
  replace (100 * ((y / 100) mod 100) + y mod 100) with y
    by (Z.to_euclidean_division_equations; lia).
  pose proof month_day_short_table as T.
  rewrite forallb_forall in T. specialize (T a ltac:(apply Zseq_In; lia)).
  destruct (month_day_matches _) as [|[[m d] [|? ?]] ?]; try discriminate T.
  replace (y =? 0) with false by (symmetry; apply Z.eqb_neq; lia).
  assert (Hcheck : forall m' d', 1 <= m' <= 12 -> 1 <= d' <= 28 ->
            check_date y m' d' = Ok (mkTimestamp y m' d')).
  { intros m' d' Hm Hd. unfold check_date.
    pose proof (days_in_month_ge_28 y m').
    replace ((m' <? 1) || (12 <? m') || (d' <? 1) || (days_in_month y m' <? d')) with false
      by (symmetry; rewrite !orb_false_iff, !Z.ltb_ge; lia).
    replace (in_bounds (mkTimestamp y m' d')) with true; [reflexivity|].
    symmetry. unfold in_bounds, ts_leb. cbn [year month day].
    rewrite andb_true_iff, !orb_true_iff, !andb_true_iff, !orb_true_iff, !andb_true_iff,
      !Z.ltb_lt, !Z.eqb_eq, !Z.leb_le. lia. }
  destruct (Z.eqb_spec a 1) as [->|Hne].
  - apply andb_true_iff in T as [Tm Td]. apply Z.eqb_eq in Tm, Td. subst m d.
    apply Hcheck; lia.
  - apply andb_true_iff in T as [Tm Td]. apply Z.eqb_eq in Tm, Td. subst m d.
    apply Hcheck; lia.
Qed.

(** The date of a row of [signals_lag], period by period. *)
Lemma lag_date_row (p : Z) :
  period_ok p \/ short_period p ->
  bind (to_datetime_Ymd (String.append (astype_str p) "28")) add_month = Ok (lag_date p).
Proof.
  intros [[Hm Hp]|[Hp Ha]]; unfold lag_date.
  - replace (100000 <=? p) with true by (symmetry; apply Z.leb_le; lia).
    rewrite to_datetime_28_ok by lia. simpl. apply add_month_28_ok; [exact Hm | lia].
  - replace (100000 <=? p) with false by (symmetry; apply Z.leb_gt; lia).
    replace p with (10 * (p / 10) + p mod 10) at 1 by (Z.to_euclidean_division_equations; lia).
    rewrite to_datetime_short by (Z.to_euclidean_division_equations; lia).
    assert (Hy : 1678 <= p / 10 <= 2261) by (Z.to_euclidean_division_equations; lia).
    assert (Ha' : 1 <= p mod 10 <= 9) by (Z.to_euclidean_division_equations; lia).
    set (y := p / 10) in *. set (a := p mod 10) in *.
    destruct (Z.eqb_spec a 1) as [E|E]; simpl; unfold add_month; cbn [year month day].
    + change (12 =? 12) with true. cbn iota.
      change (days_in_month (y + 1) 1) with 31. change (Z.min 8 31) with 8.
      replace (in_bounds (mkTimestamp (y + 1) 1 8)) with true; [reflexivity|].
      symmetry. unfold in_bounds, ts_leb. cbn [year month day].
      rewrite andb_true_iff, !orb_true_iff, !andb_true_iff, !orb_true_iff, !andb_true_iff,
        !Z.ltb_lt, !Z.eqb_eq, !Z.leb_le. lia.
    + replace (a =? 12) with false by (symmetry; apply Z.eqb_neq; lia).
      pose proof (days_in_month_ge_28 y (a + 1)).
      rewrite Z.min_l by lia.
      replace (in_bounds (mkTimestamp y (a + 1) 28)) with true; [reflexivity|].
      symmetry. unfold in_bounds, ts_leb. cbn [year month day].
      rewrite andb_true_iff, !orb_true_iff, !andb_true_iff, !orb_true_iff, !andb_true_iff,
        !Z.ltb_lt, !Z.eqb_eq, !Z.leb_le. lia.
Qed.

Lemma lag_signals_short (signals : list signals_row) :
  (forall r, In r signals -> period_ok (yyyymm r) \/ short_period (yyyymm r)) ->
  lag_signals signals = Ok (map lagged_at signals).
Proof.
  intros H. apply mapM_total. intros r Hr.
  pose proof (lag_date_row (yyyymm r) (H r Hr)) as E.
  destruct (to_datetime_Ymd _) as [t|e]; [|discriminate E]. simpl in *.
  by rewrite E.
Qed.

(** A six-digit period that is no month, or that is out of the bounds of a
    timestamp, is refused. *)
Lemma to_datetime_28_raises (p : Z) :
  100000 <= p <= 999999 ->
  ~ 1 <= p mod 100 <= 12 \/ p < 167709 \/ 226203 < p ->
  exists e, to_datetime_Ymd (String.append (astype_str p) "28") = Raise e.
Proof.
  intros Hp Hbad. rewrite astype_str_6 by exact Hp. rewrite !append_assoc.
  rewrite to_datetime_fields by (Z.to_euclidean_division_equations; lia).
  replace (100 * ((p / 10000) mod 100) + (p / 100) mod 100) with (p / 100)
    by (Z.to_euclidean_division_equations; lia).
  unfold check_date.
  destruct (_ || _) eqn:C; [eauto|].
  destruct (in_bounds _) eqn:E; [|eauto]. exfalso.
  rewrite !orb_false_iff, !Z.ltb_ge in C. destruct C as [[[C1 C2] _] _].
  revert E. unfold in_bounds, ts_leb. cbn [year month day].
  rewrite andb_true_iff, !orb_true_iff, !andb_true_iff, !orb_true_iff, !andb_true_iff,
    !Z.ltb_lt, !Z.eqb_eq, !Z.leb_le.
  Z.to_euclidean_division_equations. lia.
Qed.

Lemma mapM_raises {A B} (f : A -> result B) (l : list A) (a : A) :
  In a l -> (exists e, f a = Raise e) -> exists e, mapM f l = Raise e.
Proof.
  intros Ha (e & He). induction l as [|b l IH]; [destruct Ha|].
  simpl. destruct Ha as [->|Ha].
  - rewrite He. simpl. eauto.
  - destruct (f b); simpl; [|eauto].
    destruct (IH Ha) as (e' & ->). simpl. eauto.
Qed.

Lemma lag_date_period (p : Z) : period_ok p -> lag_date p = the_28th (month_after p).
Proof.
  intros [_ Hp]. unfold lag_date.
  by replace (100000 <=? p) with true by (symmetry; apply Z.leb_le; lia).
Qed.

(** X1.  What the lag cell makes of a [yyyymm].  A six-digit month between
    September 1677 and February 2262 is dated the 28th of the month after
    it.  A six-digit number that is no month (a month 00 or 13 to 99), or a
    month before September 1677 or after March 2262, makes the cell raise.
    A five-digit number is not refused: its text with "28" has seven digits,
    which are read as a year, a month of one digit and the day 28 (19879 is
    dated 1987-10-28, as the period 198709 is), or, when the fifth digit
    is 1, as December the 8th (19871 is dated 1988-01-08). *)
Theorem lag_cell_reads_periods (signals : list signals_row) :
  ((forall r, In r signals -> period_ok (yyyymm r) \/ short_period (yyyymm r)) ->
     lag_signals signals = Ok (map lagged_at signals))
  /\ (forall r, In r signals -> 100000 <= yyyymm r <= 999999 ->
        ~ 1 <= yyyymm r mod 100 <= 12 \/ yyyymm r < 167709 \/ 226203 < yyyymm r ->
        exists e, lag_signals signals = Raise e)
  /\ (forall p, period_ok p -> lag_date p = the_28th (month_after p))
  /\ (forall y a, 1678 <= y <= 2261 -> 2 <= a <= 9 ->
        short_period (10 * y + a) /\ period_ok (100 * y + a)
        /\ lag_date (10 * y + a) = lag_date (100 * y + a))
  /\ (forall y, 1678 <= y <= 2261 ->
        short_period (10 * y + 1) /\ lag_date (10 * y + 1) = mkTimestamp (y + 1) 1 8).
Proof.
  split; [apply lag_signals_short|]. split; [|split; [apply lag_date_period|split]].
  - intros r Hr Hp Hbad. apply (mapM_raises _ _ r Hr).
    destruct (to_datetime_28_raises _ Hp Hbad) as (e & ->). simpl. eauto.
  - intros y a Hy Ha.
    assert (Hs : short_period (10 * y + a))
      by (unfold short_period; Z.to_euclidean_division_equations; lia).
    assert (Hp : period_ok (100 * y + a))
      by (unfold period_ok; Z.to_euclidean_division_equations; lia).
    split; [exact Hs|]. split; [exact Hp|].
    rewrite (lag_date_period _ Hp). unfold lag_date.
    replace (100000 <=? 10 * y + a) with false by (symmetry; apply Z.leb_gt; lia).
    replace ((10 * y + a) mod 10) with a by (Z.to_euclidean_division_equations; lia).
    replace ((10 * y + a) / 10) with y by (Z.to_euclidean_division_equations; lia).
    replace (a =? 1) with false by (symmetry; apply Z.eqb_neq; lia).
    unfold the_28th, month_after.
    replace ((100 * y + a) mod 100) with a by (Z.to_euclidean_division_equations; lia).
    replace (a =? 12) with false by (symmetry; apply Z.eqb_neq; lia).
    f_equal; Z.to_euclidean_division_equations; lia.
  - intros y Hy.
    split; [unfold short_period; Z.to_euclidean_division_equations; lia|].
    unfold lag_date.
    replace (100000 <=? 10 * y + 1) with false by (symmetry; apply Z.leb_gt; lia).
    replace ((10 * y + 1) mod 10) with 1 by (Z.to_euclidean_division_equations; lia).
    replace ((10 * y + 1) / 10) with y by (Z.to_euclidean_division_equations; lia).
    reflexivity.
Qed.

Lemma lag_cell_reads_periods_witness :
  lag_signals [mkSignals 10001 19879 (Q_of 1) None; mkSignals 10001 198709 (Q_of 2) None;
               mkSignals 10001 19871 (Q_of 3) None]
  = Ok [mkSignalsLag 10001 19879 (Q_of 1) None (mkTimestamp 1987 10 28);
        mkSignalsLag 10001 198709 (Q_of 2) None (mkTimestamp 1987 10 28);
        mkSignalsLag 10001 19871 (Q_of 3) None (mkTimestamp 1988 1 8)].
Proof.
  apply (proj1 (lag_cell_reads_periods
           [mkSignals 10001 19879 (Q_of 1) None; mkSignals 10001 198709 (Q_of 2) None;
            mkSignals 10001 19871 (Q_of 3) None])).
  intros r [<-|[<-|[<-|[]]]]; vm_compute;
    [right | left | right]; repeat split; discriminate.
Defined.

Lemma month_before_after (p : Z) :
  1 <= p mod 100 <= 12 -> month_before (month_after p) = p.
Proof.
  intros Hm. unfold month_before, month_after.
  destruct (Z.eqb_spec (p mod 100) 12) as [E|E].
  - replace (((p / 100 + 1) * 100 + 1) mod 100) with 1
      by (Z.to_euclidean_division_equations; lia).
    simpl. Z.to_euclidean_division_equations. lia.
  - destruct (Z.eqb_spec ((p + 1) mod 100) 1) as [E1|E1]; [|lia].
    exfalso. Z.to_euclidean_division_equations. lia.
Qed.

Lemma yyyymm_of_the_28th (p : Z) : yyyymm_of (the_28th p) = p.
Proof. unfold yyyymm_of, the_28th. simpl. Z.to_euclidean_division_equations. lia. Qed.

(** X2.  On periods that are months the library can date, the lag cell
    runs through and [signals_lag] has the rows of [signals] in the same
    order, with the entity and the signal values untouched and the period
    kept as [yyyymm_signals]; every date is a 28th, and the period can be
    read back from the date as the month before it. *)
Theorem lag_keeps_rows_and_period (signals : list signals_row) :
  (forall r, In r signals -> period_ok (yyyymm r)) ->
  exists sl, lag_signals signals = Ok sl
    /\ Forall2 (fun r l =>
         sl_permno l = sg_permno r /\ yyyymm_signals l = yyyymm r
         /\ sl_BM l = sg_BM r /\ sl_AssetGrowth l = sg_AssetGrowth r
         /\ day (sl_date l) = 28
         /\ month_before (yyyymm_of (sl_date l)) = yyyymm r) signals sl.
Proof.
  intros Hok. eexists. split; [by apply lag_signals_total|].
  induction signals as [|r signals IH]; simpl; constructor.
  - simpl. repeat split; try reflexivity.
    rewrite yyyymm_of_the_28th. apply month_before_after. apply Hok. by left.
  - apply IH. intros r' Hr'. apply Hok. by right.
Qed.

Lemma lag_keeps_rows_and_period_witness :
  exists sl,
    lag_signals [mkSignals 10001 198612 (Q_of 1) None; mkSignals 10002 198701 None (Q_of 2)]
    = Ok sl
    /\ Forall2 (fun r l =>
         sl_permno l = sg_permno r /\ yyyymm_signals l = yyyymm r
         /\ sl_BM l = sg_BM r /\ sl_AssetGrowth l = sg_AssetGrowth r
         /\ day (sl_date l) = 28
         /\ month_before (yyyymm_of (sl_date l)) = yyyymm r)
         [mkSignals 10001 198612 (Q_of 1) None; mkSignals 10002 198701 None (Q_of 2)] sl.
Proof.
  apply (lag_keeps_rows_and_period
           [mkSignals 10001 198612 (Q_of 1) None; mkSignals 10002 198701 None (Q_of 2)]).
  intros r [<-|[<-|[]]]; vm_compute; repeat split; discriminate.
Defined.

(** ** Moving the returns to the 28th *)

Lemma check_date_28_ok (y m : Z) (t : Timestamp) :
  1 <= m <= 12 -> check_date y m 28 = Ok t -> timestamp_ok t.
Proof.
  intros Hm H. unfold check_date in H.
  destruct (_ || _); [discriminate|].
  destruct (in_bounds _) eqn:E; [|discriminate]. injection H as <-.
  pose proof (days_in_month_ge_28 y m).
  repeat split; cbn [year month day]; try lia. exact E.
Qed.

(** X3.  Moving the dates of [crsp] to the 28th keeps the rows, their
    order, the entity and the return; it keeps the year and the month of
    every date and sets the day to 28; and doing it a second time changes
    nothing. *)
Theorem to_28th_keeps_month_and_is_idempotent (crsp crsp' : list crsp_row) :
  (forall r, In r crsp -> timestamp_ok (c_date r)) ->
  to_28th crsp = Ok crsp' ->
  Forall2 (fun r r' =>
    c_permno r' = c_permno r /\ c_ret r' = c_ret r
    /\ year (c_date r') = year (c_date r) /\ month (c_date r') = month (c_date r)
    /\ day (c_date r') = 28) crsp crsp'
  /\ to_28th crsp' = Ok crsp'.
Proof.
  intros Hok H. split.
  - apply to_28th_Ok in H as ->; [|exact Hok].
    clear Hok. induction crsp as [|r crsp IH]; simpl; constructor; [|exact IH].
    simpl. auto.
  - apply mapM_Ok in H. clear -H Hok.
    induction H as [|r r' crsp crsp' Hr _ IH]; [reflexivity|].
    apply bind_Ok in Hr as (d & Hd & [= <-]).
    assert (Hr : timestamp_ok (c_date r)) by (apply Hok; by left).
    rewrite to_datetime_strftime in Hd by exact Hr.
    pose proof (check_date_28_ok _ _ _ (proj1 Hr) Hd) as Hd'.
    pose proof Hd as Hd2. apply check_date_28 in Hd2 as ->.
    cbn [to_28th mapM c_date c_permno c_ret].
    rewrite to_datetime_strftime by exact Hd'. cbn [year month day].
    rewrite Hd. cbn [bind].
    unfold to_28th in IH. rewrite IH; [reflexivity|].
    intros x Hx. apply Hok. by right.
Qed.

Lemma to_28th_keeps_month_and_is_idempotent_witness :
  to_28th [mkCrsp 10006 (mkTimestamp 1980 1 28) (Q_of 21)]
  = Ok [mkCrsp 10006 (mkTimestamp 1980 1 28) (Q_of 21)].
Proof.
  apply (proj2 (to_28th_keeps_month_and_is_idempotent
           [mkCrsp 10006 (mkTimestamp 1980 1 31) (Q_of 21)]
           [mkCrsp 10006 (mkTimestamp 1980 1 28) (Q_of 21)]
           ltac:(intros c [<-|[]]; vm_compute; repeat split; discriminate)
           ltac:(vm_compute; reflexivity))).
Defined.

(** ** The download of the returns *)

Lemma ts_leb_iff (a b : Timestamp) :
  ts_leb a b = true
  <-> year a < year b
      \/ (year a = year b /\ (month a < month b \/ (month a = month b /\ day a <= day b))).
Proof.
  unfold ts_leb.
  rewrite !orb_true_iff, !andb_true_iff, !orb_true_iff, !andb_true_iff,
    !Z.ltb_lt, !Z.eqb_eq, !Z.leb_le. tauto.
Qed.

(** X4.  The returns the download cell asks for can always be moved to the
    28th: whatever valid dates the table holds, the query keeps the returns
    of 1980 to 1989 only, multiplied by 100 (a missing return stays
    missing), and the cell that follows does not raise on them and dates
    them between 1980-01-28 and 1989-12-28. *)
Theorem downloaded_returns_move_to_28th (msf : list crsp_row) :
  (forall r, In r msf -> 1 <= month (c_date r) <= 12
                         /\ 1 <= day (c_date r) <= days_in_month (year (c_date r)) (month (c_date r))) ->
  to_28th (download_crsp msf) = Ok (map on_28th (download_crsp msf))
  /\ forall c, In c (map on_28th (download_crsp msf)) ->
       ts_leb (mkTimestamp 1980 1 28) (c_date c) = true
       /\ ts_leb (c_date c) (mkTimestamp 1989 12 28) = true
       /\ exists r, In r msf /\ c_permno c = c_permno r
            /\ yyyymm_of (c_date c) = yyyymm_of (c_date r)
            /\ c_ret c = match c_ret r with Some x => Some (x * 100)%Q | None => None end.
Proof.
  intros Hvalid.
  assert (Hrows : forall c, In c (download_crsp msf) ->
            exists r, In r msf /\ c_permno c = c_permno r /\ c_date c = c_date r
              /\ c_ret c = match c_ret r with Some x => Some (x * 100)%Q | None => None end
              /\ 1980 <= year (c_date r) <= 1989).
  { intros c Hc. unfold download_crsp in Hc.
    apply in_map_iff in Hc as (r & <- & Hr). apply filter_In in Hr as [Hr Hd].
    exists r. repeat split; try assumption; try reflexivity;
      apply andb_true_iff in Hd as [H1 H2];
      apply ts_leb_iff in H1; apply ts_leb_iff in H2; simpl in *; lia. }
  split.
  - apply to_28th_total. intros c Hc.
    destruct (Hrows c Hc) as (r & Hr & _ & Hd & _ & Hy).
    destruct (Hvalid r Hr) as [Hm Hday]. rewrite Hd.
    split; [|unfold yyyymm_of; lia].
    split; [exact Hm|]. split; [exact Hday|].
    unfold in_bounds. apply andb_true_iff. rewrite !ts_leb_iff. simpl. lia.
  - intros c Hc. apply in_map_iff in Hc as (c0 & <- & Hc0).
    destruct (Hrows c0 Hc0) as (r & Hr & Hp & Hd & Hret & Hy).
    destruct (Hvalid r Hr) as [Hm _].
    rewrite !ts_leb_iff. unfold on_28th. cbn [c_date c_permno c_ret year month day].
    rewrite Hd. split; [lia|]. split; [lia|].
    exists r. repeat split; assumption.
Qed.

Lemma downloaded_returns_move_to_28th_witness :
  to_28th (download_crsp [mkCrsp 10006 (mkTimestamp 1980 1 31) (Q_of 1);
                          mkCrsp 10006 (mkTimestamp 1990 1 31) (Q_of 2)])
  = Ok [mkCrsp 10006 (mkTimestamp 1980 1 28) (Some (1 * 100)%Q)].
Proof.
  apply (proj1 (downloaded_returns_move_to_28th
           [mkCrsp 10006 (mkTimestamp 1980 1 31) (Q_of 1);
            mkCrsp 10006 (mkTimestamp 1990 1 31) (Q_of 2)]
           ltac:(intros c [<-|[<-|[]]]; vm_compute; repeat split; discriminate))).
Defined.

(** ** What the left join keeps *)

Lemma return_columns_join (c : crsp_row) (l : option signals_lag_row) :
  return_columns (join_row c l) = c.
Proof. by destruct c. Qed.

Lemma lag_key_match (l : signals_lag_row) (c : crsp_row) :
  (sl_permno l =? c_permno c) && ts_eqb (sl_date l) (c_date c) = true
  <-> lag_key l = (c_permno c, c_date c).
Proof.
  unfold lag_key. rewrite andb_true_iff, Z.eqb_eq, ts_eqb_eq.
  split; [intros [-> ->]; reflexivity | intros [= -> ->]; auto].
Qed.

(** X5.  The left join loses no return and invents none: every row of
    [crsp] is in [crsp_signals] with its entity, date and return, every
    row of [crsp_signals] is such a row, and a return that no signal row
    matches on entity and date is kept with all the signal columns
    missing. *)
Theorem left_join_keeps_every_return (crsp : list crsp_row)
    (sl : list signals_lag_row) :
  (forall c, In c crsp ->
     exists x, In x (merge_left crsp sl) /\ return_columns x = c
       /\ ((forall l, In l sl -> lag_key l <> (c_permno c, c_date c)) ->
           cs_yyyymm_signals x = None /\ cs_BM x = None /\ cs_AssetGrowth x = None))
  /\ (forall x, In x (merge_left crsp sl) -> In (return_columns x) crsp)
  /\ (length crsp <= length (merge_left crsp sl))%nat.
Proof.
  split; [|split].
  - intros c Hc. unfold merge_left.
    destruct (List.filter
                (fun r => (sl_permno r =? c_permno c) && ts_eqb (sl_date r) (c_date c)) sl)
      as [|l0 ls] eqn:E.
    + exists (join_row c None). split; [|split; [apply return_columns_join | auto]].
      apply in_flat_map. exists c. split; [exact Hc|]. rewrite E. by left.
    + exists (join_row c (Some l0)). split; [|split; [apply return_columns_join|]].
      * apply in_flat_map. exists c. split; [exact Hc|]. rewrite E. by left.
      * intros Hno. exfalso.
        assert (Hin : In l0 (List.filter
                  (fun r => (sl_permno r =? c_permno c) && ts_eqb (sl_date r) (c_date c)) sl))
          by (rewrite E; by left).
        apply filter_In in Hin as [Hl0 Hp]. apply (Hno l0 Hl0). by apply lag_key_match.
  - intros x Hx. apply in_flat_map in Hx as (c & Hc & Hx).
    destruct (List.filter _ sl) as [|l0 ls].
    + destruct Hx as [<-|[]]. by rewrite return_columns_join.
    + apply in_map_iff in Hx as (l & <- & _). by rewrite return_columns_join.
  - unfold merge_left. induction crsp as [|c crsp IH]; [simpl; lia|].
    cbn [flat_map]. rewrite length_app.
    destruct (List.filter _ sl) as [|l0 ls]; [|rewrite length_map]; cbn [length]; lia.
Qed.

Lemma NoDup_map_from {A B C} (f : A -> B) (g : A -> C) (l : list A) :
  (forall x y, In x l -> In y l -> g x = g y -> f x = f y) ->
  List.NoDup (map f l) -> List.NoDup (map g l).
Proof.
  induction l as [|a l IH]; simpl; intros Hinj Hnd; [constructor|].
  apply List.NoDup_cons_iff in Hnd as [Ha Hnd]. constructor.
  - intros Hin. apply in_map_iff in Hin as (y & Hy & Hyl).
    apply Ha. apply in_map_iff. exists y. split; [|exact Hyl].
    symmetry. apply Hinj; auto.
  - apply IH; auto.
Qed.

Lemma filter_unique_key (sl : list signals_lag_row) (c : crsp_row) :
  List.NoDup (map lag_key sl) ->
  (length (List.filter
     (fun r => Z.eqb (sl_permno r) (c_permno c) && ts_eqb (sl_date r) (c_date c)) sl) <= 1)%nat.
Proof.
  induction sl as [|l sl IH]; simpl; intros Hnd; [lia|].
  apply List.NoDup_cons_iff in Hnd as [Hl Hnd]. specialize (IH Hnd).
  destruct ((sl_permno l =? c_permno c) && ts_eqb (sl_date l) (c_date c)) eqn:E; [|lia].
  simpl. apply lag_key_match in E.
  rewrite filter_none; [simpl; lia|].
  intros l' Hl'. apply not_true_iff_false. intros E'. apply lag_key_match in E'.
  apply Hl. apply in_map_iff. exists l'. split; [congruence | exact Hl'].
Qed.

Lemma merge_left_unique (crsp : list crsp_row) (sl : list signals_lag_row) :
  List.NoDup (map lag_key sl) -> map return_columns (merge_left crsp sl) = crsp.
Proof.
  intros Hnd. unfold merge_left. induction crsp as [|c crsp IH]; [reflexivity|].
  cbn [flat_map]. rewrite map_app, IH. pose proof (filter_unique_key sl c Hnd) as Hle.
  destruct (List.filter _ sl) as [|l0 [|l1 ls]]; cbn [length map app] in *; [| |lia];
    by rewrite return_columns_join.
Qed.

Lemma lagged_keys_NoDup (signals : list signals_row) :
  (forall r, In r signals -> period_ok (yyyymm r)) ->
  List.NoDup (map signal_key signals) -> List.NoDup (map lag_key (map lagged signals)).
Proof.
  intros Hper Hnd. rewrite map_map. revert Hnd. apply NoDup_map_from.
  intros x y Hx Hy. unfold lag_key, lagged, signal_key, the_28th. simpl.
  intros [= Hp Hdy Hdm]. f_equal; [exact Hp|].
  assert (Hd : month_after (yyyymm x) = month_after (yyyymm y))
    by (Z.to_euclidean_division_equations; lia).
  apply (f_equal month_before) in Hd.
  rewrite !month_before_after in Hd; [exact Hd | apply Hper, Hy | apply Hper, Hx].
Qed.

(** X6.  On periods that are months the library can date: when no two
    rows of [signals] have the same entity and period, no two rows of
    [signals_lag] have the same entity and date, and the join gives
    exactly one row per return, in the order of [crsp]: no return is
    counted twice in the portfolios. *)
Theorem unique_signal_keys_one_row_per_return (signals : list signals_row)
    (crsp : list crsp_row) :
  (forall r, In r signals -> period_ok (yyyymm r)) ->
  (forall c, In c crsp -> crsp_date_ok (c_date c)) ->
  List.NoDup (map signal_key signals) ->
  exists sl cs,
    lag_signals signals = Ok sl /\ List.NoDup (map lag_key sl)
    /\ merge_cells signals crsp = Ok cs
    /\ map return_columns cs = map on_28th crsp /\ length cs = length crsp.
Proof.
  intros Hper Hok Hnd.
  pose proof (lagged_keys_NoDup signals Hper Hnd) as Hkeys.
  exists (map lagged signals), (merge_left (map on_28th crsp) (map lagged signals)).
  split; [by apply lag_signals_total|]. split; [exact Hkeys|].
  split; [by apply merge_cells_total|].
  assert (E : map return_columns (merge_left (map on_28th crsp) (map lagged signals))
              = map on_28th crsp) by by apply merge_left_unique.
  split; [exact E|].
  apply (f_equal (@length _)) in E. by rewrite !length_map in E.
Qed.

Lemma unique_signal_keys_one_row_per_return_witness :
  exists sl cs,
    lag_signals [mkSignals 10006 197912 (Q_of 1) (Q_of 2);
                 mkSignals 10006 198001 (Q_of 3) None;
                 mkSignals 10007 197912 (Q_of 4) None] = Ok sl
    /\ List.NoDup (map lag_key sl)
    /\ merge_cells [mkSignals 10006 197912 (Q_of 1) (Q_of 2);
                    mkSignals 10006 198001 (Q_of 3) None;
                    mkSignals 10007 197912 (Q_of 4) None]
         [mkCrsp 10006 (mkTimestamp 1980 1 31) (Q_of 21);
          mkCrsp 10007 (mkTimestamp 1980 1 31) (Q_of 22);
          mkCrsp 10006 (mkTimestamp 1980 2 29) (Q_of 23)] = Ok cs
    /\ map return_columns cs
       = map on_28th [mkCrsp 10006 (mkTimestamp 1980 1 31) (Q_of 21);
                      mkCrsp 10007 (mkTimestamp 1980 1 31) (Q_of 22);
                      mkCrsp 10006 (mkTimestamp 1980 2 29) (Q_of 23)]
    /\ length cs = 3%nat.
Proof.
  apply (unique_signal_keys_one_row_per_return
           [mkSignals 10006 197912 (Q_of 1) (Q_of 2);
            mkSignals 10006 198001 (Q_of 3) None;
            mkSignals 10007 197912 (Q_of 4) None]
           [mkCrsp 10006 (mkTimestamp 1980 1 31) (Q_of 21);
            mkCrsp 10007 (mkTimestamp 1980 1 31) (Q_of 22);
            mkCrsp 10006 (mkTimestamp 1980 2 29) (Q_of 23)]).
  - intros r [<-|[<-|[<-|[]]]]; vm_compute; repeat split; discriminate.
  - intros c [<-|[<-|[<-|[]]]]; vm_compute; repeat split; discriminate.
  - vm_compute. repeat constructor; simpl; intuition discriminate.
Defined.

(** Without the months: the periods 19879 and 198709 of one entity are two
    keys and one date, and the return of October 1987 is joined twice. *)
Example short_period_joins_a_return_twice :
  merge_cells [mkSignals 10001 19879 (Q_of 1) None; mkSignals 10001 198709 (Q_of 2) None]
    [mkCrsp 10001 (mkTimestamp 1987 10 30) (Q_of 5)]
  = Ok [mkCrspSignals 10001 (mkTimestamp 1987 10 28) (Q_of 5) (Some 19879) (Q_of 1) None;
        mkCrspSignals 10001 (mkTimestamp 1987 10 28) (Q_of 5) (Some 198709) (Q_of 2) None].
Proof. vm_compute. reflexivity. Qed.

(** ** The order of the groups *)

Lemma searchsorted_left_mono (bins : list float) (v1 v2 : Q) :
  (v1 <= v2)%Q -> searchsorted_left bins (Some v1) <= searchsorted_left bins (Some v2).
Proof.
  intros Hv. induction bins as [|b bins IH]; simpl; [lia|].
  destruct b as [b|]; simpl; [|lia].
  destruct (Qle_bool v1 b) eqn:E1; simpl.
  - pose proof (searchsorted_left_range bins (Some v2)). destruct (Qle_bool v2 b); simpl; lia.
  - replace (Qle_bool v2 b) with false; [simpl; lia|].
    symmetry. apply not_true_iff_false. intros E2.
    apply not_true_iff_false in E1. apply E1.
    apply Qle_bool_iff. apply Qle_bool_iff in E2. lra.
Qed.

Section LabelOrder.
Context (n : Z) (lo hi : Q) (bins : list float) (b0 : float).
Hypothesis n_pos : 1 <= n.
Hypothesis span : edges_span n lo hi bins.
Hypothesis bins_head : head bins = Some b0.

(** A larger value never gets a smaller code. *)
Lemma cut_id_mono (v1 v2 : Q) :
  (lo <= v1)%Q -> (v1 <= v2)%Q -> (v2 <= hi)%Q ->
  cut_id bins b0 (Some v1) <= cut_id bins b0 (Some v2).
Proof.
  intros H1 H12 H2.
  pose proof (cut_id_range n lo hi bins b0 n_pos span bins_head v2 ltac:(lra)) as Hr2.
  unfold cut_id in *.
  destruct (span_head n lo hi bins b0 span bins_head) as (q0 & -> & Hq0).
  destruct (float_eqb (Some v1) (Some q0)) eqn:E1; [lia|].
  destruct (float_eqb (Some v2) (Some q0)) eqn:E2.
  - exfalso. simpl in E1, E2. apply Qeq_bool_iff in E2.
    apply not_true_iff_false in E1. apply E1, Qeq_bool_iff. lra.
  - by apply searchsorted_left_mono.
Qed.

End LabelOrder.

(** The edges and the label of a value of a series that has one. *)
Lemma series_label_id (x : list float) (n : Z) (v : Q) :
  1 <= n -> In (Some v) x ->
  exists lo hi b0,
    edges_span n lo hi (qcut_edges x n) /\ head (qcut_edges x n) = Some b0
    /\ (lo <= v <= hi)%Q
    /\ series_label x n (Some v) = Some (cut_id (qcut_edges x n) b0 (Some v)).
Proof.
  intros Hn Hv.
  destruct (series_min_max_Some _ _ Hv) as (lo & hi & Hlo & Hhi).
  pose proof (qcut_edges_span x n lo hi Hn Hlo Hhi) as Hspan.
  assert (Hb : (lo <= v <= hi)%Q)
    by (split; [eapply series_min_le | eapply series_max_ge]; eauto).
  unfold series_label.
  destruct (qcut_edges x n) as [|b0 rest] eqn:E.
  { pose proof (span_length _ _ _ _ Hspan). simpl in *. lia. }
  exists lo, hi, b0. repeat split; try apply Hspan; try apply Hb.
  by apply (cut_label_id n lo hi (b0 :: rest) b0).
Qed.

Lemma edges_span_unique (n : Z) (lo hi lo' hi' : Q) (bins : list float) :
  0 <= n -> edges_span n lo hi bins -> edges_span n lo' hi' bins ->
  (lo == lo')%Q /\ (hi == hi')%Q.
Proof.
  intros Hn S1 S2.
  destruct (span_first _ _ _ _ S1) as (a & Ha & Ea).
  destruct (span_first _ _ _ _ S2) as (a' & Ha' & Ea').
  destruct (span_last _ _ _ _ S1) as (b & Hb & Eb).
  destruct (span_last _ _ _ _ S2) as (b' & Hb' & Eb').
  assert (a' = a) by congruence. assert (b' = b) by congruence. subst. split; lra.
Qed.

(** X7.  Within a date the groups follow the signal: of two entities, the
    one with the larger signal value is never in a lower group, and two
    entities with the same signal value are in the same group (a tie is
    never split between two groups). *)
Theorem groups_follow_the_signal (cs : list crsp_signals_row) (s : signal_name)
    (n : Z) (o : cell_output) (r1 r2 : temp_row) (v1 v2 : Q) :
  1 <= n -> portfolio_sort cs s n = Ok o ->
  In r1 (out_temp o) -> In r2 (out_temp o) ->
  date (t_obs r1) = date (t_obs r2) ->
  signal (t_obs r1) = Some v1 -> signal (t_obs r2) = Some v2 ->
  (v1 <= v2)%Q ->
  exists g1 g2, port r1 = Some g1 /\ port r2 = Some g2 /\ g1 <= g2
    /\ ((v1 == v2)%Q -> g1 = g2).
Proof.
  intros Hn H H1 H2 Hd Hs1 Hs2 Hv.
  apply portfolio_sort_Ok in H as (Ht & _); [|lia]. rewrite Ht in H1, H2.
  apply in_map_iff in H1 as (a & <- & Ha). apply in_map_iff in H2 as (b & <- & Hb).
  simpl in *. unfold port_of. rewrite <- Hd, Hs1, Hs2.
  set (x := period_signals (select_columns s cs) (date a)).
  assert (Hx1 : In (Some v1) x) by (rewrite <- Hs1; by apply period_signals_In).
  assert (Hx2 : In (Some v2) x).
  { rewrite <- Hs2. unfold x. rewrite Hd. by apply period_signals_In. }
  destruct (series_label_id x n v1 Hn Hx1) as (lo & hi & b0 & Hspan & Hhead & Hb1 & ->).
  destruct (series_label_id x n v2 Hn Hx2) as (lo' & hi' & b0' & Hspan' & Hhead' & Hb2 & ->).
  assert (b0' = b0) as -> by congruence.
  destruct (edges_span_unique n lo hi lo' hi' _ ltac:(lia) Hspan Hspan') as [Elo Ehi].
  eexists _, _. split; [reflexivity|]. split; [reflexivity|]. split.
  - apply (cut_id_mono n lo hi _ b0 Hn Hspan Hhead); lra.
  - intros Heq. apply Z.le_antisymm.
    + apply (cut_id_mono n lo hi _ b0 Hn Hspan Hhead); lra.
    + apply (cut_id_mono n lo hi _ b0 Hn Hspan Hhead); lra.
Qed.

Lemma groups_follow_the_signal_witness :
  exists o r1 r2, portfolio_sort three_entities BM_name 5 = Ok o
    /\ exists g1 g2, port r1 = Some g1 /\ port r2 = Some g2 /\ g1 <= g2
         /\ ((1 == 2)%Q -> g1 = g2).
Proof.
  destruct (portfolio_sort three_entities BM_name 5) as [o|e] eqn:E.
  - pose proof (portfolio_sort_Ok three_entities BM_name 5 o ltac:(lia) E) as (Ht & _).
    exists o,
      (mkTemp (mkObs 1 d8001 (Q_of 1) (Q_of 1))
         (port_of (select_columns BM_name three_entities) 5 (mkObs 1 d8001 (Q_of 1) (Q_of 1)))),
      (mkTemp (mkObs 2 d8001 (Q_of 2) (Q_of 2))
         (port_of (select_columns BM_name three_entities) 5 (mkObs 2 d8001 (Q_of 2) (Q_of 2)))).
    split; [reflexivity|].
    apply (groups_follow_the_signal three_entities BM_name 5 o _ _ 1%Q 2%Q);
      [lia | exact E | rewrite Ht; simpl; auto | rewrite Ht; simpl; auto 10
       | reflexivity | reflexivity | reflexivity | vm_compute; discriminate].
  - vm_compute in E. discriminate E.
Defined.

(** X9.  With two groups or more, the edges of every date of a run that
    raises nothing are strictly increasing; there are [n + 1] of them, the
    first is the smallest signal value of the date and the last the
    largest. *)
Theorem edges_strictly_increase (cs : list crsp_signals_row) (s : signal_name)
    (n : Z) (o : cell_output) (d : Timestamp) :
  2 <= n -> portfolio_sort cs s n = Ok o -> In d (map cs_date cs) ->
  let x := period_signals (select_columns s cs) d in
  (exists lo hi, series_min x = Some lo /\ series_max x = Some hi
     /\ edges_span n lo hi (qcut_edges x n))
  /\ forall i j ei ej, (i < j)%nat ->
       nth_error (qcut_edges x n) i = Some (Some ei) ->
       nth_error (qcut_edges x n) j = Some (Some ej) -> (ei < ej)%Q.
Proof.
  intros Hn H Hd x.
  assert (Hd' : In d (map date (select_columns s cs))).
  { unfold select_columns. by rewrite map_map. }
  assert (Hc : edges_collide x n = false).
  { destruct (portfolio_sort_ge2 cs s n Hn) as [[_ Hraise]|[Hall _]];
      [congruence | by apply Hall]. }
  split.
  - destruct (period_has_value (select_columns s cs) n d ltac:(lia) Hc)
      as (lo & hi & Hlo & Hhi).
    exists lo, hi. split; [exact Hlo|]. split; [exact Hhi|].
    apply qcut_edges_span; [lia|assumption..].
  - intros i j ei ej Hij Hi Hj.
    pose proof (qcut_edges_sorted x n i j ei ej ltac:(lia) ltac:(lia) Hi Hj) as Hle.
    pose proof (all_different_lookup _ _ i j _ _ (edges_collide_false x n Hc) Hij Hi Hj)
      as Hne.
    simpl in Hne. apply Qle_lt_or_eq in Hle as [Hlt|Heq]; [exact Hlt|].
    apply Qeq_bool_iff in Heq. congruence.
Qed.

Lemma edges_strictly_increase_witness :
  exists o, portfolio_sort three_entities BM_name 2 = Ok o
    /\ forall i j ei ej, (i < j)%nat ->
         nth_error (qcut_edges (period_signals (select_columns BM_name three_entities)
                                  d8001) 2) i = Some (Some ei) ->
         nth_error (qcut_edges (period_signals (select_columns BM_name three_entities)
                                  d8001) 2) j = Some (Some ej) -> (ei < ej)%Q.
Proof.
  destruct (portfolio_sort three_entities BM_name 2) as [o|e] eqn:E.
  - exists o. split; [reflexivity|].
    apply (edges_strictly_increase three_entities BM_name 2 o d8001);
      [lia | exact E | simpl; auto].
  - vm_compute in E. discriminate E.
Defined.

(** ** The returns of the groups *)

Lemma Qsum_squares_nonneg (m : Q) (l : list Q) :
  (0 <= Qsum (map (fun x => (x - m) * (x - m)) l))%Q.
Proof.
  induction l as [|a l IH]; simpl; [lra|].
  assert (0 <= (a - m) * (a - m))%Q.
  { destruct (Qlt_le_dec (a - m) 0) as [Hneg|Hpos].
    - assert (E : ((a - m) * (a - m) == (m - a) * (m - a))%Q) by ring.
      rewrite E. apply Qmult_le_0_compat; lra.
    - by apply Qmult_le_0_compat. }
  lra.
Qed.

Lemma var_None (l : list float) : var l = None <-> (length (dropna l) < 2)%nat.
Proof.
  unfold var. destruct (dropna l) as [|a [|b t]]; simpl; split;
    try congruence; try lia.
Qed.

Lemma var_nonneg (l : list float) (v : Q) : var l = Some v -> (0 <= v)%Q.
Proof.
  unfold var. destruct (dropna l) as [|a [|b t]] eqn:E; try discriminate.
  intros [= <-]. set (m := (Qsum (a :: b :: t) / Qlen (a :: b :: t))%Q).
  pose proof (Qsum_squares_nonneg m (a :: b :: t)) as Hs.
  assert (Hl : (0 < Qlen (a :: b :: t) - 1)%Q).
  { unfold Qlen. cbn [length]. rewrite !Nat2Z.inj_succ.
    change 1%Q with (inject_Z 1). unfold Qminus.
    rewrite <- inject_Z_opp, <- inject_Z_plus. change 0%Q with (inject_Z 0).
    rewrite <- Zlt_Qlt. lia. }
  apply Qle_shift_div_l; [exact Hl|]. rewrite Qmult_0_l. exact Hs.
Qed.


Lemma mean_formula (l : list float) :
  mean l = match dropna l with
           | [] => None
           | _ :: _ => Some (Qsum (dropna l) / Qlen (dropna l))%Q
           end.
Proof. unfold mean. by destruct (dropna l). Qed.



(** X11.  In a run that raises nothing on an input with a row,
    [port_summary] has a row for every group, whose mean return is the
    plain average of the per-date mean returns of the group: the sum of
    those present divided by their number, each date counting once
    whatever its [nstock], and a date on which the group has no return
    left out.  The variance behind the standard deviation is that of the
    same per-date means: missing exactly when fewer than two dates have a
    return, and never negative. *)
Theorem summary_return_skips_empty_dates (cs : list crsp_signals_row)
    (s : signal_name) (n : Z) (o : cell_output) (g : Z) :
  0 <= n -> portfolio_sort cs s n = Ok o -> cs <> [] -> 1 <= g <= n ->
  let per_date := map (fun d => p_ret (port_row_of (out_temp o) d g))
                    (group_keys (map cs_date cs)) in
  let present := dropna per_date in
  exists sr, In sr (out_summary o) /\ s_port sr = g
    /\ ret_mean sr = match present with
                     | [] => None
                     | _ :: _ => Some (Qsum present / Qlen present)%Q
                     end
    /\ ret_var sr = var per_date
    /\ (ret_var sr = None <-> (length present < 2)%nat)
    /\ (forall v, ret_var sr = Some v -> (0 <= v)%Q).
Proof.
  intros Hn H Hne Hg per_date present.
  apply portfolio_sort_Ok in H as (Ht & Hp & Hs & _); [|exact Hn]. cbv zeta in *.
  assert (Hdates : map (fun r => date (t_obs r)) (out_temp o) = map cs_date cs)
    by (rewrite Ht; apply cell_temp_dates).
  assert (Hcat : In g (cell_categories (select_columns s cs) n)).
  { apply cell_categories_In. split; [|exact Hg]. by apply dates_nonempty; destruct cs. }
  pose proof (cell_categories_NoDup (select_columns s cs) n) as Hnd.
  eexists. split.
  { rewrite Hs. unfold port_summary. apply in_map_iff. exists g. split; [reflexivity|exact Hcat]. }
  cbn [s_port ret_mean ret_var].
  rewrite Hp, filter_port_table, Hdates, !map_map by assumption.
  fold per_date.
  split; [reflexivity|]. split; [apply mean_formula|]. split; [reflexivity|].
  split; [apply var_None | apply var_nonneg].
Qed.

Lemma summary_return_skips_empty_dates_witness :
  exists o sr, portfolio_sort three_entities BM_name 5 = Ok o
    /\ In sr (out_summary o) /\ s_port sr = 3
    /\ ret_mean sr = Some (2 / 1)%Q /\ ret_var sr = None.
Proof.
  destruct (portfolio_sort three_entities BM_name 5) as [o|e] eqn:E;
    [|vm_compute in E; discriminate E].
  destruct (summary_return_skips_empty_dates three_entities BM_name 5 o 3
              ltac:(lia) E ltac:(discriminate) ltac:(lia))
    as (sr & Hsr & Hg & Hm & _ & Hv & _).
  exists o, sr. split; [reflexivity|]. split; [exact Hsr|]. split; [exact Hg|].
  vm_compute in E. injection E as <-. split; [exact Hm|].
  apply Hv. vm_compute. lia.
Defined.

(** ** What a run leaves under the names of the notebook *)

Lemma value_of_Some (nb : notebook) (name : string) (l : loc) (o : pyobj) :
  globals nb !! name = Some l -> heap nb !! l = Some o -> value_of nb name = Some o.
Proof. intros Hg Hh. unfold value_of. by rewrite Hg. Qed.

Lemma value_of_kept (nb nb' : notebook) (name : string) :
  no_dangling nb ->
  (forall l o, heap nb !! l = Some o -> heap nb' !! l = Some o) ->
  globals nb' !! name = globals nb !! name ->
  value_of nb' name = value_of nb name.
Proof.
  intros Hwf Hh Hg. unfold value_of. rewrite Hg.
  destruct (globals nb !! name) as [l|] eqn:E; [|reflexivity].
  destruct (Hwf name l E) as (o & Ho). rewrite Ho. by apply Hh.
Qed.

(** The state after the cell, name by name. *)
Lemma run_cell_state (n : Z) (s : signal_name) (nb : notebook) (cs : list crsp_signals_row) :
  no_dangling nb -> crsp_signals_of nb = Some cs ->
  exists nb',
    run_cell n s nb = (nb', summarize cs s n)
    /\ (forall l o, heap nb !! l = Some o -> heap nb' !! l = Some o)
    /\ value_of nb' "n" = Some (PyInt n)
    /\ value_of nb' "signalname" = Some (PyStr s)
    /\ match transform_qcut (select_columns s cs) n with
       | Ok c =>
           let port := port_table (categories c) (set_port (select_columns s cs) c) in
           value_of nb' "temp" = Some (DfTemp (select_columns s cs) (Some c))
           /\ value_of nb' "port" = Some (DfPort (categories c) port)
           /\ value_of nb' "port_summary"
              = Some (DfSummary (port_summary (categories c) port))
       | Raise e =>
           value_of nb' "temp" = Some (DfTemp (select_columns s cs) None)
           /\ globals nb' !! "port" = globals nb !! "port"
           /\ globals nb' !! "port_summary" = globals nb !! "port_summary"
       end.
Proof.
  intros Hwf Hcs. destruct nb as [h g]. unfold crsp_signals_of in Hcs. simpl in *.
  destruct (g !! "crsp_signals") as [lcs|] eqn:Hg; [|discriminate].
  destruct (h !! lcs) as [[| |rows| | |]|] eqn:Hh; try discriminate. injection Hcs as ->.
  unfold run_cell.
  unfold sbind at 1, alloc at 1. cbn [heap globals].
  unfold sbind at 1, assign at 1. cbn [heap globals].
  unfold sbind at 1, alloc at 1. cbn [heap globals].
  unfold sbind at 1, assign at 1. cbn [heap globals].
  set (l1 := fresh (dom h)). set (h1 := <[l1 := PyInt n]> h).
  set (l2 := fresh (dom h1)). set (h2 := <[l2 := PyStr s]> h1).
  set (g2 := <["signalname":=l2]> (<["n":=l1]> g)).
  assert (F1 : forall l o, h !! l = Some o -> h1 !! l = Some o)
    by (intros l o; apply alloc_keeps).
  assert (F2 : forall l o, h1 !! l = Some o -> h2 !! l = Some o)
    by (intros l o; apply alloc_keeps).
  assert (H1 : h1 !! l1 = Some (PyInt n)) by apply lookup_insert_eq.
  assert (H2 : h2 !! l2 = Some (PyStr s)) by apply lookup_insert_eq.
  unfold sbind at 1.
  rewrite (stmt_temp_spec (mkNotebook h2 g2) lcs l2 cs s);
    [|by subst g2; simplify_map_eq | cbn; eauto | by subst g2; simplify_map_eq | exact H2].
  cbn [heap globals].
  set (t := DfTemp (select_columns s cs) None).
  set (l3 := fresh (dom h2)). set (h3 := <[l3 := t]> h2).
  set (l4 := fresh (dom h3)). set (h4 := <[l4 := t]> h3).
  set (g4 := <["temp":=l4]> g2).
  assert (F3 : forall l o, h2 !! l = Some o -> h3 !! l = Some o)
    by (intros l o; apply alloc_keeps).
  assert (F4 : forall l o, h3 !! l = Some o -> h4 !! l = Some o)
    by (intros l o; apply alloc_keeps).
  assert (H4 : h4 !! l4 = Some t) by apply lookup_insert_eq.
  assert (Gn : g4 !! "n" = Some l1) by (subst g4 g2; by simplify_map_eq).
  assert (Gs : g4 !! "signalname" = Some l2) by (subst g4 g2; by simplify_map_eq).
  assert (Gt : g4 !! "temp" = Some l4) by (subst g4; by simplify_map_eq).
  unfold sbind at 1.
  rewrite (stmt_set_port_spec (mkNotebook h4 g4) l4 l1 (select_columns s cs) None n);
    [|exact Gt | exact H4 | exact Gn | cbn; eauto ].
  cbn [heap globals]. unfold summarize, portfolio_sort.
  destruct (transform_qcut (select_columns s cs) n) as [c|e] eqn:E.
  - set (h5 := <[l4 := DfTemp (select_columns s cs) (Some c)]> h4).
    assert (N5 : forall l o, h3 !! l = Some o -> h5 !! l = Some o).
    { intros l o Hl. subst h5. rewrite lookup_insert_ne; [eauto|].
      eapply fresh_ne. eauto. }
    unfold sbind at 1.
    rewrite (stmt_port_spec (mkNotebook h5 g4) l4 (select_columns s cs) c);
      [|exact Gt | apply lookup_insert_eq].
    cbn [heap globals].
    set (l6 := fresh (dom h5)).
    set (pt := port_table (categories c) (set_port (select_columns s cs) c)).
    set (h6 := <[l6 := DfPort (categories c) pt]> h5).
    unfold sbind at 1.
    rewrite (stmt_port_summary_spec (mkNotebook h6 (<["port":=l6]> g4)) l6 (categories c) pt);
      [|by simplify_map_eq | apply lookup_insert_eq].
    cbn [heap globals].
    set (l7 := fresh (dom h6)).
    set (sm := port_summary (categories c) pt).
    set (h7 := <[l7 := DfSummary sm]> h6).
    rewrite (stmt_display_spec _ l7 sm); [|by simplify_map_eq | apply lookup_insert_eq].
    assert (F7 : forall l o, h5 !! l = Some o -> h7 !! l = Some o).
    { intros l o Hl. subst h7 h6. by do 2 apply alloc_keeps. }
    eexists. split; [reflexivity|]. cbn zeta. repeat split.
    + intros l o Hl. cbn [heap]. apply F7, N5. eauto.
    + eapply value_of_Some; cbn [heap globals]; [by simplify_map_eq|]. apply F7, N5. eauto.
    + eapply value_of_Some; cbn [heap globals]; [by simplify_map_eq|]. apply F7, N5. eauto.
    + eapply value_of_Some; cbn [heap globals]; [by simplify_map_eq|].
      apply F7. subst h5. apply lookup_insert_eq.
    + eapply value_of_Some; cbn [heap globals]; [by simplify_map_eq|].
      subst h7 h6. apply alloc_keeps. apply lookup_insert_eq.
    + eapply value_of_Some; cbn [heap globals]; [by simplify_map_eq|].
      subst h7. apply lookup_insert_eq.
  - eexists. split; [reflexivity|]. repeat split.
    + intros l o Hl. cbn [heap]. eauto.
    + eapply value_of_Some; cbn [heap globals]; [exact Gn | eauto].
    + eapply value_of_Some; cbn [heap globals]; [exact Gs | eauto].
    + eapply value_of_Some; cbn [heap globals]; [exact Gt | eauto].
    + cbn [globals]. subst g4 g2. by simplify_map_eq.
    + cbn [globals]. subst g4 g2. by simplify_map_eq.
Qed.

Lemma summarize_Ok (cs : list crsp_signals_row) (s : signal_name) (n : Z)
    (t : list summary_row) :
  summarize cs s n = Ok t ->
  exists c, transform_qcut (select_columns s cs) n = Ok c
    /\ portfolio_sort cs s n
       = Ok (mkOutput (set_port (select_columns s cs) c)
               (port_table (categories c) (set_port (select_columns s cs) c))
               (port_summary (categories c)
                  (port_table (categories c) (set_port (select_columns s cs) c))))
    /\ t = port_summary (categories c)
             (port_table (categories c) (set_port (select_columns s cs) c)).
Proof.
  unfold summarize, portfolio_sort.
  destruct (transform_qcut (select_columns s cs) n) as [c|e]; simpl; [|discriminate].
  intros [= <-]. eauto.
Qed.

Lemma summarize_Raise (cs : list crsp_signals_row) (s : signal_name) (n : Z) (e : error) :
  summarize cs s n = Raise e -> transform_qcut (select_columns s cs) n = Raise e.
Proof.
  unfold summarize, portfolio_sort.
  destruct (transform_qcut (select_columns s cs) n) as [c|e']; simpl; congruence.
Qed.

(** X12.  After a run of the cell that raises nothing, the results stay in
    the notebook under the names of the cell: [temp] is the copy with its
    [port] column, [port] the table per date and group, [port_summary] the
    table displayed, and [n] and [signalname] the two settings. *)
Theorem results_stay_under_their_names (n : Z) (s : signal_name) (nb : notebook)
    (cs : list crsp_signals_row) (o : cell_output) :
  no_dangling nb -> crsp_signals_of nb = Some cs -> portfolio_sort cs s n = Ok o ->
  let nb' := fst (run_cell n s nb) in
  value_of nb' "n" = Some (PyInt n)
  /\ value_of nb' "signalname" = Some (PyStr s)
  /\ (exists c, value_of nb' "temp" = Some (DfTemp (select_columns s cs) (Some c))
        /\ set_port (select_columns s cs) c = out_temp o
        /\ value_of nb' "port" = Some (DfPort (categories c) (out_port o)))
  /\ value_of nb' "port_summary" = Some (DfSummary (out_summary o))
  /\ stmt_display nb' = (nb', Ok (out_summary o)).
Proof.
  intros Hwf Hcs Ho nb'. subst nb'.
  destruct (run_cell_state n s nb cs Hwf Hcs) as (nb1 & E1 & _ & Hn & Hs & Hst).
  rewrite E1. cbn [fst].
  assert (Hsum : summarize cs s n = Ok (out_summary o))
    by (unfold summarize; by rewrite Ho).
  apply summarize_Ok in Hsum as (c & Hc & Hp & Hsm).
  rewrite Hc in Hst. cbv zeta in Hst. destruct Hst as (Ht & Hpt & Hps).
  rewrite Ho in Hp. injection Hp as ->. cbn [out_temp out_port out_summary] in *.
  split; [exact Hn|]. split; [exact Hs|]. split; [eauto|]. split; [exact Hps|].
  unfold value_of in Hps.
  destruct (globals nb1 !! "port_summary") as [l|] eqn:El; [|discriminate].
  by apply (stmt_display_spec nb1 l).
Qed.

Lemma results_stay_under_their_names_witness :
  exists o, portfolio_sort three_entities BM_name 2 = Ok o
    /\ value_of (fst (run_cell 2 BM_name (notebook_with three_entities))) "port_summary"
       = Some (DfSummary (out_summary o)).
Proof.
  destruct (portfolio_sort three_entities BM_name 2) as [o|e] eqn:E.
  - exists o. split; [reflexivity|].
    apply (results_stay_under_their_names 2 BM_name (notebook_with three_entities)
             three_entities o (no_dangling_notebook_with _) eq_refl E).
  - vm_compute in E. discriminate E.
Defined.

(** X13.  A run of the cell that raises in [qcut] has already rebound [n],
    [signalname] and [temp] (a copy without the [port] column), and leaves
    [port] and [port_summary] as they were: the tables of an earlier run
    stay in the notebook, and no object is changed. *)
Theorem failed_run_keeps_previous_tables (n : Z) (s : signal_name) (nb : notebook)
    (cs : list crsp_signals_row) (e : error) :
  no_dangling nb -> crsp_signals_of nb = Some cs -> summarize cs s n = Raise e ->
  let nb' := fst (run_cell n s nb) in
  snd (run_cell n s nb) = Raise e
  /\ value_of nb' "n" = Some (PyInt n)
  /\ value_of nb' "signalname" = Some (PyStr s)
  /\ value_of nb' "temp" = Some (DfTemp (select_columns s cs) None)
  /\ value_of nb' "port" = value_of nb "port"
  /\ value_of nb' "port_summary" = value_of nb "port_summary".
Proof.
  intros Hwf Hcs He nb'. subst nb'.
  destruct (run_cell_state n s nb cs Hwf Hcs) as (nb1 & E1 & Hh & Hn & Hs & Hst).
  rewrite E1. cbn [fst snd].
  rewrite (summarize_Raise _ _ _ _ He) in Hst. destruct Hst as (Ht & Hp & Hps).
  split; [exact He|]. split; [exact Hn|]. split; [exact Hs|]. split; [exact Ht|].
  split; by apply value_of_kept.
Qed.

Lemma failed_run_keeps_previous_tables_witness :
  let nb := notebook_with three_entities in
  let nb' := fst (run_cell 2 AssetGrowth_name nb) in
  snd (run_cell 2 AssetGrowth_name nb) = Raise ValueError_bin_edges
  /\ value_of nb' "n" = Some (PyInt 2)
  /\ value_of nb' "signalname" = Some (PyStr AssetGrowth_name)
  /\ value_of nb' "temp" = Some (DfTemp (select_columns AssetGrowth_name three_entities) None)
  /\ value_of nb' "port" = value_of nb "port"
  /\ value_of nb' "port_summary" = value_of nb "port_summary".
Proof.
  intros nb.
  apply (failed_run_keeps_previous_tables 2 AssetGrowth_name nb three_entities
           ValueError_bin_edges (no_dangling_notebook_with _) eq_refl).
  vm_compute. reflexivity.
Defined.

(** X14.  When the cell runs through for one signal and is then run for
    another signal (or another number of groups) and raises, the notebook
    still shows the table of the first run under [port_summary], next to
    the [signalname] of the second. *)
Theorem stale_table_after_failed_run (n1 n2 : Z) (s1 s2 : signal_name) (nb : notebook)
    (cs : list crsp_signals_row) (t1 : list summary_row) (e : error) :
  no_dangling nb -> crsp_signals_of nb = Some cs ->
  summarize cs s1 n1 = Ok t1 -> summarize cs s2 n2 = Raise e ->
  let nb1 := fst (run_cell n1 s1 nb) in
  let nb2 := fst (run_cell n2 s2 nb1) in
  snd (run_cell n1 s1 nb) = Ok t1
  /\ snd (run_cell n2 s2 nb1) = Raise e
  /\ value_of nb2 "signalname" = Some (PyStr s2)
  /\ value_of nb2 "port_summary" = Some (DfSummary t1)
  /\ stmt_display nb2 = (nb2, Ok t1).
Proof.
  intros Hwf Hcs H1 H2 nb1 nb2. subst nb2 nb1.
  destruct (run_cell_spec n1 s1 nb cs Hwf Hcs) as (nb1' & E1' & Fr1).
  destruct (run_cell_state n1 s1 nb cs Hwf Hcs) as (nb1 & E1 & Hh1 & _ & _ & Hst1).
  assert (nb1' = nb1) as -> by congruence. clear E1'.
  destruct (frame_crsp_signals_of nb nb1 Hwf Fr1) as (Hcs1 & _ & Hwf1).
  rewrite Hcs in Hcs1.
  destruct (run_cell_state n2 s2 nb1 cs Hwf1 Hcs1) as (nb2 & E2 & Hh2 & _ & Hs2 & Hst2).
  rewrite E1. cbn [fst snd]. rewrite E2. cbn [fst snd].
  apply summarize_Ok in H1 as Hc. destruct Hc as (c & Hc & _ & ->).
  rewrite Hc in Hst1. cbv zeta in Hst1. destruct Hst1 as (_ & _ & Hps1).
  rewrite (summarize_Raise _ _ _ _ H2) in Hst2. destruct Hst2 as (_ & _ & Hps2).
  assert (Hv : value_of nb2 "port_summary"
               = Some (DfSummary (port_summary (categories c)
                    (port_table (categories c) (set_port (select_columns s1 cs) c))))).
  { rewrite <- Hps1. by apply value_of_kept. }
  split; [exact H1|]. split; [exact H2|]. split; [exact Hs2|]. split; [exact Hv|].
  unfold value_of in Hv.
  destruct (globals nb2 !! "port_summary") as [l|] eqn:El; [|discriminate].
  by apply (stmt_display_spec nb2 l).
Qed.

Lemma stale_table_after_failed_run_witness :
  exists t1,
    summarize three_entities BM_name 2 = Ok t1
    /\ stmt_display (fst (run_cell 2 AssetGrowth_name
                            (fst (run_cell 2 BM_name (notebook_with three_entities)))))
       = (fst (run_cell 2 AssetGrowth_name
                 (fst (run_cell 2 BM_name (notebook_with three_entities)))), Ok t1).
Proof.
  destruct (summarize three_entities BM_name 2) as [t1|e] eqn:E.
  - exists t1. split; [reflexivity|].
    apply (stale_table_after_failed_run 2 2 BM_name AssetGrowth_name
             (notebook_with three_entities) three_entities t1 ValueError_bin_edges
             (no_dangling_notebook_with _) eq_refl E).
    vm_compute. reflexivity.
  - vm_compute in E. discriminate E.
Defined.

(** ** Comparing the signed and the unsigned signals *)

Lemma all_different_filter {A} (eqb : A -> A -> bool) (p : A -> bool) (l : list A) :
  all_different eqb l -> all_different eqb (List.filter p l).
Proof.
  induction 1 as [|x l Hx Hl IH]; simpl; [constructor|].
  destruct (p x); [|exact IH]. constructor; [|exact IH].
  apply List.Forall_forall. intros y Hy. apply filter_In in Hy as [Hy _].
  by apply (proj1 (List.Forall_forall _ _) Hx).
Qed.

Lemma unique_all_different {A} (eqb : A -> A -> bool) (l : list A) :
  all_different eqb (unique eqb l).
Proof.
  induction l as [|x l IH]; simpl; constructor.
  - apply List.Forall_forall. intros y Hy. apply filter_In in Hy as [_ Hy].
    by apply negb_true_iff in Hy.
  - by apply all_different_filter.
Qed.

Lemma firstn_sub {A} (k : nat) (l : list A) (x : A) : In x (firstn k l) -> In x l.
Proof.
  revert k. induction l as [|a l IH]; intros [|k]; simpl; try tauto.
  intros [->|Hx]; [by left | right; eauto].
Qed.

Lemma all_different_firstn {A} (eqb : A -> A -> bool) (k : nat) (l : list A) :
  all_different eqb l -> all_different eqb (firstn k l).
Proof.
  intros Hl. revert k. induction Hl as [|x l Hx Hl IH]; intros [|k]; simpl;
    try constructor; [|apply IH].
  apply List.Forall_forall. intros y Hy.
  apply (proj1 (List.Forall_forall _ _) Hx). eapply firstn_sub; eauto.
Qed.

Lemma unique_sub {A} (eqb : A -> A -> bool) (l : list A) (x : A) :
  In x (unique eqb l) -> In x l.
Proof.
  revert x. induction l as [|y l IH]; simpl; [tauto|].
  intros x [->|Hx]; [by left|]. apply filter_In in Hx as [Hx _]. right. by apply IH.
Qed.

Lemma merge_inner_In (left right : list signals_row) (x : compare_row) :
  In x (merge_inner left right)
  <-> exists l r, In l left /\ In r right
        /\ sg_permno r = sg_permno l /\ yyyymm r = yyyymm l
        /\ x = mkCompare (sg_permno l) (yyyymm l) (sg_BM l) (sg_AssetGrowth l)
                 (sg_BM r) (sg_AssetGrowth r).
Proof.
  unfold merge_inner. rewrite in_flat_map. split.
  - intros (l & Hl & Hx). apply in_map_iff in Hx as (r & <- & Hr).
    apply filter_In in Hr as [Hr Hk]. apply andb_true_iff in Hk as [Hp Hy].
    exists l, r. repeat split; [assumption.. | lia | lia].
  - intros (l & r & Hl & Hr & Hp & Hy & ->). exists l. split; [exact Hl|].
    apply in_map_iff. exists r. split; [reflexivity|].
    apply filter_In. split; [exact Hr|]. apply andb_true_iff. split; lia.
Qed.

Lemma filter_unique_signal_key (right : list signals_row) (l : signals_row) :
  List.NoDup (map signal_key right) ->
  (length (List.filter
     (fun r => Z.eqb (sg_permno r) (sg_permno l) && Z.eqb (yyyymm r) (yyyymm l)) right)
   <= 1)%nat.
Proof.
  induction right as [|a right IH]; simpl; intros Hnd; [lia|].
  apply List.NoDup_cons_iff in Hnd as [Ha Hnd]. specialize (IH Hnd).
  destruct ((sg_permno a =? sg_permno l) && (yyyymm a =? yyyymm l)) eqn:E; [|lia].
  simpl. apply andb_true_iff in E as [Ep Ey].
  rewrite filter_none; [simpl; lia|].
  intros b Hb. apply not_true_iff_false. intros E'. apply andb_true_iff in E' as [Ep' Ey'].
  apply Ha. apply in_map_iff. exists b. split; [|exact Hb].
  unfold signal_key. f_equal; lia.
Qed.

Lemma merge_inner_different (left right : list signals_row) :
  List.NoDup (map signal_key right) -> all_different same_signals left ->
  all_different same_unsigned (merge_inner left right).
Proof.
  intros Hnd. induction 1 as [|l left Hl Hleft IH]; [constructor|].
  unfold merge_inner in *. cbn [flat_map].
  pose proof (filter_unique_signal_key right l Hnd) as Hle.
  destruct (List.filter _ right) as [|r [|r' rs]]; cbn [length map app] in *;
    [exact IH | | lia].
  constructor; [|exact IH].
  apply List.Forall_forall. intros y Hy.
  apply (proj1 (merge_inner_In left right y)) in Hy as (l' & r' & Hl' & _ & _ & _ & ->).
  unfold same_unsigned. cbn [BM_x AssetGrowth_x].
  by apply (proj1 (List.Forall_forall _ _) Hl).
Qed.

(** X15.  The comparison of the last cell shows at most five rows, all of
    entity 10001; every row puts the signal values of a row of [signals]
    next to those of a row of [signals_signed] of the same entity and
    month; and when [signals_signed] has one row per entity and month, no
    two rows shown have the same pair of unsigned signal values.  Without a
    row of entity 10001 in [signals] the comparison is empty. *)
Theorem comparison_shows_distinct_signals (signals signals_signed : list signals_row) :
  (length (compare_signed signals signals_signed) <= 5)%nat
  /\ (forall x, In x (compare_signed signals signals_signed) ->
        cmp_permno x = 10001
        /\ exists r r', In r signals /\ In r' signals_signed
             /\ sg_permno r = 10001 /\ sg_permno r' = 10001
             /\ yyyymm r = cmp_yyyymm x /\ yyyymm r' = cmp_yyyymm x
             /\ BM_x x = sg_BM r /\ AssetGrowth_x x = sg_AssetGrowth r
             /\ BM_y x = sg_BM r' /\ AssetGrowth_y x = sg_AssetGrowth r')
  /\ (List.NoDup (map signal_key signals_signed) ->
        all_different same_unsigned (compare_signed signals signals_signed))
  /\ ((forall r, In r signals -> sg_permno r <> 10001) ->
        compare_signed signals signals_signed = []).
Proof.
  unfold compare_signed, drop_duplicates. split; [|split; [|split]].
  - apply firstn_le_length.
  - intros x Hx. apply firstn_sub, merge_inner_In in Hx
      as (l & r & Hl & Hr & Hp & Hy & ->).
    apply unique_sub, filter_In in Hl as [Hl Hk]. apply Z.eqb_eq in Hk.
    cbn [cmp_permno cmp_yyyymm BM_x AssetGrowth_x BM_y AssetGrowth_y].
    split; [exact Hk|]. exists l, r. repeat split; try assumption; congruence.
  - intros Hnd. apply all_different_firstn, merge_inner_different; [exact Hnd|].
    apply unique_all_different.
  - intros Hnone. rewrite filter_none; [reflexivity|].
    intros r Hr. apply Z.eqb_neq. by apply Hnone.
Qed.

(** ** From the join to the sort *)

(** X16.  The join cell followed by the sort cell, on periods that are
    months the library can date: every row the sort works on is a
    downloaded return, with its entity and return untouched and its date
    moved to the 28th; every date of [port] is the 28th of a month with a
    downloaded return; and when [signals] has one row per entity and
    month, the sort works on exactly as many rows as returns were
    downloaded. *)
Theorem sort_works_on_the_returns (signals : list signals_row) (crsp : list crsp_row)
    (s : signal_name) (n : Z) :
  0 <= n ->
  (forall r, In r signals -> period_ok (yyyymm r)) ->
  (forall c, In c crsp -> crsp_date_ok (c_date c)) ->
  exists cs, merge_cells signals crsp = Ok cs
    /\ forall o, portfolio_sort cs s n = Ok o ->
         (forall r, In r (out_temp o) ->
            exists c, In c crsp /\ permno (t_obs r) = c_permno c
              /\ ret (t_obs r) = c_ret c /\ date (t_obs r) = c_date (on_28th c))
         /\ (forall x, In x (out_port o) ->
               day (p_date x) = 28
               /\ exists c, In c crsp /\ p_date x = c_date (on_28th c))
         /\ (List.NoDup (map signal_key signals) ->
               length (out_temp o) = length crsp).
Proof.
  intros Hn Hper Hok. eexists. split; [by apply merge_cells_total|].
  intros o H.
  apply portfolio_sort_Ok in H as (Ht & Hp & _); [|exact Hn]. cbv zeta in *.
  set (cs := merge_left (map on_28th crsp) (map lagged signals)) in *.
  assert (Hcs : forall x, In x cs ->
            exists c, In c crsp /\ cs_permno x = c_permno c /\ cs_ret x = c_ret c
              /\ cs_date x = c_date (on_28th c)).
  { intros x Hx. apply merge_left_In in Hx as (c' & Hc' & Hpn & Hd & Hr & _).
    apply in_map_iff in Hc' as (c & <- & Hc). exists c. simpl in *. auto. }
  split; [|split].
  - intros r Hr. rewrite Ht in Hr. unfold cell_temp in Hr.
    apply in_map_iff in Hr as (r0 & <- & Hr0). unfold select_columns in Hr0.
    apply in_map_iff in Hr0 as (x & <- & Hx). simpl. by apply Hcs.
  - intros x Hx. rewrite Hp, port_table_eq in Hx.
    apply in_flat_map in Hx as (d & Hd & Hx). apply in_map_iff in Hx as (g & <- & _).
    cbn [p_date port_row_of]. apply (proj1 (group_keys_In _ _)) in Hd.
    rewrite Ht, cell_temp_dates in Hd. apply in_map_iff in Hd as (y & <- & Hy).
    destruct (Hcs y Hy) as (c & Hc & _ & _ & Hdate). rewrite Hdate. simpl. eauto.
  - intros Hnd. rewrite Ht. unfold cell_temp, select_columns. rewrite !length_map.
    pose proof (merge_left_unique (map on_28th crsp) (map lagged signals)
                  (lagged_keys_NoDup signals Hper Hnd)) as E.
    apply (f_equal (@length _)) in E. by rewrite !length_map in E.
Qed.

Lemma sort_works_on_the_returns_witness :
  exists cs,
    merge_cells [mkSignals 1 197912 (Q_of 1) None; mkSignals 2 197912 (Q_of 2) None;
                 mkSignals 3 197912 (Q_of 3) None; mkSignals 1 198001 (Q_of 4) None;
                 mkSignals 2 198001 (Q_of 5) None]
      [mkCrsp 1 (mkTimestamp 1980 1 31) (Q_of 5); mkCrsp 2 (mkTimestamp 1980 1 31) (Q_of 6);
       mkCrsp 3 (mkTimestamp 1980 1 31) (Q_of 7); mkCrsp 1 (mkTimestamp 1980 2 29) (Q_of 8);
       mkCrsp 2 (mkTimestamp 1980 2 29) (Q_of 9)] = Ok cs
    /\ exists o, portfolio_sort cs BM_name 2 = Ok o
         /\ length (out_temp o) = 5%nat
         /\ forall x, In x (out_port o) -> day (p_date x) = 28.
Proof.
  destruct (sort_works_on_the_returns
              [mkSignals 1 197912 (Q_of 1) None; mkSignals 2 197912 (Q_of 2) None;
               mkSignals 3 197912 (Q_of 3) None; mkSignals 1 198001 (Q_of 4) None;
               mkSignals 2 198001 (Q_of 5) None]
              [mkCrsp 1 (mkTimestamp 1980 1 31) (Q_of 5); mkCrsp 2 (mkTimestamp 1980 1 31) (Q_of 6);
               mkCrsp 3 (mkTimestamp 1980 1 31) (Q_of 7); mkCrsp 1 (mkTimestamp 1980 2 29) (Q_of 8);
               mkCrsp 2 (mkTimestamp 1980 2 29) (Q_of 9)] BM_name 2)
    as (cs & Hcs & Hsort).
  - lia.
  - intros r [<-|[<-|[<-|[<-|[<-|[]]]]]]; vm_compute; repeat split; discriminate.
  - intros c [<-|[<-|[<-|[<-|[<-|[]]]]]]; vm_compute; repeat split; discriminate.
  - exists cs. split; [exact Hcs|].
    destruct (portfolio_sort cs BM_name 2) as [o|e] eqn:E.
    + exists o. split; [reflexivity|].
      destruct (Hsort o eq_refl) as (_ & Hport & Hlen). split.
      * apply Hlen. vm_compute. repeat constructor; simpl; intuition discriminate.
      * intros x Hx. by apply Hport.
    + exfalso. vm_compute in Hcs. injection Hcs as <-. vm_compute in E. discriminate E.
Defined.
